(** * install-qt-action: configuration resolution, cache key and run sequence

    A shallow embedding of [action/src/main.ts] (the compiled JavaScript
    that ships with it is the same program): the [Inputs] class with its
    constructor and its [cacheKey] getter, the helpers
    [setOrAppendEnvVar], [flaggedList], [pythonCommand],
    [locateQtArchDir], [isAutodesktopSupported], and the [run] sequence,
    written as a state-and-error monad over the list of effects the
    action performs.

    What the action takes from its packages and from the machine (the
    inputs, the environment, compare-versions, the path functions, the
    outcome of every external command, the cache, the file system) is a
    field of the record [World]; the digest of [crypto] is SHA-256 itself.

    A string is the sequence of its UTF-16 code units, for text whose
    code units are all below 256 (ASCII and the rest of Latin-1):
    [String.length] is [.length], and the digest hashes the UTF-8
    encoding, one byte for a code unit below 128 and two bytes for the
    others.  Text with a code unit of 256 or more is not represented. *)

From Stdlib Require Import ZArith Lia Ascii String List Bool DecimalString.
From stdpp Require Import base option list strings gmap.

Local Open Scope Z_scope.

(* ===================================================================== *)
(** ** JavaScript string primitives used by the action *)
(* ===================================================================== *)

Module JS.

(** Truthiness of a string: [if (s)] holds for every non-empty string. *)
Definition truthy (s : string) : bool :=
  match s with
  | EmptyString => false
  | String _ _ => true
  end.

(** [s.replace(/c/g, by)] for a single literal character [c]. *)
Fixpoint replaceAll (c : ascii) (by_ : string) (s : string) : string :=
  match s with
  | EmptyString => EmptyString
  | String a s' =>
      if Ascii.eqb a c then by_ +:+ replaceAll c by_ s'
      else String a (replaceAll c by_ s')
  end.

(** [s.replace("c", by)]: only the first occurrence is replaced. *)
Fixpoint replaceFirst (c : ascii) (by_ : string) (s : string) : string :=
  match s with
  | EmptyString => EmptyString
  | String a s' =>
      if Ascii.eqb a c then by_ +:+ s'
      else String a (replaceFirst c by_ s')
  end.

(** [s.split(c)] for a one-character separator: [n] separators give
    [n + 1] pieces, empty pieces included. *)
Fixpoint split (c : ascii) (s : string) : list string :=
  match s with
  | EmptyString => [EmptyString]
  | String a s' =>
      if Ascii.eqb a c then EmptyString :: split c s'
      else match split c s' with
           | [] => [String a EmptyString]
           | p :: ps => String a p :: ps
           end
  end.

(** [xs.join(sep)]. *)
Fixpoint join (sep : string) (xs : list string) : string :=
  match xs with
  | [] => EmptyString
  | [x] => x
  | x :: rest => x +:+ sep +:+ join sep rest
  end.

Definition lowerChar (a : ascii) : ascii :=
  let n := N_of_ascii a in
  if ((65 <=? n) && (n <=? 90))%N
     || ((192 <=? n) && (n <=? 222) && negb (n =? 215))%N
  then ascii_of_N (n + 32) else a.

(** [s.toLowerCase()]: the letters A to Z, and the capital letters of
    Latin-1 (192 to 222, the multiplication sign 215 apart). *)
Fixpoint toLowerCase (s : string) : string :=
  match s with
  | EmptyString => EmptyString
  | String a s' => String (lowerChar a) (toLowerCase s')
  end.

(** [s.startsWith(p)]. *)
Fixpoint startsWith (p s : string) : bool :=
  match p, s with
  | EmptyString, _ => true
  | String _ _, EmptyString => false
  | String a p', String b s' => Ascii.eqb a b && startsWith p' s'
  end.

(** [s.includes(p)]. *)
Fixpoint includes (p s : string) : bool :=
  startsWith p s ||
  match s with
  | EmptyString => false
  | String _ s' => includes p s'
  end.

(** The characters of a string, as [for (const ch of s)] yields them. *)
Fixpoint chars (s : string) : list string :=
  match s with
  | EmptyString => []
  | String a s' => String a EmptyString :: chars s'
  end.

(** A double quote, and a string between double quotes. *)
Definition dquote : string := String (ascii_of_nat 34) EmptyString.
Definition quoted (s : string) : string := dquote +:+ s +:+ dquote.

Definition isDigit (a : ascii) : bool :=
  let n := N_of_ascii a in ((48 <=? n) && (n <=? 57))%N.

(** [\s] on code units below 256: tab to carriage return, the space and
    the no-break space. *)
Definition isSpace (a : ascii) : bool :=
  let n := N_of_ascii a in
  ((9 <=? n) && (n <=? 13))%N || (n =? 32)%N || (n =? 160)%N.

(** [s.trimStart()], [s.trimEnd()] and [s.trim()]: white space and line
    terminators are removed, which below 256 are the characters of
    [isSpace]. *)
Fixpoint trimStart (s : string) : string :=
  match s with
  | EmptyString => EmptyString
  | String a s' => if isSpace a then trimStart s' else s
  end.

Fixpoint trimEnd (s : string) : string :=
  match s with
  | EmptyString => EmptyString
  | String a s' =>
      match trimEnd s' with
      | EmptyString => if isSpace a then EmptyString else String a EmptyString
      | String b t => String a (String b t)
      end
  end.

Definition trim (s : string) : string := trimEnd (trimStart s).

End JS.

(* ===================================================================== *)
(** ** SHA-256 (FIPS 180-4), the digest behind
       [crypto.createHash("sha256").update(s).digest("hex")] *)
(* ===================================================================== *)

Module SHA256.

Definition mask32 : Z := 4294967295.

Definition wrap (x : Z) : Z := Z.land x mask32.
Definition add32 (x y : Z) : Z := wrap (x + y).
Definition rotr (n x : Z) : Z :=
  Z.lor (Z.shiftr x n) (wrap (Z.shiftl x (32 - n))).

Definition Ch (x y z : Z) : Z :=
  Z.lxor (Z.land x y) (Z.land (Z.lxor x mask32) z).
Definition Maj (x y z : Z) : Z :=
  Z.lxor (Z.lxor (Z.land x y) (Z.land x z)) (Z.land y z).
Definition bigSigma0 (x : Z) : Z :=
  Z.lxor (Z.lxor (rotr 2 x) (rotr 13 x)) (rotr 22 x).
Definition bigSigma1 (x : Z) : Z :=
  Z.lxor (Z.lxor (rotr 6 x) (rotr 11 x)) (rotr 25 x).
Definition smallSigma0 (x : Z) : Z :=
  Z.lxor (Z.lxor (rotr 7 x) (rotr 18 x)) (Z.shiftr x 3).
Definition smallSigma1 (x : Z) : Z :=
  Z.lxor (Z.lxor (rotr 17 x) (rotr 19 x)) (Z.shiftr x 10).

(** The constants of the standard are fractional parts of roots of the
    first primes, 32 bits each: cube roots for the round constants,
    square roots for the initial chaining value. *)
Definition isPrime (n : nat) : bool :=
  forallb (fun d => negb (n mod d =? 0)%nat) (seq 2 (n - 2)).

Definition primes : list Z :=
  map Z.of_nat (filter isPrime (seq 2 310)).

(** The integer cube root of [n], found bit by bit below [2 ^ bits]. *)
Fixpoint cubeRoot (bits : nat) (n r : Z) : Z :=
  match bits with
  | O => r
  | S b =>
      let c := r + 2 ^ Z.of_nat b in
      if c * c * c <=? n then cubeRoot b n c else cubeRoot b n r
  end.

Definition K : list Z :=
  Eval vm_compute in
    map (fun p => wrap (cubeRoot 36 (p * 2 ^ 96) 0)) primes.

(** The eight working words. *)
Record words8 : Type := W8 { wa : Z; wb : Z; wc : Z; wd : Z;
                             we : Z; wf : Z; wg : Z; wh : Z }.

Definition rootOfPrime (i : nat) : Z :=
  wrap (Z.sqrt (nth i primes 0 * 2 ^ 64)).

Definition H0 : words8 :=
  Eval vm_compute in
    W8 (rootOfPrime 0) (rootOfPrime 1) (rootOfPrime 2) (rootOfPrime 3)
       (rootOfPrime 4) (rootOfPrime 5) (rootOfPrime 6) (rootOfPrime 7).

(** Message schedule: [sched] holds W_0 .. W_(t-1) in order. *)
Definition nextW (sched : list Z) : Z :=
  let t := length sched in
  let w i := nth (t - i)%nat sched 0 in
  add32 (add32 (add32 (smallSigma1 (w 2%nat)) (w 7%nat))
               (smallSigma0 (w 15%nat)))
        (w 16%nat).

Fixpoint extend (n : nat) (sched : list Z) : list Z :=
  match n with
  | O => sched
  | S n' => extend n' (sched ++ [nextW sched])
  end.

Definition round (s : words8) (kw : Z * Z) : words8 :=
  let '(k, w) := kw in
  let t1 := add32 (add32 (add32 (add32 (wh s) (bigSigma1 (we s)))
                                (Ch (we s) (wf s) (wg s))) k) w in
  let t2 := add32 (bigSigma0 (wa s)) (Maj (wa s) (wb s) (wc s)) in
  W8 (add32 t1 t2) (wa s) (wb s) (wc s)
     (add32 (wd s) t1) (we s) (wf s) (wg s).

(** One 16-word block folded into the chaining value. *)
Definition compress (h : words8) (block : list Z) : words8 :=
  let s := fold_left round (combine K (extend 48 block)) h in
  W8 (add32 (wa h) (wa s)) (add32 (wb h) (wb s))
     (add32 (wc h) (wc s)) (add32 (wd h) (wd s))
     (add32 (we h) (we s)) (add32 (wf h) (wf s))
     (add32 (wg h) (wg s)) (add32 (wh h) (wh s)).

(** The UTF-8 encoding [update(s)] hashes: a code unit below 128 is one
    byte, one from 128 to 255 the two bytes 110000xx 10xxxxxx. *)
Fixpoint bytesOf (s : string) : list Z :=
  match s with
  | EmptyString => []
  | String a s' =>
      let n := Z.of_N (N_of_ascii a) in
      if n <? 128 then n :: bytesOf s'
      else Z.lor 192 (Z.shiftr n 6) :: Z.lor 128 (Z.land n 63) :: bytesOf s'
  end.

(** Padding: a 1 bit, zeros up to 56 mod 64, the bit length on 8 bytes. *)
Definition pad (msg : list Z) : list Z :=
  let len := Z.of_nat (length msg) in
  let zeros := Z.to_nat ((55 - len) mod 64) in
  let bits := 8 * len in
  msg ++ [128] ++ repeat 0 zeros
      ++ map (fun i => Z.land (Z.shiftr bits (8 * (7 - Z.of_nat i))) 255)
             (seq 0 8).

(** Big-endian grouping of bytes into 32-bit words. *)
Fixpoint toWords (bs : list Z) : list Z :=
  match bs with
  | b0 :: b1 :: b2 :: b3 :: rest =>
      (Z.shiftl b0 24 + Z.shiftl b1 16 + Z.shiftl b2 8 + b3) :: toWords rest
  | _ => []
  end.

(** Absorb one word; a full buffer of 16 words is compressed. *)
Definition absorb (st : words8 * list Z) (w : Z) : words8 * list Z :=
  let '(h, buf) := st in
  let buf' := buf ++ [w] in
  if (length buf' =? 16)%nat then (compress h buf', []) else (h, buf').

Definition digest (s : string) : words8 :=
  fst (fold_left absorb (toWords (pad (bytesOf s))) (H0, [])).

Definition hexDigits : string := "0123456789abcdef".

Definition nibble (x : Z) : ascii :=
  match String.get (Z.to_nat (Z.land x 15)) hexDigits with
  | Some c => c
  | None => "0"%char
  end.

Definition hex32 (x : Z) : string :=
  String (nibble (Z.shiftr x 28)) (String (nibble (Z.shiftr x 24))
 (String (nibble (Z.shiftr x 20)) (String (nibble (Z.shiftr x 16))
 (String (nibble (Z.shiftr x 12)) (String (nibble (Z.shiftr x 8))
 (String (nibble (Z.shiftr x 4)) (String (nibble x) EmptyString))))))).

Definition hexOf (h : words8) : string :=
  hex32 (wa h) +:+ hex32 (wb h) +:+ hex32 (wc h) +:+ hex32 (wd h) +:+
  hex32 (we h) +:+ hex32 (wf h) +:+ hex32 (wg h) +:+ hex32 (wh h).

(** [createHash("sha256").update(s).digest("hex")]. *)
Definition hexdigest (s : string) : string := hexOf (digest s).

End SHA256.

(* ===================================================================== *)
(** ** Errors, effects and the ambient world *)
(* ===================================================================== *)

(** What the action can throw. *)
Inductive error : Type :=
| TypeError (msg : string)        (* [throw TypeError(msg)] *)
| Error (msg : string)            (* [throw Error(msg)] *)
| InvalidSemver (v1 v2 : string)  (* thrown inside compare-versions *)
| Rejected (what : string).       (* a rejected promise of an external call *)

(** The text of an error inside a template string.  The toolkit's own
    messages are not modelled: a rejected call is named instead. *)
Definition errorString (e : error) : string :=
  match e with
  | TypeError msg => "TypeError: " +:+ msg
  | Error msg => "Error: " +:+ msg
  | InvalidSemver v1 v2 => "Error: Invalid argument not valid semver"
  | Rejected what => "Error: " +:+ what
  end.

Inductive result (A : Type) : Type :=
| Ok (a : A)
| Throw (e : error).
Arguments Ok {A} a.
Arguments Throw {A} e.

(** The effects the action performs, in the order it performs them. *)
Inductive event : Type :=
| Exec (commandLine : string)                         (* exec(commandLine) *)
| GetExecOutput (commandLine : string) (args : list string)
| Info (msg : string)                                 (* core.info *)
| Warning (msg : string)                              (* core.warning *)
| ExportVariable (name value : string)                (* core.exportVariable *)
| AddPath (p : string)                                (* core.addPath *)
| SetOutput (name value : string)                     (* core.setOutput *)
| SetFailed (e : error)                               (* core.setFailed *)
| RestoreCache (paths : list string) (key : string)   (* cache.restoreCache *)
| SaveCache (paths : list string) (key : string)      (* cache.saveCache *)
| Exit (code : Z).                                    (* process.exit *)

(** Operators of the compare-versions package. *)
Inductive CompareOperator : Type := GT | GE | EQ | LE | LT | NE.

(** Everything the action reads from outside itself.  The answers of the
    external commands, of the cache service and of the file system may
    depend on what the run has done so far, so they take the effects
    performed up to that point. *)
Record World : Type := {
  (** the value the workflow gives each input, as the runner hands it on *)
  rawInputs : gmap string string;
  (** [process.env] when the action starts *)
  processEnv : gmap string string;
  (** [process.platform] *)
  platform : string;
  (** [os.release()] *)
  osRelease : string;
  (** [compare(v1, v2, op)] of compare-versions; [None] when it throws *)
  compare : string -> string -> CompareOperator -> option bool;
  (** [path.resolve], [path.join], [path.basename] *)
  pathResolve : list string -> string;
  pathJoin : list string -> string;
  pathBasename : string -> string;
  (** [exec]: does the command exit with status 0? *)
  execSucceeds : list event -> string -> bool;
  (** [getExecOutput]: stdout and stderr, [None] on a failing command *)
  execOutput : list event -> string -> list string -> option (string * string);
  (** [cache.restoreCache]: the key hit, if any; [None] when it rejects *)
  cacheRestore : list event -> list string -> string -> option (option string);
  (** [cache.saveCache]: the cache id; [None] when it rejects *)
  cacheSave : list event -> list string -> string -> option Z;
  (** [glob.sync(pattern)] *)
  globSync : list event -> string -> list string;
  (** [fs.statSync(dir).isDirectory()], [None] when statSync throws *)
  statIsDirectory : list event -> string -> option bool
}.

(** The value of an input as the runner hands it on; absent is the empty
    string. *)
Definition rawInput (w : World) (name : string) : string :=
  default "" (rawInputs w !! name).

(** [core.getInput(name)].  The action passes no options, so the toolkit
    trims the value it returns ([trimWhitespace] is on unless turned
    off). *)
Definition getInput (w : World) (name : string) : string :=
  JS.trim (rawInput w name).

(** [const compareVersions = (v1, op, v2) => compare(v1, v2, op)] *)
Definition compareVersions (w : World) (v1 : string) (op : CompareOperator)
    (v2 : string) : result bool :=
  match compare w v1 v2 op with
  | Some b => Ok b
  | None => Throw (InvalidSemver v1 v2)
  end.

(** Sequencing of computations that may throw. *)
Definition bindR {A B} (r : result A) (k : A -> result B) : result B :=
  match r with
  | Ok a => k a
  | Throw e => Throw e
  end.

Declare Scope result_scope.
Delimit Scope result_scope with R.
Notation "'let*' x ':=' r 'in' k" := (bindR r (fun x => k))
  (at level 10, x name, r at level 100, k at level 200) : result_scope.

(** [a && b] where both sides may throw and [b] runs only when [a] holds. *)
Definition andR (a b : result bool) : result bool :=
  bindR a (fun x => if x then b else Ok false).

(* ===================================================================== *)
(** ** The [Inputs] class *)
(* ===================================================================== *)

Inductive Host : Type := windows | mac | linux.
Inductive Target : Type := desktop | android | ios.
Inductive Wasm : Type := none | singlethread | multithread.
(** [boolean | "nosudo"] *)
Inductive InstallDeps : Type := Deps (b : bool) | nosudo.

Definition hostName (h : Host) : string :=
  match h with windows => "windows" | mac => "mac" | linux => "linux" end.
Definition targetName (t : Target) : string :=
  match t with desktop => "desktop" | android => "android" | ios => "ios" end.
Definition wasmName (m : Wasm) : string :=
  match m with
  | none => "none" | singlethread => "singlethread"
  | multithread => "multithread"
  end.

Definition parseHost (s : string) : option Host :=
  if String.eqb s "windows" then Some windows
  else if String.eqb s "mac" then Some mac
  else if String.eqb s "linux" then Some linux
  else None.
Definition parseTarget (s : string) : option Target :=
  if String.eqb s "desktop" then Some desktop
  else if String.eqb s "android" then Some android
  else if String.eqb s "ios" then Some ios
  else None.
Definition parseWasm (s : string) : option Wasm :=
  if String.eqb s "none" then Some none
  else if String.eqb s "singlethread" then Some singlethread
  else if String.eqb s "multithread" then Some multithread
  else None.

Definition isAndroid (t : Target) : bool :=
  match t with android => true | _ => false end.
Definition isWindows (h : Host) : bool :=
  match h with windows => true | _ => false end.
Definition isNone (m : Wasm) : bool :=
  match m with none => true | _ => false end.

Module Inputs.

Record t : Type := mk {
  host : Host;
  target : Target;
  version : string;
  wasm : Wasm;
  arch : string;
  dir : string;
  modules : list string;
  archives : list string;
  tools : list string;
  addToolsToPath : bool;
  extra : list string;
  src : bool;
  srcArchives : list string;
  doc : bool;
  docArchives : list string;
  docModules : list string;
  example : bool;
  exampleArchives : list string;
  exampleModules : list string;
  installDeps : InstallDeps;
  cache : bool;
  cacheKeyPrefix : string;
  isInstallQtBinaries : bool;
  setEnv : bool;
  aqtSource : string;
  aqtVersion : string;
  py7zrVersion : string
}.

(** [core.getInput(name).toLowerCase() === "true"] *)
Definition getBoolInput (w : World) (name : string) : bool :=
  String.eqb (JS.toLowerCase (getInput w name)) "true".

(** [content ? content.split(" ") : []] *)
Definition getStringArrayInput (w : World) (name : string) : list string :=
  let content := getInput w name in
  if JS.truthy content then JS.split " " content else [].

(** The [host] input, or the ambient platform when it is empty. *)
Definition resolveHost (w : World) : result Host :=
  let host := getInput w "host" in
  if negb (JS.truthy host) then
    Ok (if String.eqb (platform w) "win32" then windows
        else if String.eqb (platform w) "darwin" then mac
        else linux)
  else
    match parseHost host with
    | Some h => Ok h
    | None =>
        Throw (TypeError ("host: " +:+ JS.quoted host +:+ " is not one of "
                 +:+ JS.quoted "windows" +:+ " | " +:+ JS.quoted "mac"
                 +:+ " | " +:+ JS.quoted "linux"))
    end.

Definition resolveTarget (w : World) : result Target :=
  let target := getInput w "target" in
  match parseTarget target with
  | Some x => Ok x
  | None =>
      Throw (TypeError ("target: " +:+ JS.quoted target +:+ " is not one of "
               +:+ JS.quoted "desktop" +:+ " | " +:+ JS.quoted "android"
               +:+ " | " +:+ JS.quoted "ios"))
  end.

Definition resolveWasm (w : World) : result Wasm :=
  let wasm := getInput w "wasm" in
  match parseWasm wasm with
  | Some x => Ok x
  | None =>
      Throw (TypeError ("wasm: " +:+ JS.quoted wasm +:+ " is not one of "
               +:+ JS.quoted "none" +:+ " | " +:+ JS.quoted "singlethread"
               +:+ " | " +:+ JS.quoted "multithread"))
  end.

(** The [arch] input, or its default from target, host and version. *)
Definition resolveArch (w : World) (host : Host) (target : Target)
    (version : string) : result string :=
  let arch := getInput w "arch" in
  if negb (JS.truthy arch) then
    if isAndroid target then
      (let* inRange := andR (compareVersions w version GE "5.14.0")
                            (compareVersions w version LT "6.0.0") in
       Ok (if inRange : bool then "android" else "android_armv7"))%R
    else if isWindows host then
      (let* c1 := compareVersions w version GE "6.8.0" in
       if c1 : bool then Ok "win64_msvc2022_64" else
       let* c2 := compareVersions w version GE "5.15.0" in
       if c2 : bool then Ok "win64_msvc2019_64" else
       let* c3 := compareVersions w version LT "5.6.0" in
       if c3 : bool then Ok "win64_msvc2013_64" else
       let* c4 := compareVersions w version LT "5.9.0" in
       if c4 : bool then Ok "win64_msvc2015_64" else
       Ok "win64_msvc2017_64")%R
    else Ok arch
  else Ok arch.

(** [core.getInput("dir") || process.env.RUNNER_WORKSPACE] *)
Definition dirInput (w : World) : option string :=
  let d := getInput w "dir" in
  if JS.truthy d then Some d else processEnv w !! "RUNNER_WORKSPACE".

Definition resolveDir (w : World) : result string :=
  match dirInput w with
  | Some d =>
      if JS.truthy d then Ok (pathResolve w [d; "Qt"])
      else Throw (TypeError (JS.quoted "dir" +:+ " input may not be empty"))
  | None => Throw (TypeError (JS.quoted "dir" +:+ " input may not be empty"))
  end.

Definition resolveInstallDeps (w : World) : InstallDeps :=
  let installDeps := JS.toLowerCase (getInput w "install-deps") in
  if String.eqb installDeps "nosudo" then nosudo
  else Deps (String.eqb installDeps "true").

(** [new Inputs()] *)
Definition constructor (w : World) : result t :=
  (let* host := resolveHost w in
   let* target := resolveTarget w in
   let* wasm := resolveWasm w in
   let version := getInput w "version" in
   let* arch := resolveArch w host target version in
   let* dir := resolveDir w in
   Ok {|
     host := host;
     target := target;
     version := version;
     wasm := wasm;
     arch := arch;
     dir := dir;
     modules := getStringArrayInput w "modules";
     archives := getStringArrayInput w "archives";
     tools := map (JS.replaceAll "," " ") (getStringArrayInput w "tools");
     addToolsToPath := getBoolInput w "add-tools-to-path";
     extra := getStringArrayInput w "extra";
     installDeps := resolveInstallDeps w;
     cache := getBoolInput w "cache";
     cacheKeyPrefix := getInput w "cache-key-prefix";
     isInstallQtBinaries :=
       negb (getBoolInput w "tools-only")
       && negb (getBoolInput w "no-qt-binaries");
     setEnv := getBoolInput w "set-env";
     aqtSource := getInput w "aqtsource";
     aqtVersion := getInput w "aqtversion";
     py7zrVersion := getInput w "py7zrversion";
     src := getBoolInput w "source";
     srcArchives := getStringArrayInput w "src-archives";
     doc := getBoolInput w "documentation";
     docModules := getStringArrayInput w "doc-modules";
     docArchives := getStringArrayInput w "doc-archives";
     example := getBoolInput w "examples";
     exampleModules := getStringArrayInput w "example-modules";
     exampleArchives := getStringArrayInput w "example-archives"
   |})%R.

(** The groups the [cacheKey] getter iterates over.  A flag token such
    as ["src"] is a string, and [for ... of] over a string yields its
    characters one by one. *)
Definition keyStringArrays (w : World) (i : t) : list (list string) :=
  [ [ hostName (host i); osRelease w; targetName (target i);
      wasmName (wasm i); arch i; version i; dir i;
      py7zrVersion i; aqtSource i; aqtVersion i ];
    modules i;
    archives i;
    extra i;
    tools i;
    JS.chars (if src i then "src" else "");
    srcArchives i;
    JS.chars (if doc i then "doc" else "");
    docArchives i;
    docModules i;
    JS.chars (if example i then "example" else "");
    exampleArchives i;
    exampleModules i ].

Definition addKeyString (cacheKey keyString : string) : string :=
  if JS.truthy keyString then cacheKey +:+ "-" +:+ keyString else cacheKey.

(** The key as assembled before the length test: every non-empty item
    appended after a hyphen, then commas turned into hyphens. *)
Definition assembledKey (w : World) (i : t) : string :=
  JS.replaceAll "," "-"
    (fold_left (fun cacheKey keyStringArray =>
                  fold_left addKeyString keyStringArray cacheKey)
               (keyStringArrays w i) (cacheKeyPrefix i)).

Definition maxKeyLength : nat := 512.

(** [get cacheKey()] *)
Definition cacheKey (w : World) (i : t) : string :=
  let cacheKey := assembledKey w i in
  if (maxKeyLength <? String.length cacheKey)%nat then
    let hashedCacheKey := SHA256.hexdigest cacheKey in
    cacheKeyPrefix i +:+ "-" +:+ hashedCacheKey
  else cacheKey.

End Inputs.

(* ===================================================================== *)
(** ** A comparison of numeric versions, for the example worlds *)
(* ===================================================================== *)

(** The package compare-versions, which provides [compare], is not part
    of the sources: in every theorem it is the field [compare] of the
    world.  The comparison here serves the example worlds only.  It
    orders versions made of one to three numbers ("6", "6.8", "6.8.0")
    by their numbers, a missing number counting as 0, which is what the
    package does on such versions.  On any other string it gives no
    answer; the package gives none either on a string that does not
    start with a number ("", "latest"), but it does answer on forms left
    out here: a leading "v" or "=", the wildcards "x" and "*", a
    pre-release or build suffix, a fourth number.  No theorem assumes
    that the [compare] of a world is this function on such strings. *)
Module Semver.

Fixpoint digitsValue (acc : N) (s : string) : option N :=
  match s with
  | EmptyString => Some acc
  | String a s' =>
      if JS.isDigit a
      then digitsValue (10 * acc + (N_of_ascii a - 48))%N s'
      else None
  end.

Definition component (s : string) : option N :=
  if JS.truthy s then digitsValue 0%N s else None.

Fixpoint components (parts : list string) : option (list N) :=
  match parts with
  | [] => Some []
  | p :: rest =>
      match component p, components rest with
      | Some n, Some ns => Some (n :: ns)
      | _, _ => None
      end
  end.

(** Major, minor and patch numbers. *)
Definition parse (v : string) : option (N * N * N) :=
  match components (JS.split "." v) with
  | Some [a] => Some (a, 0, 0)%N
  | Some [a; b] => Some (a, b, 0%N)
  | Some [a; b; c] => Some (a, b, c)
  | _ => None
  end.

Definition cmp (x y : N * N * N) : comparison :=
  let '(a1, b1, c1) := x in
  let '(a2, b2, c2) := y in
  match (a1 ?= a2)%N with
  | Eq => match (b1 ?= b2)%N with
          | Eq => (c1 ?= c2)%N
          | c => c
          end
  | c => c
  end.

Definition holds (op : CompareOperator) (c : comparison) : bool :=
  match op, c with
  | GT, Gt | GE, Gt | GE, Eq | EQ, Eq
  | LE, Eq | LE, Lt | LT, Lt | NE, Lt | NE, Gt => true
  | _, _ => false
  end.

Definition compare (v1 v2 : string) (op : CompareOperator) : option bool :=
  match parse v1, parse v2 with
  | Some a, Some b => Some (holds op (cmp a b))
  | _, _ => None
  end.

End Semver.

(* ===================================================================== *)
(** ** The monad of the run: effects performed so far, [process.env],
       and a result or a thrown error *)
(* ===================================================================== *)

Record RunState : Type := {
  trace : list event;             (* effects, oldest first *)
  env : gmap string string        (* process.env *)
}.

Definition Run (A : Type) : Type := RunState -> RunState * result A.

Definition ret {A} (a : A) : Run A := fun s => (s, Ok a).
Definition throw {A} (e : error) : Run A := fun s => (s, Throw e).
Definition bind {A B} (m : Run A) (k : A -> Run B) : Run B :=
  fun s =>
    match m s with
    | (s', Ok a) => k a s'
    | (s', Throw e) => (s', Throw e)
    end.

Declare Scope run_scope.
Delimit Scope run_scope with run.
Notation "'let*' x ':=' m 'in' k" := (bind m (fun x => k))
  (at level 10, x name, m at level 100, k at level 200) : run_scope.
Notation "m ';;' k" := (bind m (fun _ => k))
  (at level 100, k at level 200, right associativity) : run_scope.

Definition liftR {A} (r : result A) : Run A := fun s => (s, r).

(** [try { m } catch (error) { handler }] *)
Definition tryCatch {A} (m : Run A) (handler : error -> Run A) : Run A :=
  fun s =>
    match m s with
    | (s', Ok a) => (s', Ok a)
    | (s', Throw e) => handler e s'
    end.

Definition emit (e : event) : Run unit :=
  fun s => ({| trace := trace s ++ [e]; env := env s |}, Ok tt).

(** An external call: the effect is recorded, the world answers from the
    effects performed before it. *)
Definition call {A} (e : event) (answer : list event -> option A)
    (what : string) : Run A :=
  fun s =>
    ({| trace := trace s ++ [e]; env := env s |},
     match answer (trace s) with
     | Some a => Ok a
     | None => Throw (Rejected what)
     end).

Definition readEnv (name : string) : Run (option string) :=
  fun s => (s, Ok (env s !! name)).

Definition history : Run (list event) := fun s => (s, Ok (trace s)).

Fixpoint forEach {A} (xs : list A) (body : A -> Run unit) : Run unit :=
  match xs with
  | [] => ret tt
  | x :: rest => (body x ;; forEach rest body)%run
  end.

Section Action.

Variable w : World.

(** *** The toolkit ([@actions/core], [@actions/exec], [@actions/cache]) *)

Definition info (msg : string) : Run unit := emit (Info msg).
Definition warning (msg : string) : Run unit := emit (Warning msg).
Definition setOutput (name value : string) : Run unit :=
  emit (SetOutput name value).

(** [core.exportVariable] also assigns [process.env[name]]. *)
Definition exportVariable (name value : string) : Run unit :=
  fun s => ({| trace := trace s ++ [ExportVariable name value];
               env := <[name := value]> (env s) |}, Ok tt).

Definition pathDelimiter : string :=
  if String.eqb (platform w) "win32" then ";" else ":".

(** [core.addPath] also prepends to [process.env.PATH]. *)
Definition addPath (p : string) : Run unit :=
  fun s => ({| trace := trace s ++ [AddPath p];
               env := <["PATH" := p +:+ pathDelimiter +:+
                          default "undefined" (env s !! "PATH")]> (env s) |},
            Ok tt).

Definition exec (commandLine : string) : Run unit :=
  call (Exec commandLine)
       (fun h => if execSucceeds w h commandLine then Some tt else None)
       commandLine.

Definition getExecOutput (commandLine : string) (args : list string)
    : Run (string * string) :=
  call (GetExecOutput commandLine args)
       (fun h => execOutput w h commandLine args) commandLine.

Definition restoreCache (paths : list string) (key : string)
    : Run (option string) :=
  call (RestoreCache paths key) (fun h => cacheRestore w h paths key)
       "restoreCache".

Definition saveCache (paths : list string) (key : string) : Run Z :=
  call (SaveCache paths key) (fun h => cacheSave w h paths key) "saveCache".

(** *** Helpers of [main.ts] *)

Definition setOrAppendEnvVar (name value : string) : Run unit :=
  (let* oldValue := readEnv name in
   let newValue :=
     match oldValue with
     | Some old => if JS.truthy old then old +:+ ":" +:+ value else value
     | None => value
     end in
   exportVariable name newValue)%run.

Definition dirExists (dir : string) : Run bool :=
  (let* h := history in
   ret (default false (statIsDirectory w h dir)))%run.

Definition binlessToolDirectories : list string := ["Conan"; "Ninja"].

Fixpoint filterM {A} (p : A -> Run bool) (xs : list A) : Run (list A) :=
  match xs with
  | [] => ret []
  | x :: rest =>
      (let* keep := p x in
       let* rest' := filterM p rest in
       ret (if keep : bool then x :: rest' else rest'))%run
  end.

Definition toolsPaths (installDir : string) : Run (list string) :=
  (let* binlessPaths :=
     filterM dirExists
       (map (fun dir => pathJoin w [installDir; "Tools"; dir])
            binlessToolDirectories) in
   let* h := history in
   ret (map (fun p => pathResolve w [p])
          (concat (map (fun p => globSync w h (installDir +:+ "/" +:+ p))
                       [ "Tools/**/bin";
                         "*.app/Contents/MacOS";
                         "*.app/**/bin";
                         "Tools/*/*.app/Contents/MacOS";
                         "Tools/*/*.app/**/bin" ])
           ++ binlessPaths)))%run.

Definition pythonCommand (command : string) (args : list string) : string :=
  let python := if String.eqb (platform w) "win32" then "python" else "python3" in
  python +:+ " -m " +:+ command +:+ " " +:+ JS.join " " args.

Definition execPython (command : string) (args : list string) : Run unit :=
  exec (pythonCommand command args).

Definition getPythonOutput (command : string) (args : list string)
    : Run string :=
  (let* out := getExecOutput (pythonCommand command args) [] in
   ret (fst out +:+ snd out))%run.

Definition flaggedList (flag : string) (listArgs : list string)
    : list string :=
  match listArgs with
  | [] => []
  | _ :: _ => flag :: listArgs
  end.

(** *** The regular expressions of [main.ts], matched by hand *)

(** One or more digits, greedily: the digits and what follows them. *)
Fixpoint spanDigits (s : string) : string * string :=
  match s with
  | EmptyString => (EmptyString, EmptyString)
  | String a s' =>
      if JS.isDigit a
      then let '(ds, rest) := spanDigits s' in (String a ds, rest)
      else (EmptyString, s)
  end.

Definition digits1 (s : string) : option (string * string) :=
  let '(ds, rest) := spanDigits s in
  if JS.truthy ds then Some (ds, rest) else None.

Definition literal (c : ascii) (s : string) : option string :=
  match s with
  | String a rest => if Ascii.eqb a c then Some rest else None
  | EmptyString => None
  end.

(** [(\d+\.\d+\.\d+)] at the start of [s]: the capture and the rest. *)
Definition version3 (s : string) : option (string * string) :=
  match digits1 s with
  | None => None
  | Some (major, r1) =>
      match literal "." r1 with
      | None => None
      | Some r2 =>
          match digits1 r2 with
          | None => None
          | Some (minor, r3) =>
              match literal "." r3 with
              | None => None
              | Some r4 =>
                  match digits1 r4 with
                  | None => None
                  | Some (patch, rest) =>
                      Some (major +:+ "." +:+ minor +:+ "." +:+ patch, rest)
                  end
              end
          end
      end
  end.

Fixpoint dropWhile (p : ascii -> bool) (s : string) : string :=
  match s with
  | EmptyString => EmptyString
  | String a s' => if p a then dropWhile p s' else s
  end.

Fixpoint dropPrefix (p s : string) : option string :=
  match p, s with
  | EmptyString, _ => Some s
  | String _ _, EmptyString => None
  | String a p', String b s' =>
      if Ascii.eqb a b then dropPrefix p' s' else None
  end.

(** The first position of [s] where [pattern] matches, and its capture. *)
Fixpoint search {A} (pattern : string -> option A) (s : string) : option A :=
  match pattern s with
  | Some x => Some x
  | None =>
      match s with
      | EmptyString => None
      | String _ s' => search pattern s'
      end
  end.

(** [/aqtinstall\(aqt\)\s+v(\d+\.\d+\.\d+)/] anchored at the start. *)
Definition aqtVersionAt (s : string) : option string :=
  match dropPrefix "aqtinstall(aqt)" s with
  | None => None
  | Some r1 =>
      match r1 with
      | String a _ =>
          if JS.isSpace a then
            match literal "v" (dropWhile JS.isSpace r1) with
            | Some r2 => option_map fst (version3 r2)
            | None => None
            end
          else None
      | EmptyString => None
      end
  end.

(** [/refs\/tags\/v(\d+\.\d+\.\d+)$/] anchored at the start. *)
Definition tagVersionAt (s : string) : option string :=
  match dropPrefix "refs/tags/v" s with
  | None => None
  | Some r =>
      match version3 r with
      | Some (v, EmptyString) => Some v
      | _ => None
      end
  end.

(** [/^6\.\d+\.\d+$/] *)
Definition isQt6VersionDir (s : string) : bool :=
  match dropPrefix "6." s with
  | None => false
  | Some r1 =>
      match digits1 r1 with
      | None => false
      | Some (_, r2) =>
          match literal "." r2 with
          | None => false
          | Some r3 =>
              match digits1 r3 with
              | Some (_, EmptyString) => true
              | _ => false
              end
          end
      end
  end.

Definition isChar (c a : ascii) : bool := Ascii.eqb a c.

(** [/^(android*|ios|wasm*|msvc*_arm64)$/]: a starred letter repeats
    zero or more times. *)
Definition isParallelDesktopArchDir (s : string) : bool :=
  match dropPrefix "androi" s with
  | Some r => String.eqb (dropWhile (isChar "d") r) ""
  | None => false
  end
  || String.eqb s "ios"
  || match dropPrefix "was" s with
     | Some r => String.eqb (dropWhile (isChar "m") r) ""
     | None => false
     end
  || match dropPrefix "msv" s with
     | Some r => String.eqb (dropWhile (isChar "c") r) "_arm64"
     | None => false
     end.

Definition locateQtArchDir (installDir : string) : Run string :=
  (let* h := history in
   let qtArchDirs :=
     map (fun s => pathResolve w [s; ".."; ".."])
         (globSync w h (installDir +:+ "/[0-9]*/*/bin/qmake*")) in
   let requiresParallelDesktop :=
     filter (fun archPath =>
               let archDir := pathBasename w archPath in
               let versionDir :=
                 pathBasename w (pathJoin w [archPath; ".."]) in
               isQt6VersionDir versionDir
               && isParallelDesktopArchDir archDir)
            qtArchDirs in
   match requiresParallelDesktop, qtArchDirs with
   | first :: _, _ => ret first
   | [], [] =>
       throw (Error ("Failed to locate a Qt installation directory in "
                     +:+ installDir))
   | [], first :: _ => ret first
   end)%run.

Definition isAutodesktopSupported : Run bool :=
  (let* rawOutput := getPythonOutput "aqt" ["version"] in
   match search aqtVersionAt rawOutput with
   | Some v =>
       let* newEnough := liftR (compareVersions w v GE "3.0.0") in
       ret (newEnough || JS.startsWith "3.2." v)
   | None => ret false
   end)%run.

(** *** [run] *)

(** Insertion by a comparator that may throw: [x] goes before the first
    element it does not have to follow.  Stands for
    [Array.prototype.sort], whose algorithm the language leaves open. *)
Fixpoint insertBy (after : string -> string -> result bool) (x : string)
    (sorted : list string) : result (list string) :=
  match sorted with
  | [] => Ok [x]
  | y :: rest =>
      (let* later := after x y in
       if later : bool
       then let* rest' := insertBy after x rest in Ok (y :: rest')
       else Ok (x :: sorted))%R
  end.

Fixpoint sortBy (after : string -> string -> result bool)
    (xs : list string) : result (list string) :=
  match xs with
  | [] => Ok []
  | x :: rest =>
      (let* sorted := sortBy after rest in insertBy after x sorted)%R
  end.

Fixpoint filterMap {A B} (f : A -> option B) (xs : list A) : list B :=
  match xs with
  | [] => []
  | x :: rest =>
      match f x with
      | Some y => y :: filterMap f rest
      | None => filterMap f rest
      end
  end.

(** [version.replace(/[=]/g, "").replace("*", "")] *)
Definition targetVersionOf (version : string) : string :=
  JS.replaceFirst "*" "" (JS.replaceAll "=" "" version).

Definition getLatestCompatibleVersion (version : string) : Run string :=
  tryCatch
    (let* out :=
       getExecOutput "git"
         [ "ls-remote"; "--tags"; "--sort=-v:refname";
           "https://github.com/Kidev/aqtinstall.git" ] in
     let targetVersion := targetVersionOf version in
     let* versions :=
       liftR
         (sortBy
            (fun a b =>
               (* the comparator is positive, [a] after [b], when a < b *)
               match compare w a b LT with
               | Some lt => Ok lt
               | None => Throw (InvalidSemver a b)
               end)
            (filter (fun v => JS.startsWith targetVersion v)
               (filter JS.truthy
                  (filterMap (search tagVersionAt)
                     (JS.split (ascii_of_nat 10) (fst out)))))) in
     match versions with
     | best :: _ => ret best
     | [] => ret (targetVersion +:+ ".0")
     end)%run
    (fun error =>
       (warning ("Failed to fetch version tags: " +:+ errorString error
                 +:+ ". Using fallback version.") ;;
        ret (targetVersionOf version +:+ ".0"))%run).

Definition dependencies : list string :=
  [ "build-essential"; "libgl1-mesa-dev"; "libgstreamer-gl1.0-0";
    "libpulse-dev"; "libxcb-glx0"; "libxcb-icccm4"; "libxcb-image0";
    "libxcb-keysyms1"; "libxcb-randr0"; "libxcb-render-util0";
    "libxcb-render0"; "libxcb-shape0"; "libxcb-shm0"; "libxcb-sync1";
    "libxcb-util1"; "libxcb-xfixes0"; "libxcb-xinerama0"; "libxcb1";
    "libxkbcommon-dev"; "libxkbcommon-x11-0"; "libxcb-xkb-dev" ].

Definition depsRequested (d : InstallDeps) : bool :=
  match d with Deps b => b | nosudo => true end.

(** Lines 300-340: the packages Qt assumes on Ubuntu. *)
Definition installDependencies (inputs : Inputs.t) : Run unit :=
  if String.eqb (platform w) "linux" && depsRequested (Inputs.installDeps inputs)
  then
    (let* cursor := liftR (compareVersions w (Inputs.version inputs) GE "6.5.0") in
     let deps := if cursor : bool then dependencies ++ ["libxcb-cursor0"]
                 else dependencies in
     let updateCommand := "apt-get update" in
     let installCommand :=
       "apt-get install " +:+ JS.join " " deps +:+ " -y" in
     match Inputs.installDeps inputs with
     | nosudo => exec updateCommand ;; exec installCommand
     | Deps _ => exec ("sudo " +:+ updateCommand) ;;
                 exec ("sudo " +:+ installCommand)
     end)%run
  else ret tt.

(** Lines 342-351: the result is [internalCacheHit]. *)
Definition restoreFromCache (inputs : Inputs.t) : Run bool :=
  if Inputs.cache inputs then
    (let* cacheHitKey :=
       restoreCache [Inputs.dir inputs] (Inputs.cacheKey w inputs) in
     match cacheHitKey with
     | Some key =>
         if JS.truthy key then
           info ("Automatic cache hit with key " +:+ JS.quoted key) ;;
           ret true
         else info "Automatic cache miss, will cache this run" ;; ret false
     | None => info "Automatic cache miss, will cache this run" ;; ret false
     end)%run
  else ret false.

(** Lines 389-405: py7zr and aqtinstall itself. *)
Definition installAqt (inputs : Inputs.t) : Run unit :=
  (execPython "pip install"
     [ "setuptools"; "wheel";
       JS.quoted ("py7zr" +:+ Inputs.py7zrVersion inputs) ] ;;
   if (0 <? String.length (Inputs.aqtSource inputs))%nat then
     execPython "pip install" [JS.quoted (Inputs.aqtSource inputs)]
   else if JS.includes "*" (Inputs.aqtVersion inputs) then
     let* version := getLatestCompatibleVersion (Inputs.aqtVersion inputs) in
     info ("Installing Kidev's aqtinstall version " +:+ version) ;;
     execPython "pip install"
       [ JS.quoted ("git+https://github.com/Kidev/aqtinstall.git@v"
                    +:+ version) ]
   else
     execPython "pip install"
       [ JS.quoted ("aqtinstall" +:+ Inputs.aqtVersion inputs) ])%run.

(** Lines 410-419: the arguments before the WASM configuration. *)
Definition baseQtArgs (inputs : Inputs.t) (autodesktop : list string)
    : list string :=
  [ hostName (Inputs.host inputs); targetName (Inputs.target inputs);
    Inputs.version inputs ]
  ++ (if JS.truthy (Inputs.arch inputs) then [Inputs.arch inputs] else [])
  ++ autodesktop
  ++ ["--outputdir"; Inputs.dir inputs]
  ++ flaggedList "--modules" (Inputs.modules inputs)
  ++ flaggedList "--archives" (Inputs.archives inputs).

Definition usingKidevFork (inputs : Inputs.t) : bool :=
  JS.includes "Kidev/aqtinstall" (Inputs.aqtSource inputs)
  || String.eqb (Inputs.aqtVersion inputs) "==3.2.*".

(** Lines 421-435: the WASM configuration pushed onto [qtArgs]. *)
Definition wasmConfiguration (inputs : Inputs.t) (qtArgs : list string)
    : Run (list string) :=
  if negb (isNone (Inputs.wasm inputs)) then
    (let* recent := liftR (compareVersions w (Inputs.version inputs) GE "6.7.0") in
     if (recent : bool) && usingKidevFork inputs then
       ret (qtArgs ++ ["--wasm"; wasmName (Inputs.wasm inputs)])
     else if negb (usingKidevFork inputs) then
       warning "WASM support requires Kidev's fork of aqtinstall (version 3.2.* or higher)" ;;
       ret qtArgs
     else
       let* recent' := liftR (compareVersions w (Inputs.version inputs) GE "6.7.0") in
       if negb recent' then
         warning "WASM support requires Qt 6.7.0 or higher" ;; ret qtArgs
       else ret qtArgs)%run
  else ret qtArgs.

(** Lines 410-437: the argument list of the install-qt invocation. *)
Definition installQtArgs (inputs : Inputs.t) (autodesktop : list string)
    : Run (list string) :=
  (let* qtArgs := wasmConfiguration inputs (baseQtArgs inputs autodesktop) in
   ret (qtArgs ++ Inputs.extra inputs))%run.

(** Lines 409-439. *)
Definition installQt (inputs : Inputs.t) (autodesktop : list string)
    : Run unit :=
  if Inputs.isInstallQtBinaries inputs then
    (let* qtArgs := installQtArgs inputs autodesktop in
     execPython "aqt install-qt" qtArgs)%run
  else ret tt.

(** Lines 441-455. *)
Definition installSrcDocExamples (inputs : Inputs.t) (flavor : string)
    (archives modules : list string) : Run unit :=
  let qtArgs :=
    [ hostName (Inputs.host inputs); Inputs.version inputs ]
    ++ ["--outputdir"; Inputs.dir inputs]
    ++ flaggedList "--archives" archives
    ++ flaggedList "--modules" modules
    ++ Inputs.extra inputs in
  execPython ("aqt install-" +:+ flavor) qtArgs.

(** Lines 457-465. *)
Definition installFlavors (inputs : Inputs.t) : Run unit :=
  ((if Inputs.src inputs
    then installSrcDocExamples inputs "src" (Inputs.srcArchives inputs) []
    else ret tt) ;;
   (if Inputs.doc inputs
    then installSrcDocExamples inputs "doc" (Inputs.docArchives inputs)
           (Inputs.docModules inputs)
    else ret tt) ;;
   (if Inputs.example inputs
    then installSrcDocExamples inputs "example"
           (Inputs.exampleArchives inputs) (Inputs.exampleModules inputs)
    else ret tt))%run.

(** Lines 468-475: the arguments of one install-tool invocation. *)
Definition toolArgs (inputs : Inputs.t) (tool : string) : list string :=
  [ hostName (Inputs.host inputs); targetName (Inputs.target inputs);
    tool; "--outputdir"; Inputs.dir inputs ] ++ Inputs.extra inputs.

(** Lines 467-477. *)
Definition installTools (inputs : Inputs.t) : Run unit :=
  forEach (Inputs.tools inputs)
    (fun tool => execPython "aqt install-tool" (toolArgs inputs tool)).

(** Lines 388-478: everything done on a cache miss. *)
Definition install (inputs : Inputs.t) : Run unit :=
  (installAqt inputs ;;
   let* supported := isAutodesktopSupported in
   let autodesktop := if supported : bool then ["--autodesktop"] else [] in
   installQt inputs autodesktop ;;
   installFlavors inputs ;;
   installTools inputs)%run.

Definition decimal (z : Z) : string := NilZero.string_of_int (Z.to_int z).

(** Lines 480-483. *)
Definition saveToCache (inputs : Inputs.t) (internalCacheHit : bool)
    : Run unit :=
  if negb internalCacheHit && Inputs.cache inputs then
    (let* cacheId :=
       saveCache [Inputs.dir inputs] (Inputs.cacheKey w inputs) in
     info ("Automatic cache saved with id " +:+ decimal cacheId))%run
  else ret tt.

Definition nonEmpty {A} (xs : list A) : bool :=
  match xs with [] => false | _ :: _ => true end.

(** Lines 485-491. *)
Definition publishTools (inputs : Inputs.t) : Run unit :=
  ((if Inputs.addToolsToPath inputs && nonEmpty (Inputs.tools inputs) then
      let* paths := toolsPaths (Inputs.dir inputs) in
      forEach paths addPath
    else ret tt) ;;
   (if nonEmpty (Inputs.tools inputs) && Inputs.setEnv inputs then
      exportVariable "IQTA_TOOLS" (pathResolve w [Inputs.dir inputs; "Tools"])
    else ret tt))%run.

(** Lines 497-511. *)
Definition publishEnvironment (inputs : Inputs.t) (qtPath : string)
    : Run unit :=
  ((if String.eqb (platform w) "linux" then
      setOrAppendEnvVar "LD_LIBRARY_PATH" (pathResolve w [qtPath; "lib"])
    else ret tt) ;;
   (if negb (String.eqb (platform w) "win32") then
      setOrAppendEnvVar "PKG_CONFIG_PATH"
        (pathResolve w [qtPath; "lib"; "pkgconfig"])
    else ret tt) ;;
   let* qt5 := liftR (compareVersions w (Inputs.version inputs) LT "6.0.0") in
   (if qt5 : bool then
      exportVariable "Qt5_DIR" (pathResolve w [qtPath; "lib"; "cmake"])
    else ret tt) ;;
   exportVariable "QT_ROOT_DIR" qtPath ;;
   exportVariable "QT_PLUGIN_PATH" (pathResolve w [qtPath; "plugins"]) ;;
   exportVariable "QML2_IMPORT_PATH" (pathResolve w [qtPath; "qml"]) ;;
   addPath (pathResolve w [qtPath; "bin"]))%run.

(** Lines 493-512. *)
Definition publishQt (inputs : Inputs.t) : Run unit :=
  if Inputs.isInstallQtBinaries inputs then
    (let* qtPath := locateQtArchDir (Inputs.dir inputs) in
     setOutput "qtPath" qtPath ;;
     if Inputs.setEnv inputs then publishEnvironment inputs qtPath
     else ret tt)%run
  else ret tt.

(** Everything [run] does once the inputs are resolved. *)
Definition runWith (inputs : Inputs.t) : Run unit :=
  (installDependencies inputs ;;
   let* internalCacheHit := restoreFromCache inputs in
   (if negb internalCacheHit then install inputs else ret tt) ;;
   saveToCache inputs internalCacheHit ;;
   publishTools inputs ;;
   publishQt inputs)%run.

(** [const run = async (): Promise<void> => ...] *)
Definition run : Run unit :=
  (let* inputs := liftR (Inputs.constructor w) in runWith inputs)%run.

Definition initial : RunState := {| trace := []; env := processEnv w |}.

(** [void run().catch(...).then(...)]: the whole process. *)
Definition main : RunState :=
  match run initial with
  | (s, Ok _) => {| trace := trace s ++ [Exit 0]; env := env s |}
  | (s, Throw e) =>
      {| trace := trace s ++ [SetFailed e; Exit 1]; env := env s |}
  end.

End Action.

(* ===================================================================== *)
(** * Properties *)
(* ===================================================================== *)

(** ** Strings *)

Lemma app_cons (a : ascii) (s t : string) :
  String a s +:+ t = String a (s +:+ t).
Proof. reflexivity. Qed.

Lemma app_empty_l (t : string) : "" +:+ t = t.
Proof. reflexivity. Qed.

Lemma app_empty_r (s : string) : s +:+ "" = s.
Proof. induction s as [|a s IH]; [reflexivity|]. now rewrite app_cons, IH. Qed.

Lemma app_assoc_string (s t u : string) : (s +:+ t) +:+ u = s +:+ (t +:+ u).
Proof.
  induction s as [|a s IH]; [reflexivity|].
  now rewrite !app_cons, IH.
Qed.


Lemma app_inv_head_string (p s t : string) : p +:+ s = p +:+ t -> s = t.
Proof.
  induction p as [|a p IH]; [easy|].
  rewrite !app_cons. intros H. injection H as H. auto.
Qed.


Lemma truthy_true (s : string) : JS.truthy s = true <-> s <> "".
Proof. destruct s; simpl; split; congruence. Qed.

Lemma startsWith_app (p s : string) : JS.startsWith p (p +:+ s) = true.
Proof.
  induction p as [|a p IH]; [reflexivity|].
  rewrite app_cons. simpl. now rewrite Ascii.eqb_refl, IH.
Qed.

Lemma startsWith_inv (p s : string) :
  JS.startsWith p s = true -> exists rest, s = p +:+ rest.
Proof.
  revert s. induction p as [|a p IH]; intros s H.
  - now exists s.
  - destruct s as [|b s]; [discriminate|]. simpl in H.
    apply andb_prop in H as [Hab Hps]. apply Ascii.eqb_eq in Hab as <-.
    destruct (IH _ Hps) as [rest ->]. now exists rest.
Qed.

(** ** The digest: test vectors of the standard, and its shape *)

Example sha256_empty :
  SHA256.hexdigest "" =
  "e3b0c44298fc1c149afbf4c8996fb92427ae41e4649b934ca495991b7852b855".
Proof. vm_compute. reflexivity. Qed.

Example sha256_abc :
  SHA256.hexdigest "abc" =
  "ba7816bf8f01cfea414140de5dae2223b00361a396177a9cb410ff61f20015ad".
Proof. vm_compute. reflexivity. Qed.

(** "caf" and e with an acute accent (code unit 233): four code units,
    five bytes. *)
Example sha256_latin1 :
  SHA256.hexdigest ("caf" +:+ String (ascii_of_nat 233) "") =
  "850f7dc43910ff890f8879c0ed26fe697c93a067ad93a7d50f466a7028a9bf4e"
  /\ SHA256.bytesOf ("caf" +:+ String (ascii_of_nat 233) "")
     = [99; 97; 102; 195; 169].
Proof. split; vm_compute; reflexivity. Qed.

Example sha256_two_blocks :
  SHA256.hexdigest "abcdbcdecdefdefgefghfghighijhijkijkljklmklmnlmnomnopnopq" =
  "248d6a61d20638b8e5c026930c3e6039a33ce45964ff2167f6ecedd419db06c1".
Proof. vm_compute. reflexivity. Qed.


Definition isLowerHexChar (a : ascii) : bool :=
  let n := N_of_ascii a in
  ((48 <=? n) && (n <=? 57))%N || ((97 <=? n) && (n <=? 102))%N.

Fixpoint isLowerHex (s : string) : bool :=
  match s with
  | EmptyString => true
  | String a s' => isLowerHexChar a && isLowerHex s'
  end.

Lemma isLowerHex_app (s t : string) :
  isLowerHex (s +:+ t) = isLowerHex s && isLowerHex t.
Proof.
  induction s as [|a s IH]; [reflexivity|].
  rewrite app_cons. simpl. now rewrite IH, andb_assoc.
Qed.

Lemma nibble_lowerHex (x : Z) : isLowerHexChar (SHA256.nibble x) = true.
Proof.
  unfold SHA256.nibble.
  change 15 with (Z.ones 4). rewrite Z.land_ones by lia.
  assert (H : 0 <= x mod 2 ^ 4 < 16) by (apply Z.mod_pos_bound; lia).
  set (r := x mod 2 ^ 4) in *.
  assert (Hr : r = 0 \/ r = 1 \/ r = 2 \/ r = 3 \/ r = 4 \/ r = 5 \/ r = 6
               \/ r = 7 \/ r = 8 \/ r = 9 \/ r = 10 \/ r = 11 \/ r = 12
               \/ r = 13 \/ r = 14 \/ r = 15) by lia.
  clearbody r.
  repeat (destruct Hr as [-> | Hr]; [reflexivity|]). now subst r.
Qed.

Lemma hex32_lowerHex (x : Z) : isLowerHex (SHA256.hex32 x) = true.
Proof.
  unfold SHA256.hex32. cbn [isLowerHex].
  now rewrite !nibble_lowerHex.
Qed.



Lemma hexdigest_lowerHex (s : string) :
  isLowerHex (SHA256.hexdigest s) = true.
Proof.
  unfold SHA256.hexdigest, SHA256.hexOf.
  now rewrite !isLowerHex_app, !hex32_lowerHex.
Qed.

(* ===================================================================== *)
(** ** Concrete worlds used by the examples *)
(* ===================================================================== *)

(** A runner on which every external command succeeds, the cache misses,
    and one Qt directory is found. *)
Definition runner (inputs environment : list (string * string))
    (platformName : string) : World := {|
  rawInputs := list_to_map inputs;
  processEnv := list_to_map environment;
  platform := platformName;
  osRelease := "6.5.0-1025-azure";
  compare := Semver.compare;
  pathResolve := JS.join "/";
  pathJoin := JS.join "/";
  pathBasename := fun p => p;
  execSucceeds := fun _ _ => true;
  execOutput := fun _ _ _ => Some ("aqtinstall(aqt) v3.2.1 on Python 3.12", "");
  cacheRestore := fun _ _ _ => Some None;
  cacheSave := fun _ _ _ => Some 17;
  globSync := fun _ pattern => [pattern];
  statIsDirectory := fun _ _ => Some false
|}.

(** The same runner with a cache that already holds the key. *)
Definition cachedRunner (inputs environment : list (string * string))
    (platformName : string) : World :=
  let w := runner inputs environment platformName in {|
  rawInputs := rawInputs w;
  processEnv := processEnv w;
  platform := platform w;
  osRelease := osRelease w;
  compare := compare w;
  pathResolve := pathResolve w;
  pathJoin := pathJoin w;
  pathBasename := pathBasename w;
  execSucceeds := execSucceeds w;
  execOutput := execOutput w;
  cacheRestore := fun _ _ key => Some (Some key);
  cacheSave := cacheSave w;
  globSync := globSync w;
  statIsDirectory := statIsDirectory w
|}.

Definition workspace : list (string * string) :=
  [("RUNNER_WORKSPACE", "/home/runner/work/app")].

Definition noInputs : Inputs.t := {|
  Inputs.host := linux; Inputs.target := desktop; Inputs.version := "";
  Inputs.wasm := none; Inputs.arch := ""; Inputs.dir := "";
  Inputs.modules := []; Inputs.archives := []; Inputs.tools := [];
  Inputs.addToolsToPath := false; Inputs.extra := [];
  Inputs.src := false; Inputs.srcArchives := [];
  Inputs.doc := false; Inputs.docArchives := []; Inputs.docModules := [];
  Inputs.example := false; Inputs.exampleArchives := [];
  Inputs.exampleModules := [];
  Inputs.installDeps := Deps false; Inputs.cache := false;
  Inputs.cacheKeyPrefix := ""; Inputs.isInstallQtBinaries := false;
  Inputs.setEnv := false; Inputs.aqtSource := ""; Inputs.aqtVersion := "";
  Inputs.py7zrVersion := ""
|}.

(** The configuration a world resolves to ([noInputs] when it throws). *)
Definition resolved (w : World) : Inputs.t :=
  match Inputs.constructor w with
  | Ok i => i
  | Throw _ => noInputs
  end.

Fixpoint repeatString (n : nat) (s : string) : string :=
  match n with
  | O => ""
  | S n' => s +:+ repeatString n' s
  end.

(* ===================================================================== *)
(** ** The cache key *)
(* ===================================================================== *)

(** Every non-empty item after a hyphen. *)
Fixpoint hyphenated (items : list string) : string :=
  match items with
  | [] => ""
  | x :: rest =>
      if JS.truthy x then "-" +:+ x +:+ hyphenated rest else hyphenated rest
  end.

(** The key the getter assembles, written without its loops: the prefix,
    then every non-empty item of its arrays after a hyphen, then the
    commas replaced.  The flags are there letter by letter, as the inner
    loop finds them. *)
Definition flatKey (w : World) (i : Inputs.t) : string :=
  JS.replaceAll "," "-"
    (Inputs.cacheKeyPrefix i +:+ hyphenated (concat (Inputs.keyStringArrays w i))).

(** The fields of the key as the specification lists them: the scalar
    values, the elements of modules, archives, extra and tools, then the
    tokens "src", "doc" and "example", each present when its flag is
    set, among their archive and module lists. *)
Definition specFields (w : World) (i : Inputs.t) : list string :=
  [ hostName (Inputs.host i); osRelease w; targetName (Inputs.target i);
    wasmName (Inputs.wasm i); Inputs.arch i; Inputs.version i; Inputs.dir i;
    Inputs.py7zrVersion i; Inputs.aqtSource i; Inputs.aqtVersion i ]
  ++ Inputs.modules i
  ++ Inputs.archives i
  ++ Inputs.extra i
  ++ Inputs.tools i
  ++ (if Inputs.src i then ["src"] else [])
  ++ Inputs.srcArchives i
  ++ (if Inputs.doc i then ["doc"] else [])
  ++ Inputs.docArchives i
  ++ Inputs.docModules i
  ++ (if Inputs.example i then ["example"] else [])
  ++ Inputs.exampleArchives i
  ++ Inputs.exampleModules i.

(** The key as the specification describes it: the prefix, then each
    non-empty field after a hyphen, commas replaced by hyphens. *)
Definition naiveKey (w : World) (i : Inputs.t) : string :=
  JS.replaceAll "," "-"
    (Inputs.cacheKeyPrefix i +:+ hyphenated (specFields w i)).


Lemma fold_addKeyString (items : list string) (key : string) :
  fold_left Inputs.addKeyString items key = key +:+ hyphenated items.
Proof.
  revert key. induction items as [|x rest IH]; intros key; simpl.
  - now rewrite app_empty_r.
  - rewrite IH. unfold Inputs.addKeyString.
    destruct (JS.truthy x); [|reflexivity].
    now rewrite !app_assoc_string.
Qed.

Lemma hyphenated_app (xs ys : list string) :
  hyphenated (xs ++ ys) = hyphenated xs +:+ hyphenated ys.
Proof.
  induction xs as [|x xs IH]; [reflexivity|]. simpl.
  destruct (JS.truthy x); [|exact IH].
  now rewrite IH, !app_assoc_string.
Qed.

Lemma fold_groups (groups : list (list string)) (key : string) :
  fold_left (fun k g => fold_left Inputs.addKeyString g k) groups key
  = key +:+ hyphenated (concat groups).
Proof.
  revert key. induction groups as [|g groups IH]; intros key.
  - simpl. now rewrite app_empty_r.
  - cbn [fold_left concat]. rewrite IH, fold_addKeyString, hyphenated_app.
    now rewrite app_assoc_string.
Qed.

Lemma assembledKey_flat (w : World) (i : Inputs.t) :
  Inputs.assembledKey w i = flatKey w i.
Proof. unfold Inputs.assembledKey, flatKey. now rewrite fold_groups. Qed.





Lemma cacheKey_short (w : World) (i : Inputs.t) :
  (String.length (Inputs.assembledKey w i) <= 512)%nat ->
  Inputs.cacheKey w i = Inputs.assembledKey w i.
Proof.
  intros H. unfold Inputs.cacheKey, Inputs.maxKeyLength.
  destruct (Nat.ltb_spec 512 (String.length (Inputs.assembledKey w i)));
    [lia | reflexivity].
Qed.

Lemma cacheKey_long (w : World) (i : Inputs.t) :
  (512 < String.length (Inputs.assembledKey w i))%nat ->
  Inputs.cacheKey w i =
  Inputs.cacheKeyPrefix i +:+ "-" +:+ SHA256.hexdigest (Inputs.assembledKey w i).
Proof.
  intros H. unfold Inputs.cacheKey, Inputs.maxKeyLength.
  destruct (Nat.ltb_spec 512 (String.length (Inputs.assembledKey w i)));
    [reflexivity | lia].
Qed.


(** Sixty modules, a short prefix. *)
Definition manyModulesWorld : World :=
  runner [ ("target", "desktop"); ("wasm", "none"); ("version", "6.8.0");
           ("cache-key-prefix", "install-qt-action");
           ("modules", repeatString 59 "qtcharts " +:+ "qtcharts") ]
         workspace "linux".


(** A configuration that asks for the sources: the getter spells the
    flag, where the specification appends the token "src". *)
Definition sourcesWorld : World :=
  runner [ ("target", "desktop"); ("wasm", "none"); ("version", "6.8.0");
           ("cache-key-prefix", "qt"); ("source", "true") ]
         [ ("RUNNER_WORKSPACE", "/w") ] "linux".

Example cacheKey_spells_flags :
  Inputs.cacheKey sourcesWorld (resolved sourcesWorld)
  = "qt-linux-6.5.0-1025-azure-desktop-none-6.8.0-/w/Qt-s-r-c"
  /\ naiveKey sourcesWorld (resolved sourcesWorld)
     = "qt-linux-6.5.0-1025-azure-desktop-none-6.8.0-/w/Qt-src".
Proof. split; vm_compute; reflexivity. Qed.



(** Field-for-field identical configurations. *)
Definition sameFields (a b : Inputs.t) : Prop :=
  Inputs.host a = Inputs.host b
  /\ Inputs.target a = Inputs.target b
  /\ Inputs.version a = Inputs.version b
  /\ Inputs.wasm a = Inputs.wasm b
  /\ Inputs.arch a = Inputs.arch b
  /\ Inputs.dir a = Inputs.dir b
  /\ Inputs.modules a = Inputs.modules b
  /\ Inputs.archives a = Inputs.archives b
  /\ Inputs.tools a = Inputs.tools b
  /\ Inputs.addToolsToPath a = Inputs.addToolsToPath b
  /\ Inputs.extra a = Inputs.extra b
  /\ Inputs.src a = Inputs.src b
  /\ Inputs.srcArchives a = Inputs.srcArchives b
  /\ Inputs.doc a = Inputs.doc b
  /\ Inputs.docArchives a = Inputs.docArchives b
  /\ Inputs.docModules a = Inputs.docModules b
  /\ Inputs.example a = Inputs.example b
  /\ Inputs.exampleArchives a = Inputs.exampleArchives b
  /\ Inputs.exampleModules a = Inputs.exampleModules b
  /\ Inputs.installDeps a = Inputs.installDeps b
  /\ Inputs.cache a = Inputs.cache b
  /\ Inputs.cacheKeyPrefix a = Inputs.cacheKeyPrefix b
  /\ Inputs.isInstallQtBinaries a = Inputs.isInstallQtBinaries b
  /\ Inputs.setEnv a = Inputs.setEnv b
  /\ Inputs.aqtSource a = Inputs.aqtSource b
  /\ Inputs.aqtVersion a = Inputs.aqtVersion b
  /\ Inputs.py7zrVersion a = Inputs.py7zrVersion b.

Lemma sameFields_eq (a b : Inputs.t) : sameFields a b -> a = b.
Proof.
  destruct a, b. unfold sameFields. simpl.
  intros H. decompose [and] H. clear H. now subst.
Qed.

Lemma keyStringArrays_release (w1 w2 : World) (i : Inputs.t) :
  osRelease w1 = osRelease w2 ->
  Inputs.keyStringArrays w1 i = Inputs.keyStringArrays w2 i.
Proof. intros H. unfold Inputs.keyStringArrays. now rewrite H. Qed.

(** C2: the cache key depends on nothing but the configuration and the
    OS release string.  Two evaluations, in worlds that may differ in
    everything else (raw inputs, environment, platform, file system,
    answers of the external commands), on field-for-field identical
    configurations and with the same OS release, return the same string. *)
Theorem cacheKey_deterministic (w1 w2 : World) (i1 i2 : Inputs.t) :
  sameFields i1 i2 ->
  osRelease w1 = osRelease w2 ->
  Inputs.cacheKey w1 i1 = Inputs.cacheKey w2 i2.
Proof.
  intros Hfields Hrelease. apply sameFields_eq in Hfields as <-.
  unfold Inputs.cacheKey, Inputs.assembledKey.
  now rewrite (keyStringArrays_release w1 w2 i1 Hrelease).
Qed.

(** A Windows runner with a warm cache and other inputs, but the same
    OS release as [manyModulesWorld]. *)
Definition otherWorld : World :=
  cachedRunner [ ("target", "android"); ("wasm", "none"); ("version", "5.15.2") ]
               [ ("RUNNER_WORKSPACE", "D:/a/app") ] "win32".

Lemma cacheKey_deterministic_witness :
  Inputs.cacheKey manyModulesWorld (resolved manyModulesWorld)
  = Inputs.cacheKey otherWorld (resolved manyModulesWorld).
Proof.
  apply cacheKey_deterministic.
  - unfold sameFields. repeat split; reflexivity.
  - reflexivity.
Defined.

(* ===================================================================== *)
(** ** Construction of the configuration *)
(* ===================================================================== *)










(** The fields read without validation, given the validated ones. *)
Definition assemble (w : World) (host : Host) (target : Target) (wasm : Wasm)
    (arch dir : string) : Inputs.t := {|
  Inputs.host := host;
  Inputs.target := target;
  Inputs.version := getInput w "version";
  Inputs.wasm := wasm;
  Inputs.arch := arch;
  Inputs.dir := dir;
  Inputs.modules := Inputs.getStringArrayInput w "modules";
  Inputs.archives := Inputs.getStringArrayInput w "archives";
  Inputs.tools :=
    map (JS.replaceAll "," " ") (Inputs.getStringArrayInput w "tools");
  Inputs.addToolsToPath := Inputs.getBoolInput w "add-tools-to-path";
  Inputs.extra := Inputs.getStringArrayInput w "extra";
  Inputs.installDeps := Inputs.resolveInstallDeps w;
  Inputs.cache := Inputs.getBoolInput w "cache";
  Inputs.cacheKeyPrefix := getInput w "cache-key-prefix";
  Inputs.isInstallQtBinaries :=
    negb (Inputs.getBoolInput w "tools-only")
    && negb (Inputs.getBoolInput w "no-qt-binaries");
  Inputs.setEnv := Inputs.getBoolInput w "set-env";
  Inputs.aqtSource := getInput w "aqtsource";
  Inputs.aqtVersion := getInput w "aqtversion";
  Inputs.py7zrVersion := getInput w "py7zrversion";
  Inputs.src := Inputs.getBoolInput w "source";
  Inputs.srcArchives := Inputs.getStringArrayInput w "src-archives";
  Inputs.doc := Inputs.getBoolInput w "documentation";
  Inputs.docModules := Inputs.getStringArrayInput w "doc-modules";
  Inputs.docArchives := Inputs.getStringArrayInput w "doc-archives";
  Inputs.example := Inputs.getBoolInput w "examples";
  Inputs.exampleModules := Inputs.getStringArrayInput w "example-modules";
  Inputs.exampleArchives := Inputs.getStringArrayInput w "example-archives"
|}.

Lemma constructor_steps (w : World) :
  Inputs.constructor w =
  (let* host := Inputs.resolveHost w in
   let* target := Inputs.resolveTarget w in
   let* wasm := Inputs.resolveWasm w in
   let* arch := Inputs.resolveArch w host target (getInput w "version") in
   let* dir := Inputs.resolveDir w in
   Ok (assemble w host target wasm arch dir))%R.
Proof. reflexivity. Qed.

Lemma constructor_Ok_inv (w : World) (i : Inputs.t) :
  Inputs.constructor w = Ok i ->
  exists host target wasm arch dir,
    Inputs.resolveHost w = Ok host
    /\ Inputs.resolveTarget w = Ok target
    /\ Inputs.resolveWasm w = Ok wasm
    /\ Inputs.resolveArch w host target (getInput w "version") = Ok arch
    /\ Inputs.resolveDir w = Ok dir
    /\ i = assemble w host target wasm arch dir.
Proof.
  rewrite constructor_steps. unfold bindR.
  destruct (Inputs.resolveHost w) as [host|] eqn:Hh; [|discriminate].
  destruct (Inputs.resolveTarget w) as [target|] eqn:Ht; [|discriminate].
  destruct (Inputs.resolveWasm w) as [wasm|] eqn:Hw; [|discriminate].
  destruct (Inputs.resolveArch w host target (getInput w "version"))
    as [arch|] eqn:Ha; [|discriminate].
  destruct (Inputs.resolveDir w) as [dir|] eqn:Hd; [|discriminate].
  intros H. injection H as <-.
  exists host, target, wasm, arch, dir. repeat split; assumption.
Qed.

Lemma constructor_Ok_intro (w : World) host target wasm arch dir :
  Inputs.resolveHost w = Ok host ->
  Inputs.resolveTarget w = Ok target ->
  Inputs.resolveWasm w = Ok wasm ->
  Inputs.resolveArch w host target (getInput w "version") = Ok arch ->
  Inputs.resolveDir w = Ok dir ->
  Inputs.constructor w = Ok (assemble w host target wasm arch dir).
Proof.
  intros Hh Ht Hw Ha Hd. rewrite constructor_steps. unfold bindR.
  now rewrite Hh, Ht, Hw, Ha, Hd.
Qed.


Lemma resolveHost_literal (w : World) (h : Host) :
  getInput w "host" = hostName h -> Inputs.resolveHost w = Ok h.
Proof.
  intros H. unfold Inputs.resolveHost. rewrite H. now destruct h.
Qed.

(** *** The arch default *)

Definition atLeast (w : World) (version bound : string) : bool :=
  match compare w version bound GE with
  | Some true => true
  | _ => false
  end.

Definition below (w : World) (version bound : string) : bool :=
  match compare w version bound LT with
  | Some true => true
  | _ => false
  end.

(** The default as the specification words it: the Android rule first,
    then the Windows ladder, first match wins, else the empty string. *)
Definition defaultArch (w : World) (target : Target) (host : Host)
    (version : string) : string :=
  match target, host with
  | android, _ =>
      if atLeast w version "5.14.0" && below w version "6.0.0"
      then "android" else "android_armv7"
  | _, windows =>
      if atLeast w version "6.8.0" then "win64_msvc2022_64"
      else if atLeast w version "5.15.0" then "win64_msvc2019_64"
      else if below w version "5.6.0" then "win64_msvc2013_64"
      else if below w version "5.9.0" then "win64_msvc2015_64"
      else "win64_msvc2017_64"
  | _, _ => ""
  end.

Lemma resolveArch_default (w : World) (host : Host) (target : Target)
    (version arch : string) :
  getInput w "arch" = "" ->
  Inputs.resolveArch w host target version = Ok arch ->
  arch = defaultArch w target host version.
Proof.
  intros Hraw. unfold Inputs.resolveArch, defaultArch. rewrite Hraw.
  cbn [JS.truthy negb].
  unfold andR, bindR, compareVersions, atLeast, below.
  destruct target, host; cbn [isAndroid isWindows];
    repeat match goal with
           | |- context [compare w version ?b ?op] =>
               destruct (compare w version b op) as [[|]|]
           end;
    cbn; intros H; try discriminate; now injection H as <-.
Qed.

(** The comparisons of the arch default all answer: the version is one
    the comparison accepts. *)
Definition comparable (w : World) (version : string) : Prop :=
  compare w version "5.14.0" GE <> None
  /\ compare w version "6.0.0" LT <> None
  /\ compare w version "6.8.0" GE <> None
  /\ compare w version "5.15.0" GE <> None
  /\ compare w version "5.6.0" LT <> None
  /\ compare w version "5.9.0" LT <> None.

(** With an empty [arch] input and a version the comparison accepts, the
    default is produced. *)
Lemma resolveArch_produces (w : World) (host : Host) (target : Target)
    (version : string) :
  getInput w "arch" = "" ->
  comparable w version ->
  Inputs.resolveArch w host target version
  = Ok (defaultArch w target host version).
Proof.
  intros Hraw (H1 & H2 & H3 & H4 & H5 & H6).
  unfold Inputs.resolveArch, defaultArch. rewrite Hraw.
  cbn [JS.truthy negb].
  unfold andR, bindR, compareVersions, atLeast, below.
  destruct target, host; cbn [isAndroid isWindows];
    repeat match goal with
           | |- context [compare w version ?b ?op] =>
               destruct (compare w version b op) as [[|]|]
           end;
    cbn; congruence.
Qed.

(** Off Android and off Windows no comparison is made. *)
Lemma resolveArch_elsewhere (w : World) (host : Host) (target : Target)
    (version : string) :
  getInput w "arch" = "" ->
  target <> android -> host <> windows ->
  Inputs.resolveArch w host target version = Ok "".
Proof.
  intros Hraw Htarget Hhost. unfold Inputs.resolveArch. rewrite Hraw.
  destruct target, host; cbn; congruence.
Qed.

(** C3: with an empty [arch] input the resolved arch is the default of
    the specification: for an Android target "android" when 5.14.0 <=
    version < 6.0.0 and "android_armv7" otherwise; else on a Windows
    host the first match of the ladder >= 6.8.0, >= 5.15.0, < 5.6.0,
    < 5.9.0, otherwise; else the empty string.  Every construction has
    that arch; and the default is produced: when the comparison accepts
    the version, or the target is not Android and the host not Windows,
    the arch step returns it, and the construction succeeds with it as
    soon as host, target, wasm and directory are well formed. *)
Theorem arch_default_ladder (w : World) :
  getInput w "arch" = "" ->
  (forall i, Inputs.constructor w = Ok i ->
     Inputs.arch i =
       defaultArch w (Inputs.target i) (Inputs.host i) (Inputs.version i))
  /\ (forall host target,
        comparable w (getInput w "version")
        \/ (target <> android /\ host <> windows) ->
        Inputs.resolveArch w host target (getInput w "version")
        = Ok (defaultArch w target host (getInput w "version")))
  /\ (forall host target wasm dir,
        Inputs.resolveHost w = Ok host ->
        Inputs.resolveTarget w = Ok target ->
        Inputs.resolveWasm w = Ok wasm ->
        Inputs.resolveDir w = Ok dir ->
        comparable w (getInput w "version")
        \/ (target <> android /\ host <> windows) ->
        exists i,
          Inputs.constructor w = Ok i
          /\ Inputs.host i = host /\ Inputs.target i = target
          /\ Inputs.version i = getInput w "version"
          /\ Inputs.arch i
             = defaultArch w target host (getInput w "version")).
Proof.
  intros Hraw.
  assert (Hproduced : forall host target,
            comparable w (getInput w "version")
            \/ (target <> android /\ host <> windows) ->
            Inputs.resolveArch w host target (getInput w "version")
            = Ok (defaultArch w target host (getInput w "version"))).
  { intros host target [Hversion | (Htarget & Hhost)].
    - now apply resolveArch_produces.
    - rewrite (resolveArch_elsewhere w host target _ Hraw Htarget Hhost).
      now destruct target, host. }
  split; [|split; [exact Hproduced|]].
  - intros i Hnew.
    destruct (constructor_Ok_inv w i Hnew)
      as (host & target & wasm & arch & dir & _ & _ & _ & Harch & _ & ->).
    cbn. now apply resolveArch_default.
  - intros host target wasm dir Hhost Htarget Hwasm Hdir Hversion.
    exists (assemble w host target wasm
              (defaultArch w target host (getInput w "version")) dir).
    split; [|now repeat split].
    apply constructor_Ok_intro; try assumption. now apply Hproduced.
Qed.

Definition windowsQt68 : World :=
  runner [ ("target", "desktop"); ("wasm", "none"); ("version", "6.8.0") ]
         workspace "win32".

Definition androidQt515 : World :=
  runner [ ("target", "android"); ("wasm", "none"); ("version", "5.15.2") ]
         workspace "linux".

Lemma arch_default_ladder_witness :
  Inputs.arch (resolved windowsQt68) = "win64_msvc2022_64"
  /\ Inputs.resolveArch androidQt515 linux android "5.15.2" = Ok "android".
Proof.
  split.
  - destruct (arch_default_ladder windowsQt68) as (Harch & _);
      [vm_compute; reflexivity|].
    rewrite (Harch (resolved windowsQt68)); vm_compute; reflexivity.
  - destruct (arch_default_ladder androidQt515) as (_ & Hproduced & _);
      [vm_compute; reflexivity|].
    apply (Hproduced linux android). left.
    repeat split; vm_compute; discriminate.
Defined.

(** The default on the versions the specification lists, and on the
    boundaries of the ladder. *)
Definition archFor (host target version : string) (platformName : string)
    : result string :=
  match Inputs.constructor
          (runner [ ("host", host); ("target", target); ("wasm", "none");
                    ("version", version) ] workspace platformName) with
  | Ok i => Ok (Inputs.arch i)
  | Throw e => Throw e
  end.

Example arch_android_5_14_0 :
  archFor "" "android" "5.14.0" "linux" = Ok "android".
Proof. vm_compute. reflexivity. Qed.

Example arch_android_5_13_9 :
  archFor "" "android" "5.13.9" "linux" = Ok "android_armv7".
Proof. vm_compute. reflexivity. Qed.

Example arch_android_6_0_0 :
  archFor "windows" "android" "6.0.0" "linux" = Ok "android_armv7".
Proof. vm_compute. reflexivity. Qed.

Example arch_windows_6_8_0 :
  archFor "windows" "desktop" "6.8.0" "linux" = Ok "win64_msvc2022_64".
Proof. vm_compute. reflexivity. Qed.

Example arch_windows_5_15_0 :
  archFor "" "desktop" "5.15.0" "win32" = Ok "win64_msvc2019_64".
Proof. vm_compute. reflexivity. Qed.

Example arch_windows_5_14_2 :
  archFor "" "desktop" "5.14.2" "win32" = Ok "win64_msvc2017_64".
Proof. vm_compute. reflexivity. Qed.

Example arch_windows_5_5_0 :
  archFor "windows" "ios" "5.5.0" "darwin" = Ok "win64_msvc2013_64".
Proof. vm_compute. reflexivity. Qed.

Example arch_windows_5_8_9 :
  archFor "" "desktop" "5.8.9" "win32" = Ok "win64_msvc2015_64".
Proof. vm_compute. reflexivity. Qed.

Example arch_linux_desktop :
  archFor "" "desktop" "6.8.0" "linux" = Ok "".
Proof. vm_compute. reflexivity. Qed.

(** *** Validation of [host], [target] and [wasm] *)











Definition badTargetWorld : World :=
  runner [ ("target", "embedded"); ("wasm", "none"); ("version", "6.8.0") ]
         workspace "darwin".



Example badTarget_message :
  Inputs.constructor badTargetWorld =
  Throw (TypeError ("target: " +:+ JS.quoted "embedded" +:+ " is not one of "
                    +:+ JS.quoted "desktop" +:+ " | " +:+ JS.quoted "android"
                    +:+ " | " +:+ JS.quoted "ios")).
Proof. vm_compute. reflexivity. Qed.

(** *** The [version] field is not validated *)














(* ===================================================================== *)
(** ** Reasoning about a run *)
(* ===================================================================== *)

(** [triple P m Q E]: from a state in [P], [m] ends in [Q] when it
    returns and in [E] when it throws. *)
Definition triple {A} (P : RunState -> Prop) (m : Run A)
    (Q : A -> RunState -> Prop) (E : RunState -> Prop) : Prop :=
  forall s, P s ->
    match m s with
    | (s', Ok a) => Q a s'
    | (s', Throw _) => E s'
    end.

(** [inv I m]: [I] holds after [m] whenever it held before, whether [m]
    returns or throws. *)
Definition inv {A} (I : RunState -> Prop) (m : Run A) : Prop :=
  triple I m (fun _ => I) I.

Lemma inv_triple {A} (I : RunState -> Prop) (m : Run A) :
  inv I m -> triple I m (fun _ => I) I.
Proof. exact id. Qed.

Definition push (e : event) (s : RunState) : RunState :=
  {| trace := trace s ++ [e]; env := env s |}.

Section Rules.

Context {A B : Type}.
Variables (P : RunState -> Prop) (E : RunState -> Prop).

Lemma triple_ret (a : A) (Q : A -> RunState -> Prop) :
  (forall s, P s -> Q a s) -> triple P (ret a) Q E.
Proof. intros H s Hs. cbn. auto. Qed.

Lemma triple_throw (e : error) (Q : A -> RunState -> Prop) :
  (forall s, P s -> E s) -> triple P (throw e) Q E.
Proof. intros H s Hs. cbn. auto. Qed.

Lemma triple_liftR (r : result A) (Q : A -> RunState -> Prop) :
  (forall s a, P s -> r = Ok a -> Q a s) ->
  (forall s, P s -> E s) ->
  triple P (liftR r) Q E.
Proof. intros HQ HE s Hs. unfold liftR. destruct r; auto. Qed.

Lemma triple_bind (m : Run A) (k : A -> Run B)
    (Q : A -> RunState -> Prop) (R : B -> RunState -> Prop) :
  triple P m Q E ->
  (forall a, triple (Q a) (k a) R E) ->
  triple P (bind m k) R E.
Proof.
  intros Hm Hk s Hs. unfold bind. specialize (Hm s Hs).
  destruct (m s) as [s' [a|e]]; [now apply Hk | exact Hm].
Qed.

Lemma triple_consequence (m : Run A) (P' : RunState -> Prop)
    (Q Q' : A -> RunState -> Prop) (E' : RunState -> Prop) :
  triple P' m Q' E' ->
  (forall s, P s -> P' s) ->
  (forall a s, Q' a s -> Q a s) ->
  (forall s, E' s -> E s) ->
  triple P m Q E.
Proof.
  intros Hm HP HQ HE s Hs. specialize (Hm s (HP s Hs)).
  destruct (m s) as [s' [a|e]]; auto.
Qed.

Lemma triple_call (e : event) (answer : list event -> option A)
    (what : string) (Q : A -> RunState -> Prop) :
  (forall s a, P s -> answer (trace s) = Some a -> Q a (push e s)) ->
  (forall s, P s -> E (push e s)) ->
  triple P (call e answer what) Q E.
Proof.
  intros HQ HE s Hs. unfold call.
  destruct (answer (trace s)) eqn:Ha; [now apply HQ | now apply HE].
Qed.

End Rules.

Lemma triple_any {A} (P : RunState -> Prop) (m : Run A) :
  triple P m (fun _ _ => True) (fun _ => True).
Proof. intros s _. now destruct (m s) as [s' [a|e]]. Qed.

Section Invariants.

Variable I : RunState -> Prop.

Lemma inv_ret {A} (a : A) : inv I (ret a).
Proof. now apply triple_ret. Qed.

Lemma inv_throw {A} (e : error) : inv I (@throw A e).
Proof. now apply triple_throw. Qed.

Lemma inv_liftR {A} (r : result A) : inv I (liftR r).
Proof. now apply triple_liftR. Qed.

Lemma inv_history : inv I history.
Proof. intros s Hs. exact Hs. Qed.

Lemma inv_readEnv (name : string) : inv I (readEnv name).
Proof. intros s Hs. exact Hs. Qed.

Lemma inv_bind {A B} (m : Run A) (k : A -> Run B) :
  inv I m -> (forall a, inv I (k a)) -> inv I (bind m k).
Proof. intros Hm Hk. eapply triple_bind; [exact Hm | exact Hk]. Qed.

Lemma inv_tryCatch {A} (m : Run A) (handler : error -> Run A) :
  inv I m -> (forall e, inv I (handler e)) -> inv I (tryCatch m handler).
Proof.
  intros Hm Hh s Hs. unfold tryCatch. specialize (Hm s Hs).
  destruct (m s) as [s' [a|e]]; [exact Hm | now apply Hh].
Qed.

Lemma inv_forEach {A} (xs : list A) (body : A -> Run unit) :
  (forall x, In x xs -> inv I (body x)) -> inv I (forEach xs body).
Proof.
  induction xs as [|x xs IH]; intros Hbody; cbn [forEach].
  - apply inv_ret.
  - apply inv_bind; [apply Hbody; now left|].
    intros _. apply IH. intros y Hy. apply Hbody. now right.
Qed.

Lemma inv_filterM {A} (p : A -> Run bool) (xs : list A) :
  (forall x, inv I (p x)) -> inv I (filterM p xs).
Proof.
  intros Hp. induction xs as [|x xs IH]; cbn [filterM].
  - apply inv_ret.
  - apply inv_bind; [apply Hp|]. intros keep.
    apply inv_bind; [exact IH|]. intros rest. apply inv_ret.
Qed.

Lemma inv_emit (e : event) :
  (forall s, I s -> I (push e s)) -> inv I (emit e).
Proof. intros H s Hs. now apply H. Qed.

Lemma inv_call {A} (e : event) (answer : list event -> option A)
    (what : string) :
  (forall s, I s -> I (push e s)) -> inv I (call e answer what).
Proof. intros H. apply triple_call; auto. Qed.

Lemma inv_exportVariable (name value : string) :
  (forall s, I s ->
     I {| trace := trace s ++ [ExportVariable name value];
          env := <[name := value]> (env s) |}) ->
  inv I (exportVariable name value).
Proof. intros H s Hs. now apply H. Qed.

Lemma inv_addPath (w : World) (p : string) :
  (forall s value, I s ->
     I {| trace := trace s ++ [AddPath p];
          env := <["PATH" := value]> (env s) |}) ->
  inv I (addPath w p).
Proof. intros H s Hs. now apply H. Qed.

End Invariants.

(** Walks through a computation of the action down to its effects,
    leaving one goal for each effect: the invariant survives it. *)
Ltac walk_step :=
  lazymatch goal with
  | |- inv _ (ret _) => apply inv_ret
  | |- inv _ (throw _) => apply inv_throw
  | |- inv _ (liftR _) => apply inv_liftR
  | |- inv _ history => apply inv_history
  | |- inv _ (readEnv _) => apply inv_readEnv
  | |- inv _ (bind _ _) => apply inv_bind; [|intros ?]
  | |- inv _ (tryCatch _ _) => apply inv_tryCatch; [|intros ?]
  | |- inv _ (forEach _ _) => apply inv_forEach; intros ? ?
  | |- inv _ (filterM _ _) => apply inv_filterM; intros ?
  | |- inv _ (emit _) => apply inv_emit
  | |- inv _ (call _ _ _) => apply inv_call
  | |- inv _ (exportVariable _ _) => apply inv_exportVariable
  | |- inv _ (addPath _ _) => apply inv_addPath
  | |- inv _ (if ?c then _ else _) => destruct c
  | |- inv _ (match ?x with _ => _ end) => destruct x
  | |- inv _ (let _ := _ in _) => cbv zeta
  | |- inv _ ((fun _ => _) _) => cbv beta
  | |- inv _ _ =>
      progress unfold runWith, installDependencies, restoreFromCache, install,
        installAqt, installQt, installQtArgs, wasmConfiguration,
        installFlavors, installSrcDocExamples, installTools, saveToCache,
        publishTools, publishQt, publishEnvironment, isAutodesktopSupported,
        getLatestCompatibleVersion, locateQtArchDir, toolsPaths, dirExists,
        setOrAppendEnvVar, getPythonOutput, execPython, exec, getExecOutput,
        restoreCache, saveCache, info, warning, setOutput
  end.

Ltac walk := repeat walk_step.

Ltac obvious := intros; cbv beta in *; first [exact Logic.I | assumption | tauto].

Lemma triple_emit (P : RunState -> Prop) (e : event)
    (Q : unit -> RunState -> Prop) (E : RunState -> Prop) :
  (forall s, P s -> Q tt (push e s)) -> triple P (emit e) Q E.
Proof. intros H s Hs. now apply H. Qed.

Lemma run_completed (w : World) (i : Inputs.t) (P : RunState -> Prop)
    (Q : unit -> RunState -> Prop) (E : RunState -> Prop) (s : RunState)
    (r : result unit) :
  Inputs.constructor w = Ok i ->
  triple P (runWith w i) Q E ->
  P (initial w) ->
  run w (initial w) = (s, r) ->
  match r with Ok a => Q a s | Throw _ => E s end.
Proof.
  intros Hnew Htriple Hinit Hrun.
  unfold run, bind, liftR in Hrun. rewrite Hnew in Hrun.
  specialize (Htriple (initial w) Hinit). now rewrite Hrun in Htriple.
Qed.

(** *** Invariants on the events performed *)

Definition always (phi : event -> Prop) (s : RunState) : Prop :=
  Forall phi (trace s).

Lemma always_push (phi : event -> Prop) (e : event) (s : RunState) :
  phi e -> always phi s -> always phi (push e s).
Proof.
  intros He Hs. unfold always, push. cbn.
  apply Forall_app. split; [exact Hs | now constructor].
Qed.

Lemma always_push_env (phi : event -> Prop) (e : event) (s : RunState)
    (env' : gmap string string) :
  phi e -> always phi s ->
  always phi {| trace := trace s ++ [e]; env := env' |}.
Proof. intros He Hs. now apply (always_push phi e s). Qed.

Lemma always_In (phi : event -> Prop) (s : RunState) (e : event) :
  always phi s -> In e (trace s) -> phi e.
Proof. intros Hs He. exact (proj1 (List.Forall_forall phi (trace s)) Hs e He). Qed.

(** The command line starts an invocation of the Python module [command]. *)
Definition invokes (w : World) (command : string) (e : event) : bool :=
  match e with
  | Exec line => JS.startsWith (pythonCommand w command []) line
  | _ => false
  end.

(** The event exports the variable [name]. *)
Definition exports (name : string) (e : event) : bool :=
  match e with
  | ExportVariable n _ => String.eqb n name
  | _ => false
  end.



Lemma startsWith_app_same (p s t : string) :
  JS.startsWith (p +:+ s) (p +:+ t) = JS.startsWith s t.
Proof.
  induction p as [|a p IH]; [reflexivity|].
  rewrite !app_cons. cbn [JS.startsWith]. now rewrite Ascii.eqb_refl, IH.
Qed.

(** An invocation of one Python command is not one of another, when the
    two names part before either ends. *)
Lemma invokes_other (w : World) (command command' : string)
    (args : list string) :
  (forall rest,
     JS.startsWith (command +:+ " ") (command' +:+ " " +:+ rest) = false) ->
  invokes w command (Exec (pythonCommand w command' args)) = false.
Proof.
  intros Hne. unfold invokes, pythonCommand.
  rewrite startsWith_app_same, startsWith_app_same.
  cbn [JS.join]. apply Hne.
Qed.

(** A command line that does not start with "python" invokes no module. *)
Lemma invokes_not_python (w : World) (command line : string) :
  JS.startsWith "python" line = false ->
  invokes w command (Exec line) = false.
Proof.
  intros Hline. unfold invokes, pythonCommand.
  match goal with
  | |- ?starts = false => destruct starts eqn:Hstarts; [|reflexivity]
  end.
  apply startsWith_inv in Hstarts as [rest ->].
  destruct (String.eqb (platform w) "win32"); discriminate Hline.
Qed.

Ltac not_invoked :=
  first
    [ reflexivity
    | apply invokes_not_python; reflexivity
    | apply invokes_other; intros ?; reflexivity ].

Lemma inv_run (I : RunState -> Prop) (w : World) :
  (forall i, Inputs.constructor w = Ok i -> inv I (runWith w i)) ->
  inv I (run w).
Proof.
  intros H s Hs. unfold run, bind, liftR.
  destruct (Inputs.constructor w) as [i|e] eqn:Hnew; [|exact Hs].
  now apply (H i).
Qed.

(** What the process adds to the run: the failure report and the exit. *)
Lemma main_events (w : World) (e : event) :
  In e (trace (main w)) ->
  In e (trace (fst (run w (initial w))))
  \/ (exists err, e = SetFailed err) \/ (exists code, e = Exit code).
Proof.
  unfold main. destruct (run w (initial w)) as [s [[]|err]]; cbn [trace fst];
    rewrite in_app_iff; cbn [In]; intros H.
  - destruct H as [H | [<- | []]]; [now left | right; right; now eexists].
  - destruct H as [H | [<- | [<- | []]]];
      [now left | right; left; now eexists | right; right; now eexists].
Qed.

Lemma run_events (w : World) (e : event) :
  In e (trace (fst (run w (initial w)))) -> In e (trace (main w)).
Proof.
  unfold main. destruct (run w (initial w)) as [s [[]|err]]; cbn [trace fst];
    rewrite in_app_iff; now left.
Qed.

Lemma always_initial (phi : event -> Prop) (w : World) :
  always phi (initial w).
Proof. constructor. Qed.

Lemma always_main (phi : event -> Prop) (w : World) :
  inv (always phi) (run w) ->
  (forall err, phi (SetFailed err)) ->
  (forall code, phi (Exit code)) ->
  forall e, In e (trace (main w)) -> phi e.
Proof.
  intros Hinv Hfailed Hexit e He.
  destruct (main_events w e He) as [Hrun | [(err & ->) | (code & ->)]]; auto.
  specialize (Hinv (initial w) (always_initial phi w)).
  unfold inv, triple in Hinv. revert Hrun.
  destruct (run w (initial w)) as [s [[]|err]]; cbn [fst];
    intros Hrun; exact (always_In phi s e Hinv Hrun).
Qed.

(* ===================================================================== *)
(** ** The tools *)
(* ===================================================================== *)

Lemma getStringArrayInput_empty (w : World) (name : string) :
  getInput w name = "" -> Inputs.getStringArrayInput w name = [].
Proof. intros H. unfold Inputs.getStringArrayInput. now rewrite H. Qed.

Lemma constructor_tools (w : World) (i : Inputs.t) :
  Inputs.constructor w = Ok i ->
  Inputs.tools i
  = map (JS.replaceAll "," " ") (Inputs.getStringArrayInput w "tools").
Proof.
  intros Hnew.
  now destruct (constructor_Ok_inv w i Hnew)
    as (host & target & wasm & arch & dir & _ & _ & _ & _ & _ & ->).
Qed.

(** Neither an install-tool invocation nor an export of IQTA_TOOLS. *)
Definition noToolEffect (w : World) (e : event) : Prop :=
  invokes w "aqt install-tool" e = false /\ exports "IQTA_TOOLS" e = false.

Lemma runWith_noToolEffect (w : World) (i : Inputs.t) :
  Inputs.tools i = [] -> inv (always (noToolEffect w)) (runWith w i).
Proof.
  intros Htools.
  unfold runWith, install, installTools, publishTools. rewrite Htools.
  cbn [forEach nonEmpty andb]. walk.
  all: intros; apply always_push_env; [|assumption].
  all: split; [not_invoked | reflexivity].
Qed.

(** C7: when the raw [tools] input is the empty string, the resolved
    tools sequence is empty, and the process performs no install-tool
    invocation and no export of IQTA_TOOLS, whatever [set-env] and the
    other inputs are and however the external commands answer. *)
Theorem empty_tools_no_effect (w : World) :
  getInput w "tools" = "" ->
  (forall i, Inputs.constructor w = Ok i -> Inputs.tools i = [])
  /\ (forall e, In e (trace (main w)) ->
        invokes w "aqt install-tool" e = false
        /\ exports "IQTA_TOOLS" e = false).
Proof.
  intros Hraw.
  assert (Htools : forall i, Inputs.constructor w = Ok i -> Inputs.tools i = []).
  { intros i Hnew. rewrite (constructor_tools w i Hnew).
    now rewrite getStringArrayInput_empty. }
  split; [exact Htools|].
  apply (always_main (noToolEffect w)).
  - apply inv_run. intros i Hnew. apply runWith_noToolEffect. now apply Htools.
  - intros err. now split.
  - intros code. now split.
Qed.

(** A run with [set-env] on, a cache, sources and documentation, and no
    tools. *)
Definition noToolsWorld : World :=
  runner [ ("target", "desktop"); ("wasm", "none"); ("version", "6.8.0");
           ("set-env", "true"); ("cache", "true"); ("source", "true");
           ("documentation", "true"); ("add-tools-to-path", "true") ]
         workspace "linux".

Lemma empty_tools_no_effect_witness :
  Inputs.tools (resolved noToolsWorld) = []
  /\ Inputs.setEnv (resolved noToolsWorld) = true
  /\ forallb (fun e => negb (invokes noToolsWorld "aqt install-tool" e)
                       && negb (exports "IQTA_TOOLS" e))
             (trace (main noToolsWorld)) = true.
Proof.
  destruct (empty_tools_no_effect noToolsWorld) as (Htools & Hevents);
    [vm_compute; reflexivity|].
  split; [apply Htools; vm_compute; reflexivity|].
  split; [vm_compute; reflexivity|].
  apply forallb_forall. intros e He.
  destruct (Hevents e He) as (-> & ->). reflexivity.
Defined.

(* ===================================================================== *)
(** ** The WASM flag of the install-qt invocation *)
(* ===================================================================== *)

(** What the WASM configuration adds to the arguments. *)
Definition wasmFlag (i : Inputs.t) (recent : bool) : list string :=
  if recent && usingKidevFork i
  then ["--wasm"; wasmName (Inputs.wasm i)] else [].

(** The warnings it emits instead. *)
Definition wasmWarnings (i : Inputs.t) (recent : bool) : list string :=
  if recent && usingKidevFork i then []
  else if negb (usingKidevFork i)
  then ["WASM support requires Kidev's fork of aqtinstall (version 3.2.* or higher)"]
  else ["WASM support requires Qt 6.7.0 or higher"].

Lemma wasmConfiguration_requested (w : World) (i : Inputs.t)
    (qtArgs : list string) (recent : bool) (s : RunState) :
  Inputs.wasm i <> none ->
  compare w (Inputs.version i) "6.7.0" GE = Some recent ->
  wasmConfiguration w i qtArgs s
  = ({| trace := trace s ++ map Warning (wasmWarnings i recent);
        env := env s |},
     Ok (qtArgs ++ wasmFlag i recent)).
Proof.
  intros Hwasm Hcompare.
  unfold wasmConfiguration, wasmFlag, wasmWarnings, compareVersions.
  destruct (Inputs.wasm i); [congruence| |];
    cbn [isNone negb]; unfold bind, liftR; rewrite Hcompare;
    destruct recent, (usingKidevFork i); cbn;
    rewrite ?Hcompare; cbn; rewrite ?app_nil_r; destruct s; reflexivity.
Qed.

(** The list holds [flag] directly followed by [value]. *)
Definition hasPair (flag value : string) (args : list string) : Prop :=
  exists before after, args = before ++ flag :: value :: after.

Lemma hasPair_In (flag value : string) (args : list string) :
  hasPair flag value args -> In flag args.
Proof.
  intros (before & after & ->). apply in_app_iff. right. now left.
Qed.

(** A request for a WASM mode at Qt 6.6.0 without the fork, and the
    pair among the extra arguments. *)
Definition wasmExtraWorld : World :=
  runner [ ("target", "desktop"); ("wasm", "multithread");
           ("version", "6.6.0"); ("aqtversion", "==3.1.*");
           ("extra", "--wasm multithread") ]
         workspace "linux".

(** C4, as stated, fails: the extra arguments are appended as written,
    so the argument list of the install-qt invocation can hold the pair
    although the version is below 6.7.0 and the fork indicator does not
    hold. *)
Lemma extra_wasm_pair_without_fork :
  exists i qtArgs,
    Inputs.constructor wasmExtraWorld = Ok i
    /\ Inputs.isInstallQtBinaries i = true
    /\ Inputs.wasm i = multithread
    /\ compare wasmExtraWorld (Inputs.version i) "6.7.0" GE = Some false
    /\ usingKidevFork i = false
    /\ hasPair "--wasm" "multithread" qtArgs
    /\ In (Exec (pythonCommand wasmExtraWorld "aqt install-qt" qtArgs))
          (trace (main wasmExtraWorld)).
Proof.
  exists (resolved wasmExtraWorld),
         [ "linux"; "desktop"; "6.6.0"; "--autodesktop"; "--outputdir";
           "/home/runner/work/app/Qt"; "--wasm"; "multithread" ].
  repeat split; try (vm_compute; reflexivity).
  - exists [ "linux"; "desktop"; "6.6.0"; "--autodesktop"; "--outputdir";
             "/home/runner/work/app/Qt" ], []. reflexivity.
  - vm_compute. repeat (first [left; reflexivity | right]).
Qed.

(** A version the comparison rejects, with an arch given so that the
    construction makes no comparison. *)
Definition wasmLatestWorld : World :=
  runner [ ("target", "desktop"); ("wasm", "multithread");
           ("version", "latest"); ("arch", "wasm_multithread");
           ("aqtversion", "==3.2.*") ]
         workspace "linux".

(** Nor is a warning emitted in every other case: on a version the
    comparison rejects the run stops at the WASM test, without a warning
    and without an install-qt invocation. *)
Example wasm_rejected_version_aborts :
  List.filter (fun e => match e with
                   | Warning _ | SetFailed _ => true
                   | _ => invokes wasmLatestWorld "aqt install-qt" e
                   end)
         (trace (main wasmLatestWorld))
  = [SetFailed (InvalidSemver "latest" "6.7.0")].
Proof. vm_compute. reflexivity. Qed.

(** C4, amended: for a configuration that requests the Qt binaries and a
    WASM mode.  When the comparison of the version with 6.7.0 throws,
    the install-qt step throws before any warning and any invocation.
    Otherwise the argument list of the invocation is the base arguments,
    then the pair "--wasm" mode exactly when the version is at least
    6.7.0 and the fork indicator holds, then the extra arguments as
    written; in every other case nothing is added between the base and
    the extra arguments and one warning is emitted.  When neither a base
    nor an extra argument is "--wasm", the list holds the pair, and
    holds "--wasm" at all, exactly under that condition. *)
Theorem wasm_flag_of_install_qt (w : World) (i : Inputs.t)
    (autodesktop : list string) (s : RunState) :
  Inputs.isInstallQtBinaries i = true ->
  Inputs.wasm i <> none ->
  (compare w (Inputs.version i) "6.7.0" GE = None ->
   installQt w i autodesktop s
   = (s, Throw (InvalidSemver (Inputs.version i) "6.7.0")))
  /\ (forall recent,
        compare w (Inputs.version i) "6.7.0" GE = Some recent ->
        exists flag warnings,
          let s' := {| trace := trace s ++ map Warning warnings;
                       env := env s |} in
          let qtArgs := baseQtArgs i autodesktop ++ flag ++ Inputs.extra i in
          installQtArgs w i autodesktop s = (s', Ok qtArgs)
          /\ installQt w i autodesktop s
             = execPython w "aqt install-qt" qtArgs s'
          /\ (flag = ["--wasm"; wasmName (Inputs.wasm i)]
              <-> recent = true /\ usingKidevFork i = true)
          /\ (recent && usingKidevFork i = true -> warnings = [])
          /\ (recent && usingKidevFork i = false ->
              flag = [] /\ exists msg, warnings = [msg])
          /\ (~ In "--wasm" (baseQtArgs i autodesktop) ->
              ~ In "--wasm" (Inputs.extra i) ->
              (hasPair "--wasm" (wasmName (Inputs.wasm i)) qtArgs
               <-> recent = true /\ usingKidevFork i = true)
              /\ (In "--wasm" qtArgs
                  <-> recent = true /\ usingKidevFork i = true))).
Proof.
  intros Hqt Hwasm. split.
  { intros Hcompare.
    unfold installQt, installQtArgs, wasmConfiguration, compareVersions.
    rewrite Hqt.
    destruct (Inputs.wasm i); [congruence| |];
      cbn [isNone negb]; unfold bind, liftR; now rewrite Hcompare. }
  intros recent Hcompare.
  exists (wasmFlag i recent), (wasmWarnings i recent). cbn zeta.
  assert (Hargs : installQtArgs w i autodesktop s
                  = ({| trace := trace s ++ map Warning (wasmWarnings i recent);
                        env := env s |},
                     Ok (baseQtArgs i autodesktop ++ wasmFlag i recent
                         ++ Inputs.extra i))).
  { unfold installQtArgs, bind.
    rewrite (wasmConfiguration_requested w i _ recent s Hwasm Hcompare).
    unfold ret. now rewrite <- app_assoc. }
  split; [exact Hargs|]. split.
  { unfold installQt. rewrite Hqt. unfold bind. now rewrite Hargs. }
  assert (Hflag : wasmFlag i recent
                  = if recent && usingKidevFork i
                    then ["--wasm"; wasmName (Inputs.wasm i)] else [])
    by reflexivity.
  assert (Hiff : recent && usingKidevFork i = true
                 <-> recent = true /\ usingKidevFork i = true)
    by apply andb_true_iff.
  split; [|split; [|split]].
  - rewrite Hflag, <- Hiff.
    destruct (recent && usingKidevFork i); split; congruence.
  - unfold wasmWarnings. now intros ->.
  - unfold wasmWarnings. rewrite Hflag. intros ->.
    split; [reflexivity|]. destruct (negb (usingKidevFork i)); eexists;
      reflexivity.
  - intros Hbase Hextra. rewrite Hflag, <- Hiff.
    destruct (recent && usingKidevFork i).
    + split; split; try reflexivity; intros _.
      * now exists (baseQtArgs i autodesktop), (Inputs.extra i).
      * apply in_app_iff. right. now left.
    + assert (Hnone : ~ In "--wasm"
                        (baseQtArgs i autodesktop ++ [] ++ Inputs.extra i)).
      { rewrite !in_app_iff. cbn [In]. tauto. }
      split; split; try discriminate; intros H; exfalso; apply Hnone;
        [now apply hasPair_In in H | exact H].
Qed.

Definition wasmForkWorld : World :=
  runner [ ("target", "desktop"); ("wasm", "multithread");
           ("version", "6.8.0"); ("aqtversion", "==3.2.*");
           ("extra", "--external 7z") ]
         workspace "linux".

Definition wasmNoForkWorld : World :=
  runner [ ("target", "desktop"); ("wasm", "multithread");
           ("version", "6.8.0"); ("aqtversion", "==3.1.*") ]
         workspace "linux".

Lemma wasm_flag_of_install_qt_witness :
  exists flag warnings,
    installQtArgs wasmForkWorld (resolved wasmForkWorld) ["--autodesktop"]
      (initial wasmForkWorld)
    = ({| trace := map Warning warnings; env := processEnv wasmForkWorld |},
       Ok (baseQtArgs (resolved wasmForkWorld) ["--autodesktop"] ++ flag
           ++ ["--external"; "7z"]))
    /\ flag = ["--wasm"; "multithread"] /\ warnings = []
    /\ hasPair "--wasm" "multithread"
         (baseQtArgs (resolved wasmForkWorld) ["--autodesktop"] ++ flag
          ++ ["--external"; "7z"]).
Proof.
  destruct (wasm_flag_of_install_qt wasmForkWorld (resolved wasmForkWorld)
              ["--autodesktop"] (initial wasmForkWorld))
    as (_ & Hanswer).
  - vm_compute. reflexivity.
  - vm_compute. discriminate.
  - destruct (Hanswer true) as (flag & warnings & Hargs & _ & Hflag & Hquiet
                                & _ & Hholds);
      [vm_compute; reflexivity|].
    exists flag, warnings. split; [exact Hargs|].
    split; [|split].
    + apply Hflag. split; vm_compute; reflexivity.
    + apply Hquiet. vm_compute. reflexivity.
    + apply Hholds.
      * vm_compute. intuition discriminate.
      * vm_compute. intuition discriminate.
      * split; vm_compute; reflexivity.
Defined.

Example wasm_with_fork :
  installQtArgs wasmForkWorld (resolved wasmForkWorld) []
    (initial wasmForkWorld)
  = (initial wasmForkWorld,
     Ok [ "linux"; "desktop"; "6.8.0"; "--outputdir";
          "/home/runner/work/app/Qt"; "--wasm"; "multithread";
          "--external"; "7z" ]).
Proof. vm_compute. reflexivity. Qed.

Example wasm_without_fork :
  installQtArgs wasmNoForkWorld (resolved wasmNoForkWorld) []
    (initial wasmNoForkWorld)
  = ({| trace :=
          [Warning "WASM support requires Kidev's fork of aqtinstall (version 3.2.* or higher)"];
        env := processEnv wasmNoForkWorld |},
     Ok [ "linux"; "desktop"; "6.8.0"; "--outputdir";
          "/home/runner/work/app/Qt" ]).
Proof. vm_compute. reflexivity. Qed.

(* ===================================================================== *)
(** ** Library and pkg-config paths are appended *)
(* ===================================================================== *)

(** The value [setOrAppendEnvVar] publishes, from the value the variable
    has and the new one. *)
Definition appended (old : option string) (value : string) : string :=
  match old with
  | Some o => if JS.truthy o then o +:+ ":" +:+ value else value
  | None => value
  end.

Lemma setOrAppendEnvVar_appended (name value : string) (s : RunState) :
  setOrAppendEnvVar name value s
  = ({| trace := trace s ++ [ExportVariable name (appended (env s !! name) value)];
        env := <[name := appended (env s !! name) value]> (env s) |},
     Ok tt).
Proof. reflexivity. Qed.

Lemma appended_existing (old value : string) :
  old <> "" -> appended (Some old) value = old +:+ ":" +:+ value.
Proof. intros H. apply truthy_true in H. cbn. now rewrite H. Qed.

(** The path published for each of the two variables. *)
Definition libraryPath (w : World) (name qtPath : string) : string :=
  if String.eqb name "LD_LIBRARY_PATH"
  then pathResolve w [qtPath; "lib"]
  else pathResolve w [qtPath; "lib"; "pkgconfig"].

(** Before the export: the variable is as the process found it. *)
Definition untouched (w : World) (name : string) (s : RunState) : Prop :=
  env s !! name = processEnv w !! name
  /\ always (fun e => exports name e = false) s.

(** After it: every export of the variable is the appended value. *)
Definition appendedOnly (w : World) (name : string) (s : RunState) : Prop :=
  always (fun e => forall v, e = ExportVariable name v ->
                   exists qtPath,
                     v = appended (processEnv w !! name)
                                  (libraryPath w name qtPath)) s.

Lemma untouched_appendedOnly (w : World) (name : string) (s : RunState) :
  untouched w name s -> appendedOnly w name s.
Proof.
  intros (_ & Hs). unfold appendedOnly, always in *.
  eapply List.Forall_impl; [|exact Hs]. cbn. intros e He v ->.
  cbn in He. now rewrite String.eqb_refl in He.
Qed.

Lemma untouched_push (w : World) (name : string) (e : event) (s : RunState) :
  exports name e = false -> untouched w name s -> untouched w name (push e s).
Proof.
  intros He (Henv & Hs). split; [exact Henv|]. now apply always_push.
Qed.

Lemma untouched_export (w : World) (name n v : string) (s : RunState) :
  n <> name -> untouched w name s ->
  untouched w name {| trace := trace s ++ [ExportVariable n v];
                      env := <[n := v]> (env s) |}.
Proof.
  intros Hne (Henv & Hs). split.
  - cbn. now rewrite lookup_insert_ne.
  - apply always_push_env; [|exact Hs]. cbn. now apply String.eqb_neq.
Qed.

Lemma untouched_addPath (w : World) (name p v : string) (s : RunState) :
  name <> "PATH" -> untouched w name s ->
  untouched w name {| trace := trace s ++ [AddPath p];
                      env := <["PATH" := v]> (env s) |}.
Proof.
  intros Hne (Henv & Hs). split.
  - cbn. rewrite lookup_insert_ne; [exact Henv | congruence].
  - now apply always_push_env.
Qed.

Lemma appendedOnly_other (w : World) (name : string) (e : event)
    (s : RunState) (env' : gmap string string) :
  exports name e = false -> appendedOnly w name s ->
  appendedOnly w name {| trace := trace s ++ [e]; env := env' |}.
Proof.
  intros He Hs. apply always_push_env; [|exact Hs].
  intros v ->. cbn in He. now rewrite String.eqb_refl in He.
Qed.

Ltac untouched_step :=
  intros;
  first
    [ apply untouched_push; [reflexivity | assumption]
    | apply untouched_export; [discriminate | assumption]
    | apply untouched_addPath; [discriminate | assumption] ].

Ltac appendedOnly_step :=
  intros; apply appendedOnly_other; [reflexivity | assumption].

Section Appended.

Variables (w : World) (i : Inputs.t).

Lemma setOrAppendEnvVar_untouched (name qtPath : string) :
  triple (untouched w name)
    (setOrAppendEnvVar name (libraryPath w name qtPath))
    (fun _ => appendedOnly w name) (appendedOnly w name).
Proof.
  intros s Hs. rewrite setOrAppendEnvVar_appended.
  destruct Hs as (Henv & Hs). rewrite Henv.
  apply always_push_env.
  - intros v Hv. injection Hv as <-. now exists qtPath.
  - apply (untouched_appendedOnly w name s). now split.
Qed.

Lemma publishEnvironment_library (qtPath : string) :
  triple (untouched w "LD_LIBRARY_PATH") (publishEnvironment w i qtPath)
    (fun _ => appendedOnly w "LD_LIBRARY_PATH")
    (appendedOnly w "LD_LIBRARY_PATH").
Proof.
  unfold publishEnvironment.
  eapply triple_bind with (Q := fun _ => appendedOnly w "LD_LIBRARY_PATH").
  - destruct (String.eqb (platform w) "linux").
    + apply (setOrAppendEnvVar_untouched "LD_LIBRARY_PATH" qtPath).
    + apply triple_ret. apply untouched_appendedOnly.
  - intros _. apply inv_triple. walk. all: appendedOnly_step.
Qed.

Lemma publishEnvironment_pkgconfig (qtPath : string) :
  triple (untouched w "PKG_CONFIG_PATH") (publishEnvironment w i qtPath)
    (fun _ => appendedOnly w "PKG_CONFIG_PATH")
    (appendedOnly w "PKG_CONFIG_PATH").
Proof.
  unfold publishEnvironment.
  eapply triple_bind with (Q := fun _ => untouched w "PKG_CONFIG_PATH").
  { eapply triple_consequence with (E' := untouched w "PKG_CONFIG_PATH");
      [|intros s Hs; exact Hs | intros a s Hs; exact Hs
       |apply untouched_appendedOnly].
    apply inv_triple.
    walk. untouched_step. }
  intros _.
  eapply triple_bind with (Q := fun _ => appendedOnly w "PKG_CONFIG_PATH").
  - destruct (negb (String.eqb (platform w) "win32")).
    + apply (setOrAppendEnvVar_untouched "PKG_CONFIG_PATH" qtPath).
    + apply triple_ret. apply untouched_appendedOnly.
  - intros _. apply inv_triple. walk. all: appendedOnly_step.
Qed.

End Appended.

Lemma inv_weaken {A} (I E : RunState -> Prop) (m : Run A) :
  inv I m -> (forall s, I s -> E s) -> triple I m (fun _ => I) E.
Proof.
  intros Hm HE. eapply triple_consequence; [exact Hm | | |]; auto.
Qed.

Lemma publishQt_appended (w : World) (i : Inputs.t) (name : string) :
  name = "LD_LIBRARY_PATH" \/ name = "PKG_CONFIG_PATH" ->
  triple (untouched w name) (publishQt w i)
    (fun _ => appendedOnly w name) (appendedOnly w name).
Proof.
  intros Hname. unfold publishQt.
  destruct (Inputs.isInstallQtBinaries i);
    [|apply triple_ret; apply untouched_appendedOnly].
  eapply triple_bind with (Q := fun _ => untouched w name).
  { apply inv_weaken; [|apply untouched_appendedOnly].
    walk; destruct Hname as [-> | ->]; untouched_step. }
  intros qtPath.
  eapply triple_bind with (Q := fun _ => untouched w name).
  { apply inv_weaken; [|apply untouched_appendedOnly].
    walk; destruct Hname as [-> | ->]; untouched_step. }
  intros _.
  destruct (Inputs.setEnv i);
    [|apply triple_ret; apply untouched_appendedOnly].
  destruct Hname as [-> | ->];
    [apply publishEnvironment_library | apply publishEnvironment_pkgconfig].
Qed.

Lemma runWith_appended (w : World) (i : Inputs.t) (name : string) :
  name = "LD_LIBRARY_PATH" \/ name = "PKG_CONFIG_PATH" ->
  triple (untouched w name) (runWith w i)
    (fun _ => appendedOnly w name) (appendedOnly w name).
Proof.
  intros Hname. unfold runWith.
  repeat (eapply triple_bind with (Q := fun _ => untouched w name);
          [ apply inv_weaken; [|apply untouched_appendedOnly];
            walk; destruct Hname as [-> | ->]; untouched_step
          | intros ? ]).
  now apply publishQt_appended.
Qed.

(** What [publishEnvironment] exports first for a Qt at [qtPath], from
    the values the two variables have in [environment]. *)
Definition libraryExports (w : World) (environment : gmap string string)
    (qtPath : string) : list event :=
  (if String.eqb (platform w) "linux"
   then [ExportVariable "LD_LIBRARY_PATH"
           (appended (environment !! "LD_LIBRARY_PATH")
                     (pathResolve w [qtPath; "lib"]))]
   else [])
  ++ (if negb (String.eqb (platform w) "win32")
      then [ExportVariable "PKG_CONFIG_PATH"
              (appended (environment !! "PKG_CONFIG_PATH")
                        (pathResolve w [qtPath; "lib"; "pkgconfig"]))]
      else []).

(** Neither variable has been changed since the process started. *)
Definition asFound (w : World) (s : RunState) : Prop :=
  env s !! "LD_LIBRARY_PATH" = processEnv w !! "LD_LIBRARY_PATH"
  /\ env s !! "PKG_CONFIG_PATH" = processEnv w !! "PKG_CONFIG_PATH".

(** The Qt at [qtPath] has been announced and, right after, the two
    variables exported with their appended values, which they still
    hold. *)
Definition librariesPublished (w : World) (qtPath : string) (s : RunState)
    : Prop :=
  (exists before later,
     trace s = before ++ SetOutput "qtPath" qtPath
                         :: libraryExports w (processEnv w) qtPath ++ later)
  /\ (String.eqb (platform w) "linux" = true ->
      env s !! "LD_LIBRARY_PATH"
      = Some (appended (processEnv w !! "LD_LIBRARY_PATH")
                       (pathResolve w [qtPath; "lib"])))
  /\ (String.eqb (platform w) "win32" = false ->
      env s !! "PKG_CONFIG_PATH"
      = Some (appended (processEnv w !! "PKG_CONFIG_PATH")
                       (pathResolve w [qtPath; "lib"; "pkgconfig"]))).

Lemma librariesPublished_push (w : World) (qtPath : string) (e : event)
    (s : RunState) (env' : gmap string string) :
  env' !! "LD_LIBRARY_PATH" = env s !! "LD_LIBRARY_PATH" ->
  env' !! "PKG_CONFIG_PATH" = env s !! "PKG_CONFIG_PATH" ->
  librariesPublished w qtPath s ->
  librariesPublished w qtPath {| trace := trace s ++ [e]; env := env' |}.
Proof.
  intros Hld Hpkg ((before & later & Htrace) & Hlibrary & Hpkgconfig).
  split; [|cbn [env]; rewrite Hld, Hpkg; now split].
  exists before, (later ++ [e]). cbn [trace]. rewrite Htrace.
  rewrite <- app_assoc. cbn [app]. now rewrite <- app_assoc.
Qed.

Ltac asFound_step :=
  intros; unfold asFound in *; cbn [env push];
  rewrite ?lookup_insert_ne by discriminate; assumption.

Ltac librariesPublished_step :=
  intros; apply librariesPublished_push;
  [ cbn [env]; rewrite ?lookup_insert_ne by discriminate; reflexivity
  | cbn [env]; rewrite ?lookup_insert_ne by discriminate; reflexivity
  | assumption ].

Section Published.

Variables (w : World) (i : Inputs.t).

Lemma publishEnvironment_published (qtPath : string) :
  triple (fun s => asFound w s
                   /\ exists before,
                        trace s = before ++ [SetOutput "qtPath" qtPath])
    (publishEnvironment w i qtPath)
    (fun _ => librariesPublished w qtPath) (librariesPublished w qtPath).
Proof.
  unfold publishEnvironment, libraryExports.
  eapply triple_bind
    with (Q := fun _ s =>
            (exists before,
               trace s
               = before ++ SetOutput "qtPath" qtPath
                   :: (if String.eqb (platform w) "linux"
                       then [ExportVariable "LD_LIBRARY_PATH"
                               (appended (processEnv w !! "LD_LIBRARY_PATH")
                                         (pathResolve w [qtPath; "lib"]))]
                       else []))
            /\ (String.eqb (platform w) "linux" = true ->
                env s !! "LD_LIBRARY_PATH"
                = Some (appended (processEnv w !! "LD_LIBRARY_PATH")
                                 (pathResolve w [qtPath; "lib"])))
            /\ env s !! "PKG_CONFIG_PATH" = processEnv w !! "PKG_CONFIG_PATH").
  { intros s ((Hld & Hpkg) & before & Hbefore).
    destruct (String.eqb (platform w) "linux").
    - rewrite setOrAppendEnvVar_appended. cbn [trace env]. rewrite Hld.
      split; [|split].
      + exists before. rewrite Hbefore, <- app_assoc. reflexivity.
      + intros _. apply lookup_insert_eq.
      + now rewrite lookup_insert_ne.
    - cbn. split; [|split; [discriminate | exact Hpkg]].
      exists before. now rewrite Hbefore. }
  intros _.
  eapply triple_bind with (Q := fun _ => librariesPublished w qtPath).
  { intros s ((before & Hbefore) & Hld & Hpkg). unfold librariesPublished,
      libraryExports.
    destruct (String.eqb (platform w) "win32"); cbn [negb].
    - cbn. split; [|split; [exact Hld | discriminate]].
      exists before, []. now rewrite Hbefore, !app_nil_r.
    - rewrite setOrAppendEnvVar_appended. cbn [trace env]. rewrite Hpkg.
      split; [|split].
      + exists before, []. rewrite Hbefore, app_nil_r, <- !app_assoc.
        reflexivity.
      + intros Hlinux. rewrite lookup_insert_ne by discriminate.
        now apply Hld.
      + intros _. apply lookup_insert_eq. }
  intros _. apply inv_triple. walk. all: librariesPublished_step.
Qed.

Lemma publishQt_published :
  Inputs.isInstallQtBinaries i = true ->
  Inputs.setEnv i = true ->
  triple (asFound w) (publishQt w i)
    (fun _ s => exists qtPath, librariesPublished w qtPath s)
    (fun _ => True).
Proof.
  intros Hqt Hset. unfold publishQt. rewrite Hqt, Hset.
  eapply triple_bind with (Q := fun _ => asFound w).
  { apply inv_weaken; [|obvious]. walk. }
  intros qtPath.
  eapply triple_bind
    with (Q := fun _ s => asFound w s
                          /\ exists before,
                               trace s = before ++ [SetOutput "qtPath" qtPath]).
  { apply triple_emit. intros s Hs. split; [exact Hs|]. now exists (trace s). }
  intros _.
  eapply triple_consequence;
    [apply (publishEnvironment_published qtPath) | obvious
     | intros ? s Hs; now exists qtPath | obvious].
Qed.

Lemma runWith_published :
  Inputs.isInstallQtBinaries i = true ->
  Inputs.setEnv i = true ->
  triple (asFound w) (runWith w i)
    (fun _ s => exists qtPath, librariesPublished w qtPath s)
    (fun _ => True).
Proof.
  intros Hqt Hset. unfold runWith.
  do 5 (eapply triple_bind with (Q := fun _ => asFound w);
        [ apply inv_weaken; [|obvious]; walk; asFound_step
        | intros ? ]).
  now apply publishQt_published.
Qed.

End Published.

(** C8: [setOrAppendEnvVar] publishes the value the variable already
    has, a colon and the new path when the variable has a (non-empty)
    value, and exactly the new path when it has none.  In a run, every
    export of LD_LIBRARY_PATH or PKG_CONFIG_PATH is that value, computed
    from what the variable held when the process started and from the
    lib (respectively lib/pkgconfig) directory of a located Qt.  And the
    export takes place: a run that returns with [setEnv] on and the Qt
    binaries requested has announced a Qt path and, right after it,
    exported LD_LIBRARY_PATH on Linux and PKG_CONFIG_PATH off Windows
    with the appended values for that path, which the two variables
    hold when the run ends. *)
Theorem library_paths_appended (w : World) :
  (forall name value s,
     exists published,
       setOrAppendEnvVar name value s
       = ({| trace := trace s ++ [ExportVariable name published];
             env := <[name := published]> (env s) |}, Ok tt)
       /\ (forall old, env s !! name = Some old -> old <> "" ->
             published = old +:+ ":" +:+ value)
       /\ (env s !! name = None -> published = value))
  /\ (forall name v,
        name = "LD_LIBRARY_PATH" \/ name = "PKG_CONFIG_PATH" ->
        In (ExportVariable name v) (trace (main w)) ->
        exists qtPath,
          (forall old, processEnv w !! name = Some old -> old <> "" ->
             v = old +:+ ":" +:+ libraryPath w name qtPath)
          /\ (processEnv w !! name = None -> v = libraryPath w name qtPath))
  /\ (forall i s,
        Inputs.constructor w = Ok i ->
        run w (initial w) = (s, Ok tt) ->
        Inputs.setEnv i = true ->
        Inputs.isInstallQtBinaries i = true ->
        exists qtPath published,
          (exists before later,
             trace s = before ++ SetOutput "qtPath" qtPath
                                 :: published ++ later)
          /\ published
             = (if String.eqb (platform w) "linux"
                then [ExportVariable "LD_LIBRARY_PATH"
                        (appended (processEnv w !! "LD_LIBRARY_PATH")
                                  (libraryPath w "LD_LIBRARY_PATH" qtPath))]
                else [])
               ++ (if negb (String.eqb (platform w) "win32")
                   then [ExportVariable "PKG_CONFIG_PATH"
                           (appended (processEnv w !! "PKG_CONFIG_PATH")
                                     (libraryPath w "PKG_CONFIG_PATH" qtPath))]
                   else [])
          /\ (platform w = "linux" ->
              env s !! "LD_LIBRARY_PATH"
              = Some (appended (processEnv w !! "LD_LIBRARY_PATH")
                               (libraryPath w "LD_LIBRARY_PATH" qtPath)))
          /\ (platform w <> "win32" ->
              env s !! "PKG_CONFIG_PATH"
              = Some (appended (processEnv w !! "PKG_CONFIG_PATH")
                               (libraryPath w "PKG_CONFIG_PATH" qtPath))))
  /\ (forall old value,
        (old <> "" -> appended (Some old) value = old +:+ ":" +:+ value)
        /\ appended (Some "") value = value
        /\ appended None value = value).
Proof.
  split; [|split; [|split]].
  - intros name value s. exists (appended (env s !! name) value).
    split; [apply setOrAppendEnvVar_appended|]. split.
    + intros old -> Hold. now apply appended_existing.
    + now intros ->.
  - intros name v Hname Hin.
    assert (Hrun : appendedOnly w name (fst (run w (initial w)))).
    { assert (Hinit : untouched w name (initial w))
        by (split; [reflexivity | constructor]).
      unfold run, bind, liftR.
      destruct (Inputs.constructor w) as [i|e];
        [|now apply untouched_appendedOnly].
      pose proof (runWith_appended w i name Hname (initial w) Hinit) as H.
      now destruct (runWith w i (initial w)) as [s' [[]|err]]. }
    destruct (main_events w _ Hin) as [Hev | [(err & Herr) | (code & Hcode)]];
      [|discriminate Herr | discriminate Hcode].
    destruct (always_In _ _ _ Hrun Hev v eq_refl) as (qtPath & ->).
    exists qtPath. split.
    + intros old -> Hold. now apply appended_existing.
    + now intros ->.
  - intros i s Hnew Hrun Hset Hqt.
    assert (Hinit : asFound w (initial w)) by (split; reflexivity).
    destruct (run_completed w i _ _ _ s (Ok tt) Hnew
                (runWith_published w i Hqt Hset) Hinit Hrun)
      as (qtPath & Htrace & Hld & Hpkg).
    exists qtPath, (libraryExports w (processEnv w) qtPath).
    split; [exact Htrace|]. split; [reflexivity|]. split.
    + intros Hlinux. apply Hld. now apply String.eqb_eq.
    + intros Hwindows. apply Hpkg. now apply String.eqb_neq.
  - intros old value. split; [apply appended_existing|]. now split.
Qed.

(** A Linux runner whose LD_LIBRARY_PATH is already set and whose
    PKG_CONFIG_PATH is not. *)
Definition libraryWorld : World :=
  runner [ ("target", "desktop"); ("wasm", "none"); ("version", "6.8.0");
           ("set-env", "true") ]
         [ ("RUNNER_WORKSPACE", "/home/runner/work/app");
           ("LD_LIBRARY_PATH", "/opt/lib") ]
         "linux".

Lemma library_paths_appended_witness :
  exists qtPath before later,
    trace (fst (run libraryWorld (initial libraryWorld)))
    = before
      ++ [ SetOutput "qtPath" qtPath;
           ExportVariable "LD_LIBRARY_PATH"
             ("/opt/lib" +:+ ":" +:+ pathResolve libraryWorld [qtPath; "lib"]);
           ExportVariable "PKG_CONFIG_PATH"
             (pathResolve libraryWorld [qtPath; "lib"; "pkgconfig"]) ]
      ++ later.
Proof.
  destruct (library_paths_appended libraryWorld) as (_ & _ & Hrun & _).
  destruct (Hrun (resolved libraryWorld)
              (fst (run libraryWorld (initial libraryWorld))))
    as (qtPath & published & (before & later & Htrace) & Hpublished & _).
  - vm_compute. reflexivity.
  - vm_compute. reflexivity.
  - vm_compute. reflexivity.
  - vm_compute. reflexivity.
  - exists qtPath, before, later. rewrite Htrace, Hpublished. reflexivity.
Defined.

Example library_run_exports :
  filter (fun e => exports "LD_LIBRARY_PATH" e || exports "PKG_CONFIG_PATH" e)
         (trace (main libraryWorld))
  = [ ExportVariable "LD_LIBRARY_PATH"
        "/opt/lib:/home/runner/work/app/Qt/[0-9]*/*/bin/qmake*/../../lib";
      ExportVariable "PKG_CONFIG_PATH"
        "/home/runner/work/app/Qt/[0-9]*/*/bin/qmake*/../../lib/pkgconfig" ].
Proof. vm_compute. reflexivity. Qed.

(* ===================================================================== *)
(** ** Whether the Qt binaries are installed *)
(* ===================================================================== *)









(** *** Assertions that survive every further effect *)

Definition stable (I : RunState -> Prop) : Prop :=
  forall s e env', I s -> I {| trace := trace s ++ [e]; env := env' |}.

(** Some event performed so far satisfies [p]. *)
Definition happened (p : event -> bool) (s : RunState) : Prop :=
  existsb p (trace s) = true.

Lemma happened_stable (p : event -> bool) : stable (happened p).
Proof.
  intros s e env' H. unfold happened in *. cbn.
  now rewrite existsb_app, H.
Qed.

Lemma happened_now (p : event -> bool) (e : event) (s : RunState) :
  p e = true -> happened p (push e s).
Proof.
  intros H. unfold happened, push. cbn.
  rewrite existsb_app. cbn. rewrite H. apply orb_true_r.
Qed.

Lemma happened_In (p : event -> bool) (s : RunState) :
  happened p s <-> exists e, In e (trace s) /\ p e = true.
Proof. apply existsb_exists. Qed.

Lemma stable_or (I J : RunState -> Prop) :
  stable I -> stable J -> stable (fun s => I s \/ J s).
Proof. intros HI HJ s e env' [H | H]; [left | right]; auto. Qed.

Lemma stable_and (I J : RunState -> Prop) :
  stable I -> stable J -> stable (fun s => I s /\ J s).
Proof. intros HI HJ s e env' [H1 H2]. split; auto. Qed.

Lemma stable_imp (c : Prop) (I : RunState -> Prop) :
  stable I -> stable (fun s => c -> I s).
Proof. intros HI s e env' H Hc. auto. Qed.

Lemma stable_occurs (e : event) : stable (fun s => In e (trace s)).
Proof. intros s e' env' H. cbn. apply in_app_iff. now left. Qed.

Ltac stays H :=
  walk; intros;
  first [ apply H; assumption | apply (H _ _ (env _)); assumption ].

Section Stable.

Variables (w : World) (i : Inputs.t) (I : RunState -> Prop).
Hypothesis I_stable : stable I.

Lemma stable_installDependencies : inv I (installDependencies w i).
Proof. stays I_stable. Qed.

Lemma stable_install : inv I (install w i).
Proof. stays I_stable. Qed.



Lemma stable_saveToCache (hit : bool) : inv I (saveToCache w i hit).
Proof. stays I_stable. Qed.

Lemma stable_publishTools : inv I (publishTools w i).
Proof. stays I_stable. Qed.

Lemma stable_publishQt : inv I (publishQt w i).
Proof. stays I_stable. Qed.



End Stable.

(** *** What a completed run has done *)



Lemma triple_start {A} (P : RunState -> Prop) (m : Run A)
    (Q : A -> RunState -> Prop) (E : RunState -> Prop) :
  triple (fun _ => True) m Q E -> triple P m Q E.
Proof.
  intros H. eapply triple_consequence;
    [exact H | intros s _; exact Logic.I | intros a s Hq; exact Hq
     | intros s He; exact He].
Qed.

(** The report of a cache hit. *)
Definition isHitInfo (e : event) : bool :=
  match e with
  | Info msg => JS.startsWith "Automatic cache hit with key " msg
  | _ => false
  end.

Definition cacheHit (s : RunState) : Prop := happened isHitInfo s.

Lemma restoreFromCache_reports (w : World) (i : Inputs.t) :
  triple (fun _ => True) (restoreFromCache w i)
    (fun hit s => hit = true -> cacheHit s) (fun _ => True).
Proof.
  unfold restoreFromCache.
  destruct (Inputs.cache i); [|apply triple_ret; discriminate].
  eapply triple_bind; [apply triple_any|]. intros [key|]; cbn beta iota.
  - destruct (JS.truthy key).
    + eapply triple_bind with (Q := fun _ => cacheHit).
      * apply triple_emit. intros s _. apply happened_now.
        exact (startsWith_app _ _).
      * intros ?. apply triple_ret. obvious.
    + eapply triple_bind; [apply triple_any|].
      intros ?. apply triple_ret. discriminate.
  - eapply triple_bind; [apply triple_any|].
    intros ?. apply triple_ret. discriminate.
Qed.

Section Completed.

Variables (w : World) (i : Inputs.t).






Definition notHitInfo (e : event) : Prop := isHitInfo e = false.




Lemma install_notHitInfo : inv (always notHitInfo) (install w i).
Proof.
  walk. all: intros; apply always_push_env; [reflexivity | assumption].
Qed.

Lemma afterInstall_notHitInfo (hit : bool) :
  inv (always notHitInfo)
    (saveToCache w i hit ;; publishTools w i ;; publishQt w i)%run.
Proof.
  walk. all: intros; apply always_push_env; [reflexivity | assumption].
Qed.



End Completed.

Lemma always_not_happened (p : event -> bool) (s : RunState) :
  always (fun e => p e = false) s -> ~ happened p s.
Proof.
  intros Hs Hp. apply happened_In in Hp as (e & He & Hpe).
  pose proof (always_In _ _ _ Hs He) as Hfalse. cbn in Hfalse. congruence.
Qed.


(** A Linux runner whose cache already holds the key. *)
Definition cacheHitWorld : World :=
  cachedRunner [ ("target", "desktop"); ("wasm", "none");
                 ("version", "6.8.0"); ("cache", "true") ]
               workspace "linux".




(* ===================================================================== *)
(** ** List inputs made of white space, and doubled spaces *)
(* ===================================================================== *)

Fixpoint onlyBlank (s : string) : bool :=
  match s with
  | EmptyString => true
  | String a s' => JS.isSpace a && onlyBlank s'
  end.

Lemma trim_onlyBlank (s : string) : onlyBlank s = true -> JS.trim s = "".
Proof.
  unfold JS.trim. induction s as [|a s IH]; [reflexivity|].
  cbn [onlyBlank JS.trimStart]. intros H.
  apply andb_prop in H as [-> Hs]. now apply IH.
Qed.

Lemma getInput_blank (w : World) (name : string) :
  onlyBlank (rawInput w name) = true -> getInput w name = "".
Proof. apply trim_onlyBlank. Qed.

(** Two separators in a row leave an empty piece after the first one. *)
Lemma split_doubled (c : ascii) (s : string) :
  JS.includes (String c (String c "")) s = true ->
  In "" (tl (JS.split c s)).
Proof.
  induction s as [|a s IH]; [discriminate|].
  cbn [JS.includes JS.startsWith JS.split]. intros H.
  apply orb_true_iff in H as [H | H].
  - apply andb_prop in H as [Ha Hrest].
    apply Ascii.eqb_eq in Ha as <-. rewrite Ascii.eqb_refl.
    destruct s as [|b s]; [discriminate|].
    apply andb_prop in Hrest as [Hb _]. apply Ascii.eqb_eq in Hb as <-.
    cbn [tl JS.split]. rewrite Ascii.eqb_refl. now left.
  - specialize (IH H). destruct (Ascii.eqb a c).
    + cbn [tl]. destruct (JS.split c s) as [|p ps]; [destruct IH|].
      now right.
    + destruct (JS.split c s) as [|p ps]; [destruct IH | exact IH].
Qed.

Definition startsWithChar (c : ascii) (s : string) : bool :=
  match s with
  | String a _ => Ascii.eqb a c
  | EmptyString => false
  end.

Fixpoint endsWithChar (c : ascii) (s : string) : bool :=
  match s with
  | EmptyString => false
  | String a EmptyString => Ascii.eqb a c
  | String _ s' => endsWithChar c s'
  end.

(** An empty piece after the first one: the string ends with the
    separator or has two in a row. *)
Lemma split_empty_later (c : ascii) (s : string) :
  In "" (tl (JS.split c s)) ->
  endsWithChar c s = true
  \/ JS.includes (String c (String c "")) s = true.
Proof.
  induction s as [|a s IH]; [intros []|].
  cbn [JS.split]. destruct (Ascii.eqb a c) eqn:Hac.
  - cbn [tl]. intros Hin. apply Ascii.eqb_eq in Hac as ->.
    destruct s as [|b s].
    + left. cbn. apply Ascii.eqb_refl.
    + cbn [JS.split] in Hin. destruct (Ascii.eqb b c) eqn:Hbc.
      * right. apply Ascii.eqb_eq in Hbc as ->.
        cbn [JS.includes JS.startsWith]. now rewrite !Ascii.eqb_refl.
      * assert (Hlater : In "" (tl (JS.split c (String b s)))).
        { cbn [JS.split]. rewrite Hbc.
          destruct (JS.split c s) as [|p ps]; [destruct Hin as [H | []];
                                               discriminate H|].
          destruct Hin as [H | Hin]; [discriminate H | exact Hin]. }
        destruct (IH Hlater) as [Hends | Hdouble].
        -- left. exact Hends.
        -- right. cbn [JS.includes]. cbn [JS.includes] in Hdouble.
           rewrite Hdouble. apply orb_true_r.
  - intros Hin.
    assert (Hlater : In "" (tl (JS.split c s)))
      by (destruct (JS.split c s) as [|p ps]; [destruct Hin | exact Hin]).
    destruct (IH Hlater) as [Hends | Hdouble].
    + left. destruct s as [|b s]; [discriminate Hends | exact Hends].
    + right. cbn [JS.includes]. rewrite Hdouble. apply orb_true_r.
Qed.

Lemma split_empty_piece (c : ascii) (s : string) :
  In "" (JS.split c s) ->
  s = "" \/ startsWithChar c s = true \/ endsWithChar c s = true
  \/ JS.includes (String c (String c "")) s = true.
Proof.
  destruct s as [|a s]; [now left|]. right.
  cbn [startsWithChar]. destruct (Ascii.eqb a c) eqn:Hac; [now left|].
  right. apply split_empty_later. revert H. cbn [JS.split]. rewrite Hac.
  destruct (JS.split c s) as [|p ps]; intros [H | H];
    first [discriminate H | destruct H | exact H].
Qed.

Lemma trimEnd_keeps_head (a : ascii) (s : string) :
  JS.isSpace a = false -> exists t, JS.trimEnd (String a s) = String a t.
Proof.
  intros Ha. cbn [JS.trimEnd]. rewrite Ha.
  destruct (JS.trimEnd s); now eexists.
Qed.

Lemma trim_no_leading_space (s : string) :
  startsWithChar " " (JS.trim s) = false.
Proof.
  unfold JS.trim. induction s as [|a s IH]; [reflexivity|].
  cbn [JS.trimStart]. destruct (JS.isSpace a) eqn:Ha; [exact IH|].
  destruct (trimEnd_keeps_head a s Ha) as (t & ->). cbn [startsWithChar].
  destruct (Ascii.eqb_spec a " ") as [->|]; [discriminate Ha | reflexivity].
Qed.

Lemma trimEnd_no_trailing_space (s : string) :
  endsWithChar " " (JS.trimEnd s) = false.
Proof.
  induction s as [|a s IH]; [reflexivity|]. cbn [JS.trimEnd].
  destruct (JS.trimEnd s) as [|b t].
  - destruct (JS.isSpace a) eqn:Ha; [reflexivity|]. cbn [endsWithChar].
    destruct (Ascii.eqb_spec a " ") as [->|]; [discriminate Ha | reflexivity].
  - exact IH.
Qed.

(** A list input holds an empty string exactly when the value has two
    spaces in a row. *)
Lemma getStringArrayInput_doubled (w : World) (name : string) :
  In "" (Inputs.getStringArrayInput w name)
  <-> JS.includes "  " (getInput w name) = true.
Proof.
  unfold Inputs.getStringArrayInput. split.
  - intros Hin.
    pose proof (trim_no_leading_space (rawInput w name)) as Hstart.
    pose proof (trimEnd_no_trailing_space (JS.trimStart (rawInput w name)))
      as Hend.
    fold (JS.trim (rawInput w name)) in Hend.
    fold (getInput w name) in Hstart, Hend.
    destruct (getInput w name) as [|a s] eqn:Hraw; [destruct Hin|].
    cbn [JS.truthy] in Hin.
    apply split_empty_piece in Hin as [H | [H | [H | H]]];
      [discriminate H | congruence | congruence | exact H].
  - intros H.
    destruct (getInput w name) as [|a s] eqn:Hraw; [discriminate|].
    cbn [JS.truthy]. apply (split_doubled " ") in H.
    destruct (JS.split " " (String a s)) as [|p ps]; [destruct H | now right].
Qed.

Lemma triple_fst {A} (m : Run A) (Q : RunState -> Prop) :
  triple (fun _ => True) m (fun _ => Q) Q -> forall s, Q (fst (m s)).
Proof.
  intros H s. specialize (H s Logic.I). now destruct (m s) as [s' [a|e]].
Qed.

Section Tools.

Variables (w : World) (i : Inputs.t).

(** The invocation for one tool, and the export of the tools directory. *)
Definition installToolEvent (tool : string) : event :=
  Exec (pythonCommand w "aqt install-tool" (toolArgs i tool)).

Definition toolsExportEvent : event :=
  ExportVariable "IQTA_TOOLS" (pathResolve w [Inputs.dir i; "Tools"]).

(** When the tools loop returns, every tool has had its invocation. *)
Lemma installTools_each (tool : string) :
  In tool (Inputs.tools i) ->
  triple (fun _ => True) (installTools w i)
    (fun _ s => In (installToolEvent tool) (trace s)) (fun _ => True).
Proof.
  unfold installTools. induction (Inputs.tools i) as [|x xs IH];
    intros Hin; [destruct Hin|].
  cbn [forEach]. destruct Hin as [-> | Hin].
  - eapply triple_bind
      with (Q := fun _ s => In (installToolEvent tool) (trace s)).
    + unfold execPython, exec. apply triple_call.
      * intros s ? _ _. cbn. apply in_app_iff. right. now left.
      * intros s _. exact Logic.I.
    + intros ?. apply inv_weaken; [|obvious].
      walk. intros. now apply stable_occurs.
  - eapply triple_bind; [apply triple_any|]. intros ?. now apply IH.
Qed.

Lemma filterM_dirExists_returns (dirs : list string) :
  triple (fun _ => True) (filterM (dirExists w) dirs)
    (fun _ _ => True) (fun _ => False).
Proof.
  induction dirs as [|d dirs IH]; cbn [filterM].
  - now apply triple_ret.
  - eapply triple_bind with (Q := fun _ _ => True).
    + intros s _. exact Logic.I.
    + intros keep. eapply triple_bind; [exact IH|].
      intros ?. now apply triple_ret.
Qed.

Lemma forEach_addPath_returns (paths : list string) :
  triple (fun _ => True) (forEach paths (addPath w))
    (fun _ _ => True) (fun _ => False).
Proof.
  induction paths as [|p paths IH]; cbn [forEach].
  - now apply triple_ret.
  - eapply triple_bind with (Q := fun _ _ => True); [|intros ?; exact IH].
    intros s _. exact Logic.I.
Qed.

(** The export of IQTA_TOOLS is reached: nothing before it can throw. *)
Lemma publishTools_exports :
  Inputs.tools i <> [] ->
  Inputs.setEnv i = true ->
  triple (fun _ => True) (publishTools w i)
    (fun _ s => In toolsExportEvent (trace s)) (fun _ => False).
Proof.
  intros Htools Hset. unfold publishTools.
  destruct (Inputs.tools i) as [|tool rest]; [congruence|].
  rewrite Hset. cbn [nonEmpty andb].
  eapply triple_bind with (Q := fun _ _ => True).
  - destruct (Inputs.addToolsToPath i); cbn [andb]; [|now apply triple_ret].
    eapply triple_bind with (Q := fun _ _ => True).
    + unfold toolsPaths.
      eapply triple_bind; [apply filterM_dirExists_returns|]. intros ?.
      eapply triple_bind with (Q := fun _ _ => True);
        [intros s _; exact Logic.I | intros ?; now apply triple_ret].
    + intros paths. apply forEach_addPath_returns.
  - intros ? s _. cbn. apply in_app_iff. right. now left.
Qed.

(** In a run that returns with tools requested, IQTA_TOOLS has been
    exported if [setEnv] holds, and each tool has been installed unless
    the cache was hit. *)
Lemma runWith_completed_tools (tool : string) :
  In tool (Inputs.tools i) ->
  triple (fun _ => True) (runWith w i)
    (fun _ s => (Inputs.setEnv i = true -> In toolsExportEvent (trace s))
                /\ (cacheHit s \/ In (installToolEvent tool) (trace s)))
    (fun _ => True).
Proof.
  intros Htools. unfold runWith.
  set (J := fun s => cacheHit s \/ In (installToolEvent tool) (trace s)).
  assert (HJ : stable J)
    by (apply stable_or; [apply happened_stable | apply stable_occurs]).
  eapply triple_bind; [apply triple_any|]. intros ?.
  eapply triple_bind; [apply triple_start, restoreFromCache_reports|].
  intros hit.
  eapply triple_bind with (Q := fun _ => J).
  { destruct hit; cbn [negb].
    - apply triple_ret. intros s Hs. left. now apply Hs.
    - unfold install.
      eapply triple_bind; [apply triple_any|]. intros ?.
      eapply triple_bind; [apply triple_any|]. intros ?. cbv zeta.
      eapply triple_bind; [apply triple_any|]. intros ?.
      eapply triple_bind; [apply triple_any|]. intros ?.
      eapply triple_consequence;
        [apply (installTools_each tool Htools) | obvious
         | intros ? s Hs; now right | obvious]. }
  intros ?.
  eapply triple_bind;
    [apply inv_weaken; [apply stable_saveToCache, HJ | obvious]|].
  intros ?.
  eapply triple_bind
    with (Q := fun _ s => (Inputs.setEnv i = true ->
                           In toolsExportEvent (trace s)) /\ J s).
  { intros s Hs. destruct (Inputs.setEnv i) eqn:Hset.
    - assert (Hne : Inputs.tools i <> [])
        by (intros Hnil; rewrite Hnil in Htools; destruct Htools).
      pose proof (publishTools_exports Hne Hset s Logic.I) as Hexport.
      pose proof (stable_publishTools w i J HJ s Hs) as Hkeep.
      destruct (publishTools w i s) as [s' [[]|err]]; [|destruct Hexport].
      split; [intros _; exact Hexport | exact Hkeep].
    - pose proof (stable_publishTools w i J HJ s Hs) as Hkeep.
      destruct (publishTools w i s) as [s' [[]|err]]; [|exact Logic.I].
      split; [discriminate | exact Hkeep]. }
  intros ?.
  apply inv_weaken; [|obvious].
  apply stable_publishQt. apply stable_and; [|exact HJ].
  apply stable_imp, stable_occurs.
Qed.

End Tools.

(** A single space as the [tools] input, with [set-env] on. *)
Definition blankToolsWorld : World :=
  runner [ ("target", "desktop"); ("wasm", "none"); ("version", "6.8.0");
           ("tools", " "); ("set-env", "true") ]
         workspace "linux".

(** C10, as stated, fails: the toolkit trims the value it returns, so a
    [tools] input of one space reaches the action as the empty string.
    The tools sequence is empty, no install-tool invocation is issued
    and IQTA_TOOLS is not exported, although [setEnv] is true. *)
Lemma blank_tools_input_is_dropped :
  rawInput blankToolsWorld "tools" = " "
  /\ Inputs.getStringArrayInput blankToolsWorld "tools" = []
  /\ exists i,
       Inputs.constructor blankToolsWorld = Ok i
       /\ Inputs.setEnv i = true
       /\ Inputs.tools i = []
       /\ snd (run blankToolsWorld (initial blankToolsWorld)) = Ok tt
       /\ Forall (fun e => invokes blankToolsWorld "aqt install-tool" e = false
                           /\ exports "IQTA_TOOLS" e = false)
                 (trace (main blankToolsWorld)).
Proof.
  split; [reflexivity|]. split; [reflexivity|].
  exists (resolved blankToolsWorld).
  repeat split; try (vm_compute; reflexivity).
  vm_compute. repeat constructor.
Qed.

(** C10, amended.  A list input made of nothing but white space resolves
    to the empty sequence, as the empty input does: for [tools] no
    install-tool invocation is issued and IQTA_TOOLS is not exported.
    Empty strings come from doubled spaces inside the value, and from
    nothing else: an input resolves to a sequence that holds an empty
    string exactly when the value the toolkit returns has two spaces in
    a row.  For [tools] the tools directory is then exported as
    IQTA_TOOLS when [setEnv] is true, and in a run that completes the
    export is among its effects, and so is an install-tool invocation
    with an empty tool identifier unless a cache hit was reported. *)
Theorem blank_list_input (w : World) :
  (forall name,
     onlyBlank (rawInput w name) = true ->
     getInput w name = "" /\ Inputs.getStringArrayInput w name = [])
  /\ (forall i,
        Inputs.constructor w = Ok i ->
        onlyBlank (rawInput w "tools") = true ->
        Inputs.tools i = []
        /\ (forall e, In e (trace (main w)) ->
              invokes w "aqt install-tool" e = false
              /\ exports "IQTA_TOOLS" e = false))
  /\ (forall name,
        In "" (Inputs.getStringArrayInput w name)
        <-> JS.includes "  " (getInput w name) = true)
  /\ (forall i,
        Inputs.constructor w = Ok i ->
        JS.includes "  " (getInput w "tools") = true ->
        In "" (Inputs.tools i)
        /\ (Inputs.setEnv i = true ->
            forall s, exists s',
              publishTools w i s = (s', Ok tt)
              /\ In (toolsExportEvent w i) (trace s'))
        /\ (forall s, run w (initial w) = (s, Ok tt) ->
              (Inputs.setEnv i = true -> In (toolsExportEvent w i) (trace s))
              /\ (~ cacheHit s -> In (installToolEvent w i "") (trace s)))).
Proof.
  assert (Hblank : forall name,
            onlyBlank (rawInput w name) = true ->
            getInput w name = "" /\ Inputs.getStringArrayInput w name = []).
  { intros name H. apply getInput_blank in H. split; [exact H|].
    now apply getStringArrayInput_empty. }
  split; [exact Hblank|]. split; [|split].
  - intros i Hnew Hraw.
    assert (Htools : Inputs.tools i = []).
    { rewrite (constructor_tools w i Hnew).
      destruct (Hblank "tools" Hraw) as (_ & ->). reflexivity. }
    split; [exact Htools|].
    apply (always_main (noToolEffect w)).
    + apply inv_run. intros i' Hnew'. apply runWith_noToolEffect.
      congruence.
    + intros err. now split.
    + intros code. now split.
  - intros name. apply getStringArrayInput_doubled.
  - intros i Hnew Hdoubled.
    assert (Htools : In "" (Inputs.tools i)).
    { rewrite (constructor_tools w i Hnew).
      change "" with (JS.replaceAll "," " " "") at 1.
      apply in_map. now apply getStringArrayInput_doubled. }
    split; [exact Htools|]. split.
    + intros Hset s.
      assert (Hnonempty : Inputs.tools i <> [])
        by (intros Hnil; rewrite Hnil in Htools; destruct Htools).
      pose proof (publishTools_exports w i Hnonempty Hset s Logic.I) as H.
      destruct (publishTools w i s) as [s' [[]|err]]; [|destruct H].
      now exists s'.
    + intros s Hrun.
      pose proof (run_completed w i _ _ _ s (Ok tt) Hnew
                    (runWith_completed_tools w i "" Htools)
                    Logic.I Hrun) as (Hexport & Hinstall).
      split; [exact Hexport | tauto].
Qed.

(** Two spaces between two tools, with [set-env] on. *)
Definition doubledSpaceWorld : World :=
  runner [ ("target", "desktop"); ("wasm", "none"); ("version", "6.8.0");
           ("tools", "tools_ninja  tools_cmake"); ("set-env", "true") ]
         workspace "linux".

Lemma blank_list_input_witness :
  Inputs.tools (resolved blankToolsWorld) = []
  /\ In "" (Inputs.tools (resolved doubledSpaceWorld))
  /\ In (toolsExportEvent doubledSpaceWorld (resolved doubledSpaceWorld))
        (trace (fst (run doubledSpaceWorld (initial doubledSpaceWorld))))
  /\ In (installToolEvent doubledSpaceWorld (resolved doubledSpaceWorld) "")
        (trace (fst (run doubledSpaceWorld (initial doubledSpaceWorld)))).
Proof.
  split.
  - destruct (blank_list_input blankToolsWorld) as (_ & H & _).
    destruct (H (resolved blankToolsWorld)) as (Htools & _);
      [vm_compute; reflexivity | vm_compute; reflexivity | exact Htools].
  - destruct (blank_list_input doubledSpaceWorld) as (_ & _ & _ & H).
    destruct (H (resolved doubledSpaceWorld)) as (Htools & _ & Hrun).
    + vm_compute. reflexivity.
    + vm_compute. reflexivity.
    + split; [exact Htools|].
      destruct (Hrun (fst (run doubledSpaceWorld (initial doubledSpaceWorld))))
        as (Hexport & Hinstall); [vm_compute; reflexivity|].
      split.
      * apply Hexport. vm_compute. reflexivity.
      * apply Hinstall. unfold cacheHit, happened. vm_compute. discriminate.
Defined.

Example doubled_space_invocations :
  filter (invokes doubledSpaceWorld "aqt install-tool")
         (trace (main doubledSpaceWorld))
  = [ Exec "python3 -m aqt install-tool linux desktop tools_ninja --outputdir /home/runner/work/app/Qt";
      Exec "python3 -m aqt install-tool linux desktop  --outputdir /home/runner/work/app/Qt";
      Exec "python3 -m aqt install-tool linux desktop tools_cmake --outputdir /home/runner/work/app/Qt" ].
Proof. vm_compute. reflexivity. Qed.

(* ===================================================================== *)
(** * Further properties of the action *)
(* ===================================================================== *)

(** ** List inputs: splitting and joining *)

Fixpoint hasChar (c : ascii) (s : string) : bool :=
  match s with
  | EmptyString => false
  | String a s' => Ascii.eqb a c || hasChar c s'
  end.

Lemma hasChar_app (c : ascii) (s t : string) :
  hasChar c (s +:+ t) = hasChar c s || hasChar c t.
Proof.
  induction s as [|a s IH]; [reflexivity|].
  rewrite app_cons. cbn [hasChar]. now rewrite IH, orb_assoc.
Qed.

Lemma split_nonempty (c : ascii) (s : string) : JS.split c s <> [].
Proof.
  destruct s as [|a s]; cbn [JS.split]; [discriminate|].
  destruct (Ascii.eqb a c); [discriminate|].
  destruct (JS.split c s); discriminate.
Qed.

Lemma join_cons_char (sep : string) (a : ascii) (p : string)
    (ps : list string) :
  JS.join sep (String a p :: ps) = String a (JS.join sep (p :: ps)).
Proof. destruct ps; reflexivity. Qed.

Lemma join_split (c : ascii) (s : string) :
  JS.join (String c "") (JS.split c s) = s.
Proof.
  induction s as [|a s IH]; [reflexivity|]. cbn [JS.split].
  destruct (Ascii.eqb_spec a c) as [->|Hne].
  - pose proof (split_nonempty c s) as Hne.
    destruct (JS.split c s) as [|p ps]; [congruence|].
    change (JS.join (String c "") ("" :: p :: ps))
      with ("" +:+ String c "" +:+ JS.join (String c "") (p :: ps)).
    now rewrite IH.
  - pose proof (split_nonempty c s) as Hsplit.
    destruct (JS.split c s) as [|p ps]; [congruence|].
    now rewrite join_cons_char, IH.
Qed.

Lemma split_pieces (c : ascii) (s : string) :
  Forall (fun p => hasChar c p = false) (JS.split c s).
Proof.
  induction s as [|a s IH]; [now repeat constructor|]. cbn [JS.split].
  destruct (Ascii.eqb a c) eqn:Hac; [now constructor|].
  destruct (JS.split c s) as [|p ps].
  { constructor; [|constructor]. cbn [hasChar]. now rewrite Hac. }
  inversion IH as [|p' ps' Hp Hps]; subst. constructor; [|exact Hps].
  cbn [hasChar]. now rewrite Hac, Hp.
Qed.

Fixpoint countChar (c : ascii) (s : string) : nat :=
  match s with
  | EmptyString => 0
  | String a s' => (if Ascii.eqb a c then 1 else 0) + countChar c s'
  end.

Lemma split_length (c : ascii) (s : string) :
  length (JS.split c s) = S (countChar c s).
Proof.
  induction s as [|a s IH]; [reflexivity|]. cbn [JS.split countChar].
  destruct (Ascii.eqb a c); cbn [length]; [now rewrite IH|].
  pose proof (split_nonempty c s) as Hne.
  destruct (JS.split c s) as [|p ps]; [congruence|]. exact IH.
Qed.


(** X1: a list input is handed on as it was written.  Joining the
    resolved sequence with single spaces gives back the raw input, the
    empty input included; no element contains a space; the sequence is
    empty only for the empty input, and otherwise has one element more
    than the input has spaces. *)
Theorem list_input_round_trip (w : World) (name : string) :
  JS.join " " (Inputs.getStringArrayInput w name) = getInput w name
  /\ Forall (fun p => hasChar " " p = false) (Inputs.getStringArrayInput w name)
  /\ (Inputs.getStringArrayInput w name = [] <-> getInput w name = "")
  /\ (getInput w name <> "" ->
      length (Inputs.getStringArrayInput w name)
      = S (countChar " " (getInput w name))).
Proof.
  unfold Inputs.getStringArrayInput.
  destruct (getInput w name) as [|a s] eqn:Hraw; cbn [JS.truthy].
  - repeat split; try constructor; congruence.
  - rewrite <- Hraw. split; [apply (join_split " ")|].
    split; [apply split_pieces|]. split.
    + split; [intros H; now apply split_nonempty in H | rewrite Hraw; discriminate].
    + intros _. apply split_length.
Qed.

Lemma replaceAll_app (c : ascii) (by_ s t : string) :
  JS.replaceAll c by_ (s +:+ t)
  = JS.replaceAll c by_ s +:+ JS.replaceAll c by_ t.
Proof.
  induction s as [|a s IH]; [reflexivity|].
  rewrite app_cons. cbn [JS.replaceAll].
  destruct (Ascii.eqb a c); rewrite IH;
    [now rewrite app_assoc_string | now rewrite app_cons].
Qed.

Lemma replaceAll_clean (c : ascii) (by_ s : string) :
  hasChar c by_ = false -> hasChar c (JS.replaceAll c by_ s) = false.
Proof.
  intros Hby. induction s as [|a s IH]; [reflexivity|]. cbn [JS.replaceAll].
  destruct (Ascii.eqb a c) eqn:Hac.
  - now rewrite hasChar_app, Hby, IH.
  - cbn [hasChar]. now rewrite Hac, IH.
Qed.



Definition commaToolsWorld : World :=
  runner [ ("target", "desktop"); ("wasm", "none"); ("version", "6.8.0");
           ("tools", "tools_ifw tools_qtcreator,qt.tools.qtcreator") ]
         workspace "linux".


Lemma list_input_round_trip_witness :
  length (Inputs.getStringArrayInput commaToolsWorld "tools") = 2%nat.
Proof.
  destruct (list_input_round_trip commaToolsWorld "tools")
    as (_ & _ & _ & Hlen).
  rewrite Hlen; [vm_compute; reflexivity | vm_compute; discriminate].
Defined.

(** ** What the cache key does not tell apart *)

Lemma lowerHex_no_comma (s : string) :
  isLowerHex s = true -> hasChar "," s = false.
Proof.
  induction s as [|a s IH]; [reflexivity|]. cbn [isLowerHex hasChar].
  intros H. apply andb_prop in H as [Ha Hs]. rewrite (IH Hs), orb_false_r.
  destruct (Ascii.eqb_spec a ",") as [->|]; [discriminate Ha | reflexivity].
Qed.

(** X3: a cache key that was not hashed contains no comma; a hashed one
    contains a comma exactly when the prefix does, since the prefix is
    put in front of the digest as it is. *)
Theorem cacheKey_commas (w : World) (i : Inputs.t) :
  ((String.length (Inputs.assembledKey w i) <= 512)%nat ->
   hasChar "," (Inputs.cacheKey w i) = false)
  /\ ((512 < String.length (Inputs.assembledKey w i))%nat ->
      hasChar "," (Inputs.cacheKey w i)
      = hasChar "," (Inputs.cacheKeyPrefix i)).
Proof.
  split; intros Hlen.
  - rewrite (cacheKey_short w i Hlen). unfold Inputs.assembledKey.
    now apply replaceAll_clean.
  - rewrite (cacheKey_long w i Hlen), !hasChar_app.
    rewrite (lowerHex_no_comma _ (hexdigest_lowerHex _)).
    cbn [hasChar]. now rewrite !orb_false_r.
Qed.

(** Sixty modules behind a prefix that holds a comma. *)
Definition commaPrefixWorld : World :=
  runner [ ("target", "desktop"); ("wasm", "none"); ("version", "6.8.0");
           ("cache-key-prefix", "qt,ci");
           ("modules", repeatString 59 "qtcharts " +:+ "qtcharts") ]
         workspace "linux".

Lemma cacheKey_commas_witness :
  hasChar "," (Inputs.cacheKey manyModulesWorld (resolved manyModulesWorld))
  = false
  /\ hasChar "," (Inputs.cacheKey commaPrefixWorld (resolved commaPrefixWorld))
     = true
  /\ hasChar "," (Inputs.cacheKey windowsQt68 (resolved windowsQt68)) = false.
Proof.
  split; [|split].
  - destruct (cacheKey_commas manyModulesWorld (resolved manyModulesWorld))
      as (_ & Hlong).
    rewrite Hlong; [reflexivity | vm_compute; lia].
  - destruct (cacheKey_commas commaPrefixWorld (resolved commaPrefixWorld))
      as (_ & Hlong).
    rewrite Hlong; [reflexivity | vm_compute; lia].
  - destruct (cacheKey_commas windowsQt68 (resolved windowsQt68))
      as (Hshort & _).
    apply Hshort. vm_compute. lia.
Defined.

(** The configuration with other switches: the five fields that decide
    what is installed and published, not where or which version. *)
Definition withSwitches (i : Inputs.t) (addToolsToPath : bool)
    (installDeps : InstallDeps) (cache isInstallQtBinaries setEnv : bool)
    : Inputs.t := {|
  Inputs.host := Inputs.host i;
  Inputs.target := Inputs.target i;
  Inputs.version := Inputs.version i;
  Inputs.wasm := Inputs.wasm i;
  Inputs.arch := Inputs.arch i;
  Inputs.dir := Inputs.dir i;
  Inputs.modules := Inputs.modules i;
  Inputs.archives := Inputs.archives i;
  Inputs.tools := Inputs.tools i;
  Inputs.addToolsToPath := addToolsToPath;
  Inputs.extra := Inputs.extra i;
  Inputs.src := Inputs.src i;
  Inputs.srcArchives := Inputs.srcArchives i;
  Inputs.doc := Inputs.doc i;
  Inputs.docArchives := Inputs.docArchives i;
  Inputs.docModules := Inputs.docModules i;
  Inputs.example := Inputs.example i;
  Inputs.exampleArchives := Inputs.exampleArchives i;
  Inputs.exampleModules := Inputs.exampleModules i;
  Inputs.installDeps := installDeps;
  Inputs.cache := cache;
  Inputs.cacheKeyPrefix := Inputs.cacheKeyPrefix i;
  Inputs.isInstallQtBinaries := isInstallQtBinaries;
  Inputs.setEnv := setEnv;
  Inputs.aqtSource := Inputs.aqtSource i;
  Inputs.aqtVersion := Inputs.aqtVersion i;
  Inputs.py7zrVersion := Inputs.py7zrVersion i
|}.

(** X4: the cache key does not depend on [addToolsToPath],
    [installDeps], [cache], [isInstallQtBinaries] or [setEnv]: a run
    that installs the tools only and one that installs the Qt binaries
    too, otherwise configured alike, look up and store the same key. *)
Theorem cacheKey_ignores_switches (w : World) (i : Inputs.t)
    (addToolsToPath : bool) (installDeps : InstallDeps)
    (cache isInstallQtBinaries setEnv : bool) :
  Inputs.cacheKey w
    (withSwitches i addToolsToPath installDeps cache isInstallQtBinaries setEnv)
  = Inputs.cacheKey w i.
Proof. reflexivity. Qed.

(** The configuration with other module, archive, extra and tool lists. *)
Definition withLists (i : Inputs.t) (modules archives extra tools : list string)
    : Inputs.t := {|
  Inputs.host := Inputs.host i;
  Inputs.target := Inputs.target i;
  Inputs.version := Inputs.version i;
  Inputs.wasm := Inputs.wasm i;
  Inputs.arch := Inputs.arch i;
  Inputs.dir := Inputs.dir i;
  Inputs.modules := modules;
  Inputs.archives := archives;
  Inputs.tools := tools;
  Inputs.addToolsToPath := Inputs.addToolsToPath i;
  Inputs.extra := extra;
  Inputs.src := Inputs.src i;
  Inputs.srcArchives := Inputs.srcArchives i;
  Inputs.doc := Inputs.doc i;
  Inputs.docArchives := Inputs.docArchives i;
  Inputs.docModules := Inputs.docModules i;
  Inputs.example := Inputs.example i;
  Inputs.exampleArchives := Inputs.exampleArchives i;
  Inputs.exampleModules := Inputs.exampleModules i;
  Inputs.installDeps := Inputs.installDeps i;
  Inputs.cache := Inputs.cache i;
  Inputs.cacheKeyPrefix := Inputs.cacheKeyPrefix i;
  Inputs.isInstallQtBinaries := Inputs.isInstallQtBinaries i;
  Inputs.setEnv := Inputs.setEnv i;
  Inputs.aqtSource := Inputs.aqtSource i;
  Inputs.aqtVersion := Inputs.aqtVersion i;
  Inputs.py7zrVersion := Inputs.py7zrVersion i
|}.

Lemma hyphenated_empty_items (xs ys : list string) :
  List.filter JS.truthy xs = List.filter JS.truthy ys -> hyphenated xs = hyphenated ys.
Proof.
  assert (H : forall zs, hyphenated zs = hyphenated (List.filter JS.truthy zs)).
  { induction zs as [|z zs IH]; [reflexivity|]. cbn [hyphenated List.filter].
    destruct (JS.truthy z) eqn:Hz; [|exact IH].
    cbn [hyphenated]. now rewrite Hz, IH. }
  intros Heq. now rewrite (H xs), (H ys), Heq.
Qed.

(** X5: the key keeps no trace of where one list ends and the next
    begins, nor of empty elements: two configurations whose modules,
    archives, extra arguments and tools, put end to end and with the
    empty strings left out, are the same sequence have the same key.  A
    module named like an archive, or a doubled space in an input, is
    invisible to the cache. *)
Theorem cacheKey_list_boundaries (w : World) (i : Inputs.t)
    (modules archives extra tools modules' archives' extra' tools'
       : list string) :
  List.filter JS.truthy (modules ++ archives ++ extra ++ tools)
  = List.filter JS.truthy (modules' ++ archives' ++ extra' ++ tools') ->
  Inputs.cacheKey w (withLists i modules archives extra tools)
  = Inputs.cacheKey w (withLists i modules' archives' extra' tools').
Proof.
  intros Hsame.
  assert (Hkey : Inputs.assembledKey w (withLists i modules archives extra tools)
                 = Inputs.assembledKey w
                     (withLists i modules' archives' extra' tools')).
  { rewrite !assembledKey_flat. unfold flatKey, Inputs.keyStringArrays.
    cbn [withLists Inputs.cacheKeyPrefix Inputs.host Inputs.target Inputs.wasm
         Inputs.arch Inputs.version Inputs.dir Inputs.py7zrVersion
         Inputs.aqtSource Inputs.aqtVersion Inputs.modules Inputs.archives
         Inputs.extra Inputs.tools Inputs.src Inputs.srcArchives Inputs.doc
         Inputs.docArchives Inputs.docModules Inputs.example
         Inputs.exampleArchives Inputs.exampleModules concat].
    set (rest := _ ++ Inputs.srcArchives i ++ _).
    do 2 f_equal.
    rewrite (hyphenated_app _ (modules ++ _)),
            (hyphenated_app _ (modules' ++ _)).
    f_equal.
    replace (modules ++ archives ++ extra ++ tools ++ rest)
      with ((modules ++ archives ++ extra ++ tools) ++ rest)
      by (now rewrite <- !app_assoc).
    replace (modules' ++ archives' ++ extra' ++ tools' ++ rest)
      with ((modules' ++ archives' ++ extra' ++ tools') ++ rest)
      by (now rewrite <- !app_assoc).
    rewrite !(hyphenated_app _ rest). f_equal.
    now apply hyphenated_empty_items. }
  unfold Inputs.cacheKey. now rewrite Hkey.
Qed.

Lemma cacheKey_list_boundaries_witness :
  Inputs.cacheKey windowsQt68
    (withLists (resolved windowsQt68) ["qtcharts"; "qtbase"] [] [] [])
  = Inputs.cacheKey windowsQt68
      (withLists (resolved windowsQt68) ["qtcharts"; ""] ["qtbase"] [] []).
Proof. apply cacheKey_list_boundaries. reflexivity. Defined.

(* ===================================================================== *)
(** ** Locating the Qt directory *)
(* ===================================================================== *)

Fixpoint allDigits (s : string) : bool :=
  match s with
  | EmptyString => true
  | String a s' => JS.isDigit a && allDigits s'
  end.

(** The string does not go on with a digit. *)
Definition noDigitAhead (s : string) : bool :=
  match s with
  | EmptyString => true
  | String a _ => negb (JS.isDigit a)
  end.

Lemma spanDigits_spec (s ds rest : string) :
  spanDigits s = (ds, rest) <->
  s = ds +:+ rest /\ allDigits ds = true /\ noDigitAhead rest = true.
Proof.
  revert ds rest. induction s as [|a s IH]; intros ds rest; cbn [spanDigits].
  - split.
    + intros H. injection H as <- <-. now repeat split.
    + intros (H & _ & _). destruct ds; [|discriminate].
      rewrite app_empty_l in H. now subst.
  - destruct (JS.isDigit a) eqn:Ha.
    + destruct (spanDigits s) as [ds' rest'] eqn:Hspan. split.
      * intros H. injection H as <- <-.
        destruct (proj1 (IH ds' rest') eq_refl) as (-> & Hds & Hrest).
        rewrite app_cons. cbn [allDigits]. now rewrite Ha, Hds.
      * intros (H & Hds & Hrest). destruct ds as [|d ds].
        { rewrite app_empty_l in H. subst rest. cbn in Hrest.
          now rewrite Ha in Hrest. }
        rewrite app_cons in H. injection H as <- ->.
        cbn [allDigits] in Hds. apply andb_prop in Hds as [_ Hds].
        assert (Hpair : (ds', rest') = (ds, rest))
          by (apply IH; now repeat split).
        now injection Hpair as -> ->.
    + split.
      * intros H. injection H as <- <-. repeat split. cbn. now rewrite Ha.
      * intros (H & Hds & Hrest). destruct ds as [|d ds].
        { rewrite app_empty_l in H. now subst. }
        rewrite app_cons in H. injection H as <- _.
        cbn [allDigits] in Hds. now rewrite Ha in Hds.
Qed.

Lemma digits1_spec (s ds rest : string) :
  digits1 s = Some (ds, rest) <->
  s = ds +:+ rest /\ ds <> "" /\ allDigits ds = true
  /\ noDigitAhead rest = true.
Proof.
  unfold digits1. destruct (spanDigits s) as [ds' rest'] eqn:Hspan.
  apply spanDigits_spec in Hspan as Hparts. split.
  - destruct (JS.truthy ds') eqn:Hne; [|discriminate].
    intros H. injection H as <- <-. apply truthy_true in Hne. tauto.
  - intros (Hs & Hne & Hds & Hrest).
    assert (Hpair : spanDigits s = (ds, rest))
      by (apply spanDigits_spec; now repeat split).
    rewrite Hspan in Hpair. injection Hpair as -> ->.
    apply truthy_true in Hne. now rewrite Hne.
Qed.

Lemma dropPrefix_spec (p s rest : string) :
  dropPrefix p s = Some rest <-> s = p +:+ rest.
Proof.
  revert s. induction p as [|a p IH]; intros s; cbn [dropPrefix].
  - rewrite app_empty_l. split; [intros H; now injection H | now intros ->].
  - destruct s as [|b s]; [split; discriminate|].
    rewrite app_cons. destruct (Ascii.eqb_spec a b) as [->|Hne].
    + rewrite IH. split; [now intros -> | intros H; now injection H].
    + split; [discriminate | intros H; injection H; congruence].
Qed.

Lemma literal_spec (c : ascii) (s rest : string) :
  literal c s = Some rest <-> s = String c rest.
Proof.
  unfold literal. destruct s as [|a s]; [split; discriminate|].
  destruct (Ascii.eqb_spec a c) as [->|Hne].
  - split; intros H; injection H as ->; reflexivity.
  - split; [discriminate | intros H; injection H; congruence].
Qed.

Lemma dropWhile_repeat (c : ascii) (s rest : string) :
  (match rest with String a _ => Ascii.eqb a c = false | _ => True end) ->
  dropWhile (isChar c) s = rest <->
  exists n, s = repeatString n (String c "") +:+ rest.
Proof.
  intros Hrest. induction s as [|a s IH]; cbn [dropWhile].
  - split.
    + intros <-. now exists 0%nat.
    + intros (n & H). destruct n as [|n]; [now rewrite app_empty_l in H|].
      discriminate H.
  - unfold isChar at 1. destruct (Ascii.eqb_spec a c) as [->|Hne].
    + rewrite IH. split.
      * intros (n & ->). now exists (S n).
      * intros (n & H). destruct n as [|n].
        { rewrite app_empty_l in H. subst rest.
          now rewrite Ascii.eqb_refl in Hrest. }
        cbn [repeatString] in H. rewrite app_assoc_string, app_cons in H.
        injection H as ->. now exists n.
    + split.
      * intros <-. now exists 0%nat.
      * intros (n & H). destruct n as [|n]; [now rewrite app_empty_l in H|].
        cbn [repeatString] in H. rewrite app_assoc_string, app_cons in H.
        injection H as H _. congruence.
Qed.

Lemma qt6VersionDir_language (s : string) :
  isQt6VersionDir s = true <->
  exists minor patch,
    s = "6." +:+ minor +:+ "." +:+ patch
    /\ minor <> "" /\ allDigits minor = true
    /\ patch <> "" /\ allDigits patch = true.
Proof.
  unfold isQt6VersionDir. split.
  - destruct (dropPrefix "6." s) as [r1|] eqn:H1; [|discriminate].
    destruct (digits1 r1) as [[minor r2]|] eqn:H2; [|discriminate].
    destruct (literal "." r2) as [r3|] eqn:H3; [|discriminate].
    destruct (digits1 r3) as [[patch [|a r4]]|] eqn:H4; try discriminate.
    intros _. apply dropPrefix_spec in H1 as ->.
    apply digits1_spec in H2 as (-> & Hminor & Hdm & _).
    apply literal_spec in H3 as ->.
    apply digits1_spec in H4 as (-> & Hpatch & Hdp & _).
    exists minor, patch. rewrite app_empty_r. now repeat split.
  - intros (minor & patch & -> & Hminor & Hdm & Hpatch & Hdp).
    rewrite (proj2 (dropPrefix_spec "6." _ (minor +:+ "." +:+ patch)) eq_refl).
    rewrite (proj2 (digits1_spec _ minor ("." +:+ patch)));
      [|now repeat split].
    rewrite (proj2 (literal_spec "." ("." +:+ patch) patch) eq_refl).
    rewrite (proj2 (digits1_spec patch patch ""));
      [reflexivity | rewrite app_empty_r; now repeat split].
Qed.

Lemma starred_language (prefix : string) (c : ascii) (suffix s : string) :
  (match suffix with String a _ => Ascii.eqb a c = false | _ => True end) ->
  match dropPrefix prefix s with
  | Some r => String.eqb (dropWhile (isChar c) r) suffix
  | None => false
  end = true <->
  exists n, s = prefix +:+ repeatString n (String c "") +:+ suffix.
Proof.
  intros Hsuffix. split.
  - destruct (dropPrefix prefix s) as [r|] eqn:Hr; [|discriminate].
    intros H. apply String.eqb_eq in H.
    apply dropPrefix_spec in Hr as ->.
    apply (dropWhile_repeat c r suffix Hsuffix) in H as (n & ->).
    now exists n.
  - intros (n & ->).
    rewrite (proj2 (dropPrefix_spec prefix _ _) eq_refl).
    apply String.eqb_eq. apply (dropWhile_repeat c _ suffix Hsuffix).
    now exists n.
Qed.

(** X6: the two patterns that single out an architecture directory in
    need of a desktop Qt, read as the regular expressions they are.  The
    version directory must be "6.", digits, ".", digits.  The
    architecture directory must be "ios", or "androi", "was" or "msv"
    followed by any number of "d", "m" or "c" (and "_arm64" after the
    "c"s): a star repeats the letter before it, it does not stand for
    any text. *)
Theorem parallel_desktop_patterns (s : string) :
  (isQt6VersionDir s = true <->
   exists minor patch,
     s = "6." +:+ minor +:+ "." +:+ patch
     /\ minor <> "" /\ allDigits minor = true
     /\ patch <> "" /\ allDigits patch = true)
  /\ (isParallelDesktopArchDir s = true <->
      (exists n, s = "androi" +:+ repeatString n "d")
      \/ s = "ios"
      \/ (exists n, s = "was" +:+ repeatString n "m")
      \/ (exists n, s = "msv" +:+ repeatString n "c" +:+ "_arm64")).
Proof.
  split; [apply qt6VersionDir_language|].
  unfold isParallelDesktopArchDir.
  rewrite !orb_true_iff, String.eqb_eq.
  rewrite (starred_language "androi" "d" "" s Logic.I).
  rewrite (starred_language "was" "m" "" s Logic.I).
  rewrite (starred_language "msv" "c" "_arm64" s eq_refl).
  setoid_rewrite app_empty_r. tauto.
Qed.

Example parallel_desktop_arch_dirs :
  map isParallelDesktopArchDir
    [ "android"; "ios"; "wasm"; "androi"; "wasmm";
      "android_arm64_v8a"; "wasm_singlethread"; "wasm_multithread";
      "msvc2022_arm64"; "msvc_arm64"; "gcc_64" ]
  = [ true; true; true; true; true;
      false; false; false; false; true; false ].
Proof. reflexivity. Qed.

(** The directories found under [installDir], in the order of the glob. *)
Definition qtArchDirsOf (w : World) (installDir : string) (s : RunState)
    : list string :=
  map (fun p => pathResolve w [p; ".."; ".."])
      (globSync w (trace s) (installDir +:+ "/[0-9]*/*/bin/qmake*")).

(** The directory is one that needs a desktop Qt beside it. *)
Definition needsDesktop (w : World) (archPath : string) : bool :=
  isQt6VersionDir (pathBasename w (pathJoin w [archPath; ".."]))
  && isParallelDesktopArchDir (pathBasename w archPath).

Lemma filter_first (p : string -> bool) (l : list string)
    (first : string) (rest : list string) :
  filter (fun x => p x) l = first :: rest ->
  p first = true
  /\ exists before after,
       l = before ++ first :: after
       /\ Forall (fun x => p x = false) before.
Proof.
  induction l as [|a l IH]; [discriminate|].
  rewrite filter_cons. destruct (decide (p a)) as [Ha|Ha].
  - intros H. injection H as -> _. split; [now apply Is_true_eq_true|].
    exists [], l. split; [reflexivity | constructor].
  - intros H. destruct (IH H) as (Hp & before & after & -> & Hbefore).
    split; [exact Hp|]. exists (a :: before), after.
    split; [reflexivity|]. constructor; [|exact Hbefore].
    destruct (p a); [now destruct Ha | reflexivity].
Qed.

Lemma filter_none (p : string -> bool) (l : list string) :
  filter (fun x => p x) l = [] -> Forall (fun x => p x = false) l.
Proof.
  induction l as [|a l IH]; [constructor|].
  rewrite filter_cons. destruct (decide (p a)) as [Ha|Ha]; [discriminate|].
  intros H. constructor; [|now apply IH].
  destruct (p a); [now destruct Ha | reflexivity].
Qed.

(** X7: [locateQtArchDir] performs no effect.  It throws exactly when
    the glob finds no directory, with a message that names the install
    directory.  Otherwise it returns one of the directories found: the
    first that needs a desktop Qt beside it when there is one, and the
    first of all when there is none. *)
Theorem locateQtArchDir_choice (w : World) (installDir : string)
    (s : RunState) :
  (qtArchDirsOf w installDir s = [] ->
   locateQtArchDir w installDir s
   = (s, Throw (Error ("Failed to locate a Qt installation directory in "
                       +:+ installDir))))
  /\ (forall first rest,
        qtArchDirsOf w installDir s = first :: rest ->
        exists found,
          locateQtArchDir w installDir s = (s, Ok found)
          /\ ((needsDesktop w found = true
               /\ exists before after,
                    qtArchDirsOf w installDir s = before ++ found :: after
                    /\ Forall (fun d => needsDesktop w d = false) before)
              \/ (found = first
                  /\ Forall (fun d => needsDesktop w d = false)
                            (qtArchDirsOf w installDir s)))).
Proof.
  assert (Hrun : locateQtArchDir w installDir s
                 = match filter (fun d => needsDesktop w d)
                                (qtArchDirsOf w installDir s),
                         qtArchDirsOf w installDir s with
                   | found :: _, _ => (s, Ok found)
                   | [], [] =>
                       (s, Throw (Error ("Failed to locate a Qt installation directory in "
                                         +:+ installDir)))
                   | [], found :: _ => (s, Ok found)
                   end).
  { unfold locateQtArchDir, bind, history.
    change (filter _ (map _ (globSync w (trace s) _)))
      with (filter (fun d => needsDesktop w d) (qtArchDirsOf w installDir s)).
    change (map _ (globSync w (trace s) _)) with (qtArchDirsOf w installDir s).
    now destruct (filter _ _), (qtArchDirsOf w installDir s). }
  rewrite Hrun. split.
  - now intros ->.
  - intros first rest Hdirs.
    destruct (filter _ _) as [|found others] eqn:Hfilter.
    + rewrite Hdirs. exists first. split; [reflexivity|]. right.
      split; [reflexivity|]. rewrite <- Hdirs. now apply filter_none.
    + exists found. split; [reflexivity|]. left.
      now apply (filter_first _ _ _ others).
Qed.

(** A file system with a desktop Qt and a WASM Qt side by side. *)
Definition twoQtWorld : World :=
  let w := runner [ ("target", "desktop"); ("wasm", "singlethread");
                    ("version", "6.8.0") ] workspace "linux" in {|
  rawInputs := rawInputs w;
  processEnv := processEnv w;
  platform := platform w;
  osRelease := osRelease w;
  compare := compare w;
  pathResolve := fun parts =>
    match parts with
    | [p; ".."; ".."] => p
    | _ => JS.join "/" parts
    end;
  pathJoin := fun parts =>
    match parts with
    | [p; ".."] => if JS.startsWith "/q/6.8.0/" p then "6.8.0" else p
    | _ => JS.join "/" parts
    end;
  pathBasename := fun p =>
    match dropPrefix "/q/6.8.0/" p with Some name => name | None => p end;
  execSucceeds := execSucceeds w;
  execOutput := execOutput w;
  cacheRestore := cacheRestore w;
  cacheSave := cacheSave w;
  globSync := fun _ _ => ["/q/6.8.0/gcc_64"; "/q/6.8.0/wasm"];
  statIsDirectory := statIsDirectory w
|}.

Lemma locateQtArchDir_choice_witness :
  locateQtArchDir twoQtWorld "/q" (initial twoQtWorld)
  = (initial twoQtWorld, Ok "/q/6.8.0/wasm").
Proof.
  destruct (locateQtArchDir_choice twoQtWorld "/q" (initial twoQtWorld))
    as (_ & Hfound).
  destruct (Hfound "/q/6.8.0/gcc_64" ["/q/6.8.0/wasm"] eq_refl)
    as (found & Hrun & _).
  rewrite Hrun. f_equal. f_equal.
  assert (Hsame : locateQtArchDir twoQtWorld "/q" (initial twoQtWorld)
                  = (initial twoQtWorld, Ok "/q/6.8.0/wasm"))
    by (vm_compute; reflexivity).
  rewrite Hsame in Hrun. now injection Hrun.
Defined.

(* ===================================================================== *)
(** ** Resolving the aqtinstall version *)
(* ===================================================================== *)

Lemma insertBy_In (after : string -> string -> result bool) (x : string)
    (sorted l : list string) :
  insertBy after x sorted = Ok l ->
  forall y, In y l <-> y = x \/ In y sorted.
Proof.
  revert l. induction sorted as [|z sorted IH]; intros l; cbn [insertBy].
  - intros H. injection H as <-. intros y. cbn. intuition.
  - unfold bindR. destruct (after x z) as [[|]|]; [| |discriminate].
    + destruct (insertBy after x sorted) as [rest|]; [|discriminate].
      intros H. injection H as <-. intros y. cbn [In].
      rewrite (IH rest eq_refl y). intuition.
    + intros H. injection H as <-. intros y. cbn. intuition.
Qed.

Lemma sortBy_In (after : string -> string -> result bool)
    (xs l : list string) :
  sortBy after xs = Ok l -> forall y, In y l <-> In y xs.
Proof.
  revert l. induction xs as [|x xs IH]; intros l; cbn [sortBy].
  - intros H. now injection H as <-.
  - unfold bindR. destruct (sortBy after xs) as [sorted|]; [|discriminate].
    intros H y. rewrite (insertBy_In after x sorted l H y), (IH sorted eq_refl y).
    cbn. intuition.
Qed.

Lemma filterMap_In {A B} (f : A -> option B) (xs : list A) (y : B) :
  In y (filterMap f xs) -> exists x, In x xs /\ f x = Some y.
Proof.
  induction xs as [|x xs IH]; [intros []|]. cbn [filterMap].
  destruct (f x) as [z|] eqn:Hfx.
  - intros [<- | H]; [exists x; split; [now left | exact Hfx]|].
    destruct (IH H) as (x' & Hin & Hfx'). exists x'. split; [now right | exact Hfx'].
  - intros H. destruct (IH H) as (x' & Hin & Hfx').
    exists x'. split; [now right | exact Hfx'].
Qed.

(** Three runs of digits joined by dots. *)
Definition threeNumbers (v : string) : Prop :=
  exists major minor patch,
    v = major +:+ "." +:+ minor +:+ "." +:+ patch
    /\ (major <> "" /\ allDigits major = true)
    /\ (minor <> "" /\ allDigits minor = true)
    /\ (patch <> "" /\ allDigits patch = true).

Lemma version3_shape (s v rest : string) :
  version3 s = Some (v, rest) -> threeNumbers v.
Proof.
  unfold version3.
  destruct (digits1 s) as [[major r1]|] eqn:H1; [|discriminate].
  destruct (literal "." r1) as [r2|]; [|discriminate].
  destruct (digits1 r2) as [[minor r3]|] eqn:H2; [|discriminate].
  destruct (literal "." r3) as [r4|]; [|discriminate].
  destruct (digits1 r4) as [[patch r5]|] eqn:H3; [|discriminate].
  intros H. injection H as <- _.
  apply digits1_spec in H1 as (_ & Hmajor & Hdmajor & _).
  apply digits1_spec in H2 as (_ & Hminor & Hdminor & _).
  apply digits1_spec in H3 as (_ & Hpatch & Hdpatch & _).
  exists major, minor, patch. now repeat split.
Qed.

Lemma search_Some {A} (pattern : string -> option A) (s : string) (x : A) :
  search pattern s = Some x -> exists t, pattern t = Some x.
Proof.
  induction s as [|a s IH]; cbn [search].
  - destruct (pattern "") eqn:H; [|discriminate].
    intros Hx. injection Hx as ->. now exists "".
  - destruct (pattern (String a s)) eqn:H.
    + intros Hx. injection Hx as ->. now exists (String a s).
    + exact IH.
Qed.

Lemma threeNumbers_nonempty (v : string) : threeNumbers v -> v <> "".
Proof.
  intros (major & minor & patch & -> & (Hmajor & _) & _).
  destruct major as [|a major]; [congruence|]. now rewrite app_cons.
Qed.

Lemma tagVersionAt_shape (s v : string) :
  tagVersionAt s = Some v -> threeNumbers v.
Proof.
  unfold tagVersionAt.
  destruct (dropPrefix "refs/tags/v" s) as [r|]; [|discriminate].
  destruct (version3 r) as [[v' [|a rest]]|] eqn:Hv; try discriminate.
  intros H. injection H as <-. exact (version3_shape _ _ _ Hv).
Qed.

Lemma filterMap_intro {A B} (f : A -> option B) (xs : list A) (x : A)
    (y : B) :
  In x xs -> f x = Some y -> In y (filterMap f xs).
Proof.
  induction xs as [|z xs IH]; [intros []|]. cbn [filterMap].
  intros [-> | Hin] Hfx.
  - rewrite Hfx. now left.
  - destruct (f z); [right|]; now apply IH.
Qed.

(** *** Sorting with a comparison that may throw *)

Section Sorting.

Variable after : string -> string -> result bool.

Lemma insertBy_answers (x : string) (sorted : list string) :
  (forall y, In y sorted -> exists r, after x y = Ok r) ->
  exists l, insertBy after x sorted = Ok l.
Proof.
  induction sorted as [|z sorted IH]; intros Hans; cbn [insertBy].
  - now eexists.
  - destruct (Hans z) as (r & ->); [now left|]. unfold bindR.
    destruct r; [|now eexists].
    destruct IH as (l & ->); [|now eexists].
    intros y Hy. apply Hans. now right.
Qed.

Lemma sortBy_answers (xs : list string) :
  (forall a b, In a xs -> In b xs -> exists r, after a b = Ok r) ->
  exists l, sortBy after xs = Ok l.
Proof.
  induction xs as [|x xs IH]; intros Hans; cbn [sortBy]; [now eexists|].
  destruct IH as (sorted & Hsorted).
  { intros a b Ha Hb. apply Hans; now right. }
  rewrite Hsorted. unfold bindR. apply insertBy_answers.
  intros y Hy. apply Hans; [now left|]. right.
  now apply (sortBy_In after xs sorted Hsorted y).
Qed.

Lemma insertBy_Throw (x : string) (sorted : list string) (e : error) :
  insertBy after x sorted = Throw e ->
  exists y, In y sorted /\ after x y = Throw e.
Proof.
  induction sorted as [|z sorted IH]; cbn [insertBy]; [discriminate|].
  unfold bindR. destruct (after x z) as [[|]|e'] eqn:Hxz.
  - destruct (insertBy after x sorted) as [rest|e'']; [discriminate|].
    intros H. injection H as ->.
    destruct (IH eq_refl) as (y & Hy & Hthrow).
    exists y. split; [now right | exact Hthrow].
  - discriminate.
  - intros H. injection H as ->. exists z. split; [now left | exact Hxz].
Qed.

Lemma sortBy_Throw (xs : list string) (e : error) :
  sortBy after xs = Throw e ->
  exists a b, In a xs /\ In b xs /\ after a b = Throw e.
Proof.
  induction xs as [|x xs IH]; cbn [sortBy]; [discriminate|].
  unfold bindR. destruct (sortBy after xs) as [sorted|e'] eqn:Hsorted.
  - intros H. apply insertBy_Throw in H as (y & Hy & Hthrow).
    exists x, y. split; [now left|]. split; [|exact Hthrow].
    right. now apply (sortBy_In after xs sorted Hsorted y).
  - intros H. injection H as ->.
    destruct (IH eq_refl) as (a & b & Ha & Hb & Hthrow).
    exists a, b. split; [now right|]. split; [now right | exact Hthrow].
Qed.

(** No element of the list has to come before its head. *)
Definition headFirst (l : list string) : Prop :=
  match l with
  | [] => True
  | h :: _ => forall c, In c l -> after h c = Ok false
  end.

Variable among : list string.

Hypothesis asymmetric :
  forall a b, In a among -> In b among ->
    after a b = Ok true -> after b a = Ok false.
Hypothesis answers :
  forall a b, In a among -> In b among -> exists r, after a b = Ok r.
Hypothesis chained :
  forall a b c, In a among -> In b among -> In c among ->
    after a b = Ok false -> after b c = Ok false -> after a c = Ok false.

Lemma after_itself (x : string) : In x among -> after x x = Ok false.
Proof.
  intros Hx. destruct (answers x x Hx Hx) as ([|] & Hr); [|exact Hr].
  now apply asymmetric.
Qed.

Lemma insertBy_headFirst (x : string) (sorted l : list string) :
  In x among -> (forall y, In y sorted -> In y among) ->
  headFirst sorted ->
  insertBy after x sorted = Ok l -> headFirst l.
Proof.
  intros Hx Hsub Hhead. destruct sorted as [|z sorted]; cbn [insertBy].
  - intros H. injection H as <-. intros c [<- | []]. now apply after_itself.
  - unfold bindR. destruct (after x z) as [[|]|] eqn:Hxz; [| |discriminate].
    + destruct (insertBy after x sorted) as [rest|] eqn:Hrest;
        [|discriminate].
      intros H. injection H as <-. intros c [<- | Hc].
      * apply after_itself, Hsub. now left.
      * apply (insertBy_In after x sorted rest Hrest c) in Hc as [-> | Hc].
        -- apply asymmetric; [exact Hx | apply Hsub; now left | exact Hxz].
        -- apply Hhead. now right.
    + intros H. injection H as <-. intros c [<- | Hc].
      * now apply after_itself.
      * apply (chained x z c); [exact Hx | apply Hsub; now left
                                | now apply Hsub | exact Hxz | now apply Hhead].
Qed.

Lemma sortBy_headFirst (xs l : list string) :
  (forall y, In y xs -> In y among) ->
  sortBy after xs = Ok l -> headFirst l.
Proof.
  revert l. induction xs as [|x xs IH]; intros l Hsub; cbn [sortBy].
  - intros H. now injection H as <-.
  - unfold bindR. destruct (sortBy after xs) as [sorted|] eqn:Hsorted;
      [|discriminate].
    apply insertBy_headFirst.
    + apply Hsub. now left.
    + intros y Hy. apply Hsub. right.
      now apply (sortBy_In after xs sorted Hsorted y).
    + apply IH; [|reflexivity]. intros y Hy. apply Hsub. now right.
Qed.

End Sorting.

Definition lsRemoteArgs : list string :=
  [ "ls-remote"; "--tags"; "--sort=-v:refname";
    "https://github.com/Kidev/aqtinstall.git" ].

(** The version is the capture of the tag pattern on some line of
    [stdout], and starts with [target]. *)
Definition isMatchingTag (stdout target v : string) : Prop :=
  JS.startsWith target v = true
  /\ exists line,
       In line (JS.split (ascii_of_nat 10) stdout)
       /\ search tagVersionAt line = Some v.

(** The versions kept from the output of git, in its order. *)
Definition matchingTags (stdout target : string) : list string :=
  filter (fun v => JS.startsWith target v)
    (filter JS.truthy
       (filterMap (search tagVersionAt)
          (JS.split (ascii_of_nat 10) stdout))).

Lemma matchingTags_spec (stdout target v : string) :
  In v (matchingTags stdout target) <-> isMatchingTag stdout target v.
Proof.
  unfold matchingTags, isMatchingTag. split.
  - intros Hin.
    apply list_elem_of_In, list_elem_of_filter in Hin as (Hstarts & Hin).
    apply list_elem_of_filter in Hin as (_ & Hin).
    apply list_elem_of_In, filterMap_In in Hin as (line & Hline & Hmatch).
    split; [now apply Is_true_eq_true|]. now exists line.
  - intros (Hstarts & line & Hline & Hmatch).
    apply list_elem_of_In, list_elem_of_filter.
    split; [now apply Is_true_eq_left|].
    apply list_elem_of_filter. split.
    + apply Is_true_eq_left, truthy_true.
      apply search_Some in Hmatch as (t & Ht).
      now apply threeNumbers_nonempty, (tagVersionAt_shape t).
    + apply list_elem_of_In. now apply (filterMap_intro _ _ line).
Qed.

(** The comparison answers on the tags, *)
Definition tagsComparable (w : World) (tags : list string) : Prop :=
  forall a b, In a tags -> In b tags -> compare w a b LT <> None.

(** and orders them: it is asymmetric, and "not below" chains. *)
Definition tagsOrdered (w : World) (tags : list string) : Prop :=
  tagsComparable w tags
  /\ (forall a b, In a tags -> In b tags ->
        compare w a b LT = Some true -> compare w b a LT = Some false)
  /\ (forall a b c, In a tags -> In b tags -> In c tags ->
        compare w a b LT = Some false -> compare w b c LT = Some false ->
        compare w a c LT = Some false).

(** The comparator given to [sort]. *)
Definition tagAfter (w : World) (a b : string) : result bool :=
  match compare w a b LT with
  | Some lt => Ok lt
  | None => Throw (InvalidSemver a b)
  end.

Lemma tagAfter_Ok (w : World) (a b : string) (r : bool) :
  tagAfter w a b = Ok r <-> compare w a b LT = Some r.
Proof.
  unfold tagAfter. destruct (compare w a b LT); split; congruence.
Qed.

(** The lookup of the tags returns, and starts by asking git. *)
Lemma getLatestCompatibleVersion_asks_git (w : World) (version : string)
    (s : RunState) :
  exists s' v more,
    getLatestCompatibleVersion w version s = (s', Ok v)
    /\ trace s' = trace s ++ GetExecOutput "git" lsRemoteArgs :: more.
Proof.
  unfold getLatestCompatibleVersion, tryCatch, bind, getExecOutput, call.
  fold lsRemoteArgs.
  destruct (execOutput w (trace s) "git" lsRemoteArgs) as [out|].
  - unfold liftR.
    match goal with
    | |- context [sortBy ?cmp ?xs] =>
        destruct (sortBy cmp xs) as [[|best others]|e]
    end.
    + do 3 eexists. split; reflexivity.
    + do 3 eexists. split; reflexivity.
    + do 3 eexists. split; [reflexivity|]. cbn. now rewrite <- app_assoc.
  - do 3 eexists. split; [reflexivity|]. cbn. now rewrite <- app_assoc.
Qed.

(** X8: [getLatestCompatibleVersion] never throws and leaves the
    environment alone.  It asks git for the tags first.  When git fails
    it warns once and returns the target version followed by ".0".
    Otherwise the tags that match are the versions captured from a tag
    line of the output that start with the target version.  With no such
    tag the fallback is returned without a warning.  With some, and a
    comparison that answers on them, one of them is returned without a
    warning, and when the comparison orders them no tag is above the one
    returned.  The fallback with a warning is returned only when the
    comparison of two matching tags threw. *)
Theorem getLatestCompatibleVersion_recovers (w : World) (version : string)
    (s : RunState) :
  let target := targetVersionOf version in
  let asked := trace s ++ [GetExecOutput "git" lsRemoteArgs] in
  (forall stdout v,
     In v (matchingTags stdout target) <-> isMatchingTag stdout target v)
  /\ exists s' v,
       getLatestCompatibleVersion w version s = (s', Ok v)
       /\ env s' = env s
       /\ match execOutput w (trace s) "git" lsRemoteArgs with
          | None =>
              v = target +:+ ".0"
              /\ exists msg, trace s' = asked ++ [Warning msg]
          | Some out =>
              let tags := matchingTags (fst out) target in
              (tags = [] -> v = target +:+ ".0" /\ trace s' = asked)
              /\ (tags <> [] -> tagsComparable w tags ->
                  In v tags /\ trace s' = asked)
              /\ (tags <> [] -> tagsOrdered w tags ->
                  forall c, In c tags -> compare w v c LT = Some false)
              /\ (tags <> [] ->
                  (In v tags /\ trace s' = asked)
                  \/ (v = target +:+ ".0"
                      /\ (exists msg, trace s' = asked ++ [Warning msg])
                      /\ exists a b,
                           In a tags /\ In b tags
                           /\ compare w a b LT = None))
          end.
Proof.
  intros target asked. split; [intros; apply matchingTags_spec|].
  unfold getLatestCompatibleVersion, tryCatch, bind, getExecOutput, call.
  fold lsRemoteArgs. fold target.
  destruct (execOutput w (trace s) "git" lsRemoteArgs) as [out|] eqn:Hout;
    [|do 2 eexists; split; [reflexivity|]; split; [reflexivity|];
      split; [reflexivity | eexists; reflexivity]].
  unfold liftR. fold (matchingTags (fst out) target). fold (tagAfter w).
  cbv zeta. set (tags := matchingTags (fst out) target).
  assert (Hanswers : tagsComparable w tags ->
            exists l, sortBy (tagAfter w) tags = Ok l).
  { intros Hcomparable. apply sortBy_answers. intros a b Ha Hb.
    unfold tagAfter. destruct (compare w a b LT) as [r|] eqn:Hab;
      [now exists r | now destruct (Hcomparable a b Ha Hb)]. }
  destruct (sortBy (tagAfter w) tags) as [[|best others]|e] eqn:Hsort.
  - assert (Hnone : tags = []).
    { destruct tags as [|t tags']; [reflexivity|].
      destruct (proj2 (sortBy_In _ _ _ Hsort t)); now left. }
    do 2 eexists. split; [reflexivity|]. split; [reflexivity|].
    repeat split; congruence.
  - assert (Hbest : In best tags)
      by (apply (sortBy_In _ _ _ Hsort best); now left).
    do 2 eexists. split; [reflexivity|]. split; [reflexivity|].
    split; [|split; [|split]].
    + intros Hnone. rewrite Hnone in Hbest. destruct Hbest.
    + intros _ _. now split.
    + intros _ (Hcomparable & Hasym & Hchain) c Hc.
      apply tagAfter_Ok.
      assert (Hhead : headFirst (tagAfter w) (best :: others)).
      { apply (sortBy_headFirst (tagAfter w) tags) with (xs := tags);
          [| | |auto|exact Hsort].
        - intros a b Ha Hb Hab. apply tagAfter_Ok.
          apply Hasym; [exact Ha | exact Hb | now apply tagAfter_Ok].
        - intros a b Ha Hb. unfold tagAfter.
          destruct (compare w a b LT) as [r|] eqn:Hab;
            [now exists r | now destruct (Hcomparable a b Ha Hb)].
        - intros a b c' Ha Hb Hc' Hab Hbc. apply tagAfter_Ok.
          apply (Hchain a b c'); try assumption; now apply tagAfter_Ok. }
      apply Hhead. now apply (sortBy_In _ _ _ Hsort c).
    + intros _. left. now split.
  - assert (Hsome : tags <> [])
      by (intros Hnone; rewrite Hnone in Hsort; discriminate Hsort).
    do 2 eexists. split; [reflexivity|]. split; [reflexivity|].
    split; [|split; [|split]].
    + intros Hnone. now destruct Hsome.
    + intros _ Hcomparable. destruct (Hanswers Hcomparable) as (l & Hl).
      congruence.
    + intros _ (Hcomparable & _). destruct (Hanswers Hcomparable) as (l & Hl).
      congruence.
    + intros _. right. split; [reflexivity|].
      split; [eexists; reflexivity|].
      apply sortBy_Throw in Hsort as (a & b & Ha & Hb & Hab).
      exists a, b. split; [exact Ha|]. split; [exact Hb|].
      unfold tagAfter in Hab. now destruct (compare w a b LT).
Qed.

(** Two tags of the 3.2 series among others, newest last. *)
Definition taggedWorld : World :=
  let w := runner [ ("target", "desktop"); ("wasm", "none");
                    ("version", "6.8.0"); ("aqtversion", "==3.2.*") ]
                  workspace "linux" in {|
  rawInputs := rawInputs w;
  processEnv := processEnv w;
  platform := platform w;
  osRelease := osRelease w;
  compare := compare w;
  pathResolve := pathResolve w;
  pathJoin := pathJoin w;
  pathBasename := pathBasename w;
  execSucceeds := execSucceeds w;
  execOutput := fun _ command _ =>
    if String.eqb command "git"
    then Some (JS.join (String (ascii_of_nat 10) "")
                 [ "1f0a refs/tags/v3.1.21"; "77c2 refs/tags/v3.2.0";
                   "9be1 refs/tags/v3.2.1"; "04aa refs/heads/master" ],
               "")
    else execOutput w [] command [];
  cacheRestore := cacheRestore w;
  cacheSave := cacheSave w;
  globSync := globSync w;
  statIsDirectory := statIsDirectory w
|}.

Example tagged_lookup :
  matchingTags
    (JS.join (String (ascii_of_nat 10) "")
       [ "1f0a refs/tags/v3.1.21"; "77c2 refs/tags/v3.2.0";
         "9be1 refs/tags/v3.2.1"; "04aa refs/heads/master" ])
    (targetVersionOf "==3.2.*")
  = ["3.2.0"; "3.2.1"]
  /\ snd (getLatestCompatibleVersion taggedWorld "==3.2.*"
            (initial taggedWorld))
     = Ok "3.2.1".
Proof. split; vm_compute; reflexivity. Qed.

Lemma getLatestCompatibleVersion_recovers_witness :
  exists s' v,
    getLatestCompatibleVersion taggedWorld "==3.2.*" (initial taggedWorld)
    = (s', Ok v)
    /\ In v ["3.2.0"; "3.2.1"]
    /\ trace s' = [GetExecOutput "git" lsRemoteArgs]
    /\ compare taggedWorld v "3.2.1" LT = Some false.
Proof.
  destruct (getLatestCompatibleVersion_recovers taggedWorld "==3.2.*"
              (initial taggedWorld))
    as (_ & s' & v & Hrun & _ & Hcase).
  exists s', v. split; [exact Hrun|].
  change (execOutput taggedWorld (trace (initial taggedWorld)) "git"
            lsRemoteArgs)
    with (Some (JS.join (String (ascii_of_nat 10) "")
                  [ "1f0a refs/tags/v3.1.21"; "77c2 refs/tags/v3.2.0";
                    "9be1 refs/tags/v3.2.1"; "04aa refs/heads/master" ],
                "")) in Hcase.
  cbv beta iota zeta in Hcase.
  assert (Htags : matchingTags
                    (fst (JS.join (String (ascii_of_nat 10) "")
                            [ "1f0a refs/tags/v3.1.21";
                              "77c2 refs/tags/v3.2.0";
                              "9be1 refs/tags/v3.2.1";
                              "04aa refs/heads/master" ], ""))
                    (targetVersionOf "==3.2.*")
                  = ["3.2.0"; "3.2.1"]) by (vm_compute; reflexivity).
  rewrite Htags in Hcase. destruct Hcase as (_ & Hsome & Hhighest & _).
  assert (Hcomparable : tagsComparable taggedWorld ["3.2.0"; "3.2.1"]).
  { intros a b [<- | [<- | []]] [<- | [<- | []]]; vm_compute; discriminate. }
  destruct (Hsome ltac:(discriminate) Hcomparable) as (Hin & Htrace).
  split; [exact Hin|]. split; [exact Htrace|].
  apply Hhighest; [discriminate | | right; now left].
  split; [exact Hcomparable|]. split.
  - intros a b [<- | [<- | []]] [<- | [<- | []]]; vm_compute; congruence.
  - intros a b c [<- | [<- | []]] [<- | [<- | []]] [<- | [<- | []]];
      vm_compute; congruence.
Defined.

Lemma replaceAll_absent (c : ascii) (by_ s : string) :
  hasChar c s = false -> JS.replaceAll c by_ s = s.
Proof.
  induction s as [|a s IH]; [reflexivity|]. cbn [hasChar JS.replaceAll].
  intros H. apply orb_false_iff in H as [Ha Hs]. now rewrite Ha, (IH Hs).
Qed.

Lemma replaceFirst_end (c : ascii) (s : string) :
  hasChar c s = false -> JS.replaceFirst c "" (s +:+ String c "") = s.
Proof.
  induction s as [|a s IH]; cbn [hasChar].
  - intros _. rewrite app_empty_l. cbn [JS.replaceFirst].
    now rewrite Ascii.eqb_refl.
  - intros H. apply orb_false_iff in H as [Ha Hs].
    rewrite app_cons. cbn [JS.replaceFirst]. now rewrite Ha, (IH Hs).
Qed.

(** X9: for a constraint written "==" base ".*", such as "==3.2.*", the
    target version keeps the dot before the star, so the fallback ends
    in two dots and a zero: when git cannot be reached the version
    returned is base "..0". *)
Theorem wildcard_fallback_has_two_dots (w : World) (base : string)
    (s : RunState) :
  hasChar "=" base = false ->
  hasChar "*" base = false ->
  execOutput w (trace s) "git" lsRemoteArgs = None ->
  targetVersionOf ("==" +:+ base +:+ ".*") = base +:+ "."
  /\ exists s',
       getLatestCompatibleVersion w ("==" +:+ base +:+ ".*") s
       = (s', Ok (base +:+ "..0")).
Proof.
  intros Heq Hstar Hgit.
  assert (Htarget : targetVersionOf ("==" +:+ base +:+ ".*") = base +:+ ".").
  { unfold targetVersionOf.
    change ("==" +:+ base +:+ ".*") with (String "=" (String "=" (base +:+ ".*"))).
    cbn [JS.replaceAll Ascii.eqb Bool.eqb]. rewrite !app_empty_l.
    rewrite replaceAll_app, (replaceAll_absent "=" "" base Heq).
    change (JS.replaceAll "=" "" ".*") with ("." +:+ "*").
    rewrite <- app_assoc_string. apply replaceFirst_end.
    rewrite hasChar_app, Hstar. reflexivity. }
  split; [exact Htarget|].
  unfold getLatestCompatibleVersion, tryCatch, bind, getExecOutput, call.
  fold lsRemoteArgs. rewrite Hgit, Htarget. cbn.
  rewrite app_assoc_string. eexists. reflexivity.
Qed.

Definition offlineWorld : World :=
  let w := runner [ ("target", "desktop"); ("wasm", "none");
                    ("version", "6.8.0"); ("aqtversion", "==3.2.*") ]
                  workspace "linux" in {|
  rawInputs := rawInputs w;
  processEnv := processEnv w;
  platform := platform w;
  osRelease := osRelease w;
  compare := compare w;
  pathResolve := pathResolve w;
  pathJoin := pathJoin w;
  pathBasename := pathBasename w;
  execSucceeds := execSucceeds w;
  execOutput := fun _ command _ =>
    if String.eqb command "git" then None else execOutput w [] command [];
  cacheRestore := cacheRestore w;
  cacheSave := cacheSave w;
  globSync := globSync w;
  statIsDirectory := statIsDirectory w
|}.

Lemma wildcard_fallback_has_two_dots_witness :
  exists s',
    getLatestCompatibleVersion offlineWorld "==3.2.*" (initial offlineWorld)
    = (s', Ok "3.2..0").
Proof.
  destruct (wildcard_fallback_has_two_dots offlineWorld "3.2"
              (initial offlineWorld)) as (_ & Hrun); try reflexivity.
  exact Hrun.
Defined.

Example offline_run_installs_fallback :
  filter (invokes offlineWorld "pip install") (trace (main offlineWorld))
  = [ Exec ("python3 -m pip install setuptools wheel " +:+ JS.quoted "py7zr");
      Exec ("python3 -m pip install " +:+ JS.quoted
              "git+https://github.com/Kidev/aqtinstall.git@v3.2..0") ].
Proof. vm_compute. reflexivity. Qed.

(* ===================================================================== *)
(** ** The system packages *)
(* ===================================================================== *)

(** The two commands, with or without [sudo]. *)
Definition aptUpdate (d : InstallDeps) : string :=
  match d with nosudo => "apt-get update" | Deps _ => "sudo apt-get update" end.

Definition aptInstall (d : InstallDeps) (cursor : bool) : string :=
  let packages :=
    JS.join " " (if cursor then dependencies ++ ["libxcb-cursor0"]
                 else dependencies) in
  match d with
  | nosudo => "apt-get install " +:+ packages +:+ " -y"
  | Deps _ => "sudo apt-get install " +:+ packages +:+ " -y"
  end.

(** Two commands one after the other, the second only if the first
    succeeds. *)
Definition twoCommands (w : World) (first second : string) (s : RunState)
    : RunState * result unit :=
  if execSucceeds w (trace s) first then
    ({| trace := trace s ++ [Exec first; Exec second]; env := env s |},
     if execSucceeds w (trace s ++ [Exec first]) second
     then Ok tt else Throw (Rejected second))
  else (push (Exec first) s, Throw (Rejected first)).

Lemma exec_then_exec (w : World) (first second : string) (s : RunState) :
  (exec w first ;; exec w second)%run s = twoCommands w first second s.
Proof.
  unfold twoCommands, bind, exec, call, push. cbn [trace env].
  destruct (execSucceeds w (trace s) first); [|reflexivity].
  rewrite <- app_assoc. cbn [app].
  now destruct (execSucceeds w (trace s ++ [Exec first]) second).
Qed.

(** X10: the system packages are touched only on a Linux platform and
    when requested, otherwise nothing happens at all.  The version is
    compared with 6.5.0 before any command runs, so a version the
    comparison rejects aborts without a command.  Otherwise the update
    and then the install command are run, with [sudo] in front of both
    unless [installDeps] is "nosudo", and libxcb-cursor0 is among the
    packages exactly from version 6.5.0 on. *)
Theorem installDependencies_commands (w : World) (i : Inputs.t)
    (s : RunState) :
  (platform w <> "linux" \/ depsRequested (Inputs.installDeps i) = false ->
   installDependencies w i s = (s, Ok tt))
  /\ (platform w = "linux" -> depsRequested (Inputs.installDeps i) = true ->
      (compare w (Inputs.version i) "6.5.0" GE = None ->
       installDependencies w i s
       = (s, Throw (InvalidSemver (Inputs.version i) "6.5.0")))
      /\ (forall cursor,
            compare w (Inputs.version i) "6.5.0" GE = Some cursor ->
            installDependencies w i s
            = twoCommands w (aptUpdate (Inputs.installDeps i))
                (aptInstall (Inputs.installDeps i) cursor) s)).
Proof.
  unfold installDependencies. split.
  - intros [Hplatform | Hdeps].
    + apply String.eqb_neq in Hplatform. now rewrite Hplatform.
    + rewrite Hdeps. now rewrite andb_false_r.
  - intros -> Hdeps. rewrite Hdeps. cbn [String.eqb andb].
    change (String.eqb "linux" "linux") with true. cbv iota.
    unfold compareVersions. split.
    + intros ->. reflexivity.
    + intros cursor ->.
      change (bind (liftR (Ok cursor)) ?k s) with (k cursor s).
      cbv beta zeta.
      destruct (Inputs.installDeps i); apply exec_then_exec.
Qed.

Definition nosudoWorld : World :=
  runner [ ("target", "desktop"); ("wasm", "none"); ("version", "6.4.2");
           ("install-deps", "NoSudo") ]
         workspace "linux".

Lemma installDependencies_commands_witness :
  installDependencies nosudoWorld (resolved nosudoWorld) (initial nosudoWorld)
  = twoCommands nosudoWorld "apt-get update"
      (aptInstall nosudo false) (initial nosudoWorld)
  /\ installDependencies windowsQt68 (resolved windowsQt68)
       (initial windowsQt68)
     = (initial windowsQt68, Ok tt).
Proof.
  split.
  - destruct (installDependencies_commands nosudoWorld (resolved nosudoWorld)
                (initial nosudoWorld)) as (_ & Hlinux).
    destruct Hlinux as (_ & Hrun); [reflexivity | reflexivity|].
    apply (Hrun false). reflexivity.
  - destruct (installDependencies_commands windowsQt68 (resolved windowsQt68)
                (initial windowsQt68)) as (Hoff & _).
    apply Hoff. left. discriminate.
Defined.

(* ===================================================================== *)
(** ** Which aqtinstall is installed *)
(* ===================================================================== *)

Definition pipInstall (w : World) (requirement : string) : string :=
  pythonCommand w "pip install" [JS.quoted requirement].

Definition pipPy7zr (w : World) (i : Inputs.t) : string :=
  pythonCommand w "pip install"
    [ "setuptools"; "wheel"; JS.quoted ("py7zr" +:+ Inputs.py7zrVersion i) ].

(** X11: py7zr is always installed first.  A custom source, when given,
    is what is installed next, whatever the version constraint says: no
    tags are fetched even for a wildcard.  Without a source and without
    a star in the constraint, the constraint is appended to "aqtinstall"
    as it is, and again no tags are fetched. *)
Theorem installAqt_choice (w : World) (i : Inputs.t) (s : RunState) :
  (Inputs.aqtSource i <> "" ->
   installAqt w i s
   = twoCommands w (pipPy7zr w i) (pipInstall w (Inputs.aqtSource i)) s)
  /\ (Inputs.aqtSource i = "" ->
      JS.includes "*" (Inputs.aqtVersion i) = false ->
      installAqt w i s
      = twoCommands w (pipPy7zr w i)
          (pipInstall w ("aqtinstall" +:+ Inputs.aqtVersion i)) s)
  /\ (Inputs.aqtSource i = "" ->
      JS.includes "*" (Inputs.aqtVersion i) = true ->
      execSucceeds w (trace s) (pipPy7zr w i) = true ->
      exists s' r,
        installAqt w i s = (s', r)
        /\ exists later,
             trace s' = trace s ++ Exec (pipPy7zr w i)
                                :: GetExecOutput "git" lsRemoteArgs :: later).
Proof.
  unfold installAqt, execPython, pipInstall, pipPy7zr. split; [|split].
  - intros Hsource.
    destruct (Inputs.aqtSource i) as [|a src] eqn:Hsrc; [congruence|].
    cbn [String.length Nat.ltb Nat.leb]. apply exec_then_exec.
  - intros -> ->. cbn [String.length Nat.ltb Nat.leb]. apply exec_then_exec.
  - intros -> -> Hpip. cbn [String.length Nat.ltb Nat.leb].
    unfold bind at 1. unfold exec at 1. unfold call. rewrite Hpip.
    set (s1 := {| trace := trace s ++ [Exec _]; env := env s |}).
    unfold bind at 1.
    destruct (getLatestCompatibleVersion_asks_git w (Inputs.aqtVersion i) s1)
      as (s2 & v & more & -> & Hs2).
    assert (Hgrow : forall (m : Run unit),
              inv (fun st => exists later,
                     trace st = trace s1
                                ++ GetExecOutput "git" lsRemoteArgs :: later) m ->
              exists s' r, m s2 = (s', r)
                /\ exists later,
                     trace s' = trace s ++ Exec
                       (pythonCommand w "pip install"
                          [ "setuptools"; "wheel";
                            JS.quoted ("py7zr" +:+ Inputs.py7zrVersion i) ])
                       :: GetExecOutput "git" lsRemoteArgs :: later).
    { intros m Hm. specialize (Hm s2 (ex_intro _ more Hs2)).
      destruct (m s2) as [s' r]. exists s', r. split; [reflexivity|].
      assert (Hlater : exists later,
                trace s' = trace s1 ++ GetExecOutput "git" lsRemoteArgs :: later)
        by (destruct r; exact Hm).
      destruct Hlater as (later & ->). exists later.
      unfold s1. cbn [trace]. now rewrite <- app_assoc. }
    apply Hgrow. walk.
    all: intros st (later & Hst); eexists; cbn [push trace];
         rewrite Hst, <- app_assoc; reflexivity.
Qed.

Definition customSourceWorld : World :=
  runner [ ("target", "desktop"); ("wasm", "none"); ("version", "6.8.0");
           ("aqtsource", "git+https://github.com/miurahr/aqtinstall.git");
           ("aqtversion", "==3.2.*") ]
         workspace "win32".

Lemma installAqt_choice_witness :
  installAqt customSourceWorld (resolved customSourceWorld)
    (initial customSourceWorld)
  = twoCommands customSourceWorld
      ("python -m pip install setuptools wheel " +:+ JS.quoted "py7zr")
      ("python -m pip install " +:+ JS.quoted
         "git+https://github.com/miurahr/aqtinstall.git")
      (initial customSourceWorld).
Proof.
  destruct (installAqt_choice customSourceWorld (resolved customSourceWorld)
              (initial customSourceWorld)) as (Hsource & _).
  apply Hsource. vm_compute. discriminate.
Defined.

(* ===================================================================== *)
(** ** How the process ends *)
(* ===================================================================== *)

Definition isExit (e : event) : bool :=
  match e with Exit _ => true | _ => false end.

Definition isSetFailed (e : event) : bool :=
  match e with SetFailed _ => true | _ => false end.

(** Neither the report of a failure nor an exit. *)
Definition notTheEnd (e : event) : Prop :=
  isExit e = false /\ isSetFailed e = false.

Lemma runWith_notTheEnd (w : World) (i : Inputs.t) :
  inv (always notTheEnd) (runWith w i).
Proof.
  walk. all: intros; apply always_push_env; [now split | assumption].
Qed.

Lemma run_final_always (phi : event -> Prop) (w : World) :
  inv (always phi) (run w) -> always phi (fst (run w (initial w))).
Proof.
  intros Hinv. specialize (Hinv (initial w) (always_initial phi w)).
  now destruct (run w (initial w)) as [s [[]|e]].
Qed.

(** X12: the process exits exactly once, as its last effect.  The
    status is 0 when [run] returned and nothing was reported as failed;
    it is 1 when [run] threw, and then the error thrown is reported by
    [setFailed] just before the exit, and only there. *)
Theorem main_exits_once (w : World) :
  exists effects,
    trace (fst (run w (initial w))) = effects
    /\ Forall notTheEnd effects
    /\ match snd (run w (initial w)) with
       | Ok _ => trace (main w) = effects ++ [Exit 0]
       | Throw e => trace (main w) = effects ++ [SetFailed e; Exit 1]
       end.
Proof.
  exists (trace (fst (run w (initial w)))). split; [reflexivity|]. split.
  - apply (run_final_always notTheEnd). apply inv_run.
    intros i _. apply runWith_notTheEnd.
  - unfold main. now destruct (run w (initial w)) as [s [[]|e]].
Qed.

(* ===================================================================== *)
(** ** A rejected external call ends the run *)
(* ===================================================================== *)

(** The event is the external call that [what] names, and not the
    lookup of the tags. *)
Definition callNamed (what : string) (e : event) : Prop :=
  match e with
  | Exec line => what = line
  | GetExecOutput line _ => what = line /\ line <> "git"
  | RestoreCache _ _ => what = "restoreCache"
  | SaveCache _ _ => what = "saveCache"
  | _ => False
  end.

(** When [m] throws the rejection of a call, that call is the last
    effect performed. *)
Definition abrupt {A} (m : Run A) : Prop :=
  forall s s' what,
    m s = (s', Throw (Rejected what)) ->
    exists before e, trace s' = before ++ [e] /\ callNamed what e.

Section Abrupt.

Context {A B : Type}.

Lemma abrupt_returns (m : Run A) :
  (forall s, exists s' a, m s = (s', Ok a)) -> abrupt m.
Proof.
  intros Hm s s' what H. destruct (Hm s) as (s1 & a & H1). congruence.
Qed.

Lemma abrupt_ret (a : A) : abrupt (ret a).
Proof. apply abrupt_returns. intros s. now exists s, a. Qed.

Lemma abrupt_throw (e : error) :
  (forall what, e <> Rejected what) -> abrupt (@throw A e).
Proof. intros He s s' what H. injection H as _ ->. now destruct (He what). Qed.

Lemma abrupt_liftR (r : result A) :
  (forall what, r <> Throw (Rejected what)) -> abrupt (liftR r).
Proof. intros Hr s s' what H. injection H as _ ->. now destruct (Hr what). Qed.

Lemma abrupt_bind (m : Run A) (k : A -> Run B) :
  abrupt m -> (forall a, abrupt (k a)) -> abrupt (bind m k).
Proof.
  intros Hm Hk s s' what. unfold bind.
  destruct (m s) as [s1 [a|e]] eqn:Hms.
  - apply Hk.
  - intros H. injection H as <- ->. now apply (Hm s).
Qed.

Lemma abrupt_tryCatch (m : Run A) (handler : error -> Run A) :
  (forall e, abrupt (handler e)) -> abrupt (tryCatch m handler).
Proof.
  intros Hh s s' what. unfold tryCatch.
  destruct (m s) as [s1 [a|e]]; [discriminate | apply Hh].
Qed.

Lemma abrupt_call (e : event) (answer : list event -> option A) :
  forall what, callNamed what e -> abrupt (call e answer what).
Proof.
  intros what He s s' what'. unfold call.
  destruct (answer (trace s)); [discriminate|].
  intros H. injection H as <- <-. now exists (trace s), e.
Qed.

End Abrupt.

Lemma abrupt_forEach {A} (xs : list A) (body : A -> Run unit) :
  (forall x, abrupt (body x)) -> abrupt (forEach xs body).
Proof.
  intros Hbody. induction xs as [|x xs IH]; cbn [forEach].
  - apply abrupt_ret.
  - apply abrupt_bind; [apply Hbody | intros _; exact IH].
Qed.

Lemma abrupt_filterM {A} (p : A -> Run bool) (xs : list A) :
  (forall x, abrupt (p x)) -> abrupt (filterM p xs).
Proof.
  intros Hp. induction xs as [|x xs IH]; cbn [filterM].
  - apply abrupt_ret.
  - apply abrupt_bind; [apply Hp|]. intros keep.
    apply abrupt_bind; [exact IH|]. intros rest. apply abrupt_ret.
Qed.

Lemma compareVersions_not_rejected (w : World) v1 op v2 what :
  compareVersions w v1 op v2 <> Throw (Rejected what).
Proof. unfold compareVersions. now destruct (compare w v1 v2 op). Qed.

Lemma constructor_not_rejected (w : World) (what : string) :
  Inputs.constructor w <> Throw (Rejected what).
Proof.
  rewrite constructor_steps. unfold bindR.
  unfold Inputs.resolveHost.
  destruct (negb _); [|destruct (parseHost _); [|discriminate]].
  all: unfold Inputs.resolveTarget; destruct (parseTarget _); [|discriminate].
  all: unfold Inputs.resolveWasm; destruct (parseWasm _); [|discriminate].
  all: match goal with
       | |- context [Inputs.resolveArch ?a ?b ?c ?d] =>
           destruct (Inputs.resolveArch a b c d) as [arch|e] eqn:Harch
       end.
  all: try (unfold Inputs.resolveDir;
            destruct (Inputs.dirInput w) as [d|];
            [destruct (JS.truthy d)|]; discriminate).
  all: intros H; injection H as ->; revert Harch;
       unfold Inputs.resolveArch, andR, bindR, compareVersions;
       repeat match goal with
              | |- context [if ?c then _ else _] => destruct c
              | |- context [match compare ?a ?b ?c ?d with _ => _ end] =>
                  destruct (compare a b c d) as [[|]|]
              end; discriminate.
Qed.

Ltac abrupt_step :=
  lazymatch goal with
  | |- abrupt (ret _) => apply abrupt_ret
  | |- abrupt (throw _) => apply abrupt_throw; intros ?; discriminate
  | |- abrupt (liftR (compareVersions _ _ _ _)) =>
      apply abrupt_liftR; intros ?; apply compareVersions_not_rejected
  | |- abrupt history => apply abrupt_returns; intros ?; now do 2 eexists
  | |- abrupt (readEnv _) => apply abrupt_returns; intros ?; now do 2 eexists
  | |- abrupt (emit _) => apply abrupt_returns; intros ?; now do 2 eexists
  | |- abrupt (exportVariable _ _) =>
      apply abrupt_returns; intros ?; now do 2 eexists
  | |- abrupt (addPath _ _) => apply abrupt_returns; intros ?; now do 2 eexists
  | |- abrupt (bind _ _) => apply abrupt_bind; [|intros ?]
  | |- abrupt (tryCatch _ _) => apply abrupt_tryCatch; intros ?
  | |- abrupt (forEach _ _) => apply abrupt_forEach; intros ?
  | |- abrupt (filterM _ _) => apply abrupt_filterM; intros ?
  | |- abrupt (call _ _ _) =>
      apply abrupt_call;
      first [ reflexivity
            | split; [reflexivity|]; unfold pythonCommand;
              destruct (String.eqb _ _); discriminate ]
  | |- abrupt (if ?c then _ else _) => destruct c
  | |- abrupt (match ?x with _ => _ end) => destruct x
  | |- abrupt (let _ := _ in _) => cbv zeta
  | |- abrupt ((fun _ => _) _) => cbv beta
  | |- abrupt _ =>
      progress unfold runWith, installDependencies, restoreFromCache, install,
        installAqt, installQt, installQtArgs, wasmConfiguration,
        installFlavors, installSrcDocExamples, installTools, saveToCache,
        publishTools, publishQt, publishEnvironment, isAutodesktopSupported,
        getLatestCompatibleVersion, locateQtArchDir, toolsPaths, dirExists,
        setOrAppendEnvVar, getPythonOutput, execPython, exec, getExecOutput,
        restoreCache, saveCache, info, warning, setOutput
  end.

Lemma runWith_abrupt (w : World) (i : Inputs.t) : abrupt (runWith w i).
Proof. repeat abrupt_step. Qed.

(** X13: when an external command or the cache service fails, nothing is
    attempted after it: if [run] throws the rejection of a call, that
    call is the last effect of the run, and the process only reports the
    failure and exits with status 1.  The one exception is built in: a
    failing tag lookup is caught and never surfaces as a rejection. *)
Theorem rejected_call_ends_run (w : World) (s : RunState) (what : string) :
  run w (initial w) = (s, Throw (Rejected what)) ->
  exists before e,
    callNamed what e
    /\ trace s = before ++ [e]
    /\ trace (main w) = before ++ [e; SetFailed (Rejected what); Exit 1]
    /\ ~ (exists args, e = GetExecOutput "git" args).
Proof.
  intros Hrun.
  assert (Habrupt : abrupt (run w)).
  { unfold run. apply abrupt_bind; [|intros i; apply runWith_abrupt].
    apply abrupt_liftR. intros ?. apply constructor_not_rejected. }
  destruct (Habrupt _ _ _ Hrun) as (before & e & Htrace & He).
  exists before, e. split; [exact He|]. split; [exact Htrace|]. split.
  - unfold main. rewrite Hrun, Htrace. cbn [trace].
    now rewrite <- app_assoc.
  - intros (args & ->). cbn in He. now destruct He.
Qed.

(** A runner on which the installation of Qt itself fails. *)
Definition failingInstallWorld : World :=
  let w := runner [ ("target", "desktop"); ("wasm", "none");
                    ("version", "6.8.0"); ("tools", "tools_ninja");
                    ("set-env", "true"); ("cache", "true") ]
                  workspace "linux" in {|
  rawInputs := rawInputs w;
  processEnv := processEnv w;
  platform := platform w;
  osRelease := osRelease w;
  compare := compare w;
  pathResolve := pathResolve w;
  pathJoin := pathJoin w;
  pathBasename := pathBasename w;
  execSucceeds := fun _ line =>
    negb (JS.startsWith "python3 -m aqt install-qt " line);
  execOutput := execOutput w;
  cacheRestore := cacheRestore w;
  cacheSave := cacheSave w;
  globSync := globSync w;
  statIsDirectory := statIsDirectory w
|}.

Definition failedInstallQt : string :=
  "python3 -m aqt install-qt linux desktop 6.8.0 --autodesktop --outputdir /home/runner/work/app/Qt".

Lemma rejected_call_ends_run_witness :
  exists before e,
    callNamed failedInstallQt e
    /\ trace (main failingInstallWorld)
       = before ++ [e; SetFailed (Rejected failedInstallQt); Exit 1].
Proof.
  destruct (rejected_call_ends_run failingInstallWorld
              (fst (run failingInstallWorld (initial failingInstallWorld)))
              failedInstallQt)
    as (before & e & He & _ & Hmain & _); [vm_compute; reflexivity|].
  now exists before, e.
Defined.

Example failing_install_qt_run :
  trace (main failingInstallWorld)
  = [ RestoreCache ["/home/runner/work/app/Qt"]
        "-linux-6.5.0-1025-azure-desktop-none-6.8.0-/home/runner/work/app/Qt-tools_ninja";
      Info "Automatic cache miss, will cache this run";
      Exec ("python3 -m pip install setuptools wheel " +:+ JS.quoted "py7zr");
      Exec ("python3 -m pip install " +:+ JS.quoted "aqtinstall");
      GetExecOutput "python3 -m aqt version" [];
      Exec failedInstallQt;
      SetFailed (Rejected failedInstallQt);
      Exit 1 ].
Proof. vm_compute. reflexivity. Qed.

(* ===================================================================== *)
(** ** What is published, and when *)
(* ===================================================================== *)

Definition isExport (e : event) : bool :=
  match e with ExportVariable _ _ => true | _ => false end.

Definition isAddPath (e : event) : bool :=
  match e with AddPath _ => true | _ => false end.

Lemma runWith_no_export (w : World) (i : Inputs.t) :
  Inputs.setEnv i = false ->
  inv (always (fun e => isExport e = false)) (runWith w i).
Proof.
  intros Hset. unfold runWith, publishTools, publishQt. rewrite Hset.
  rewrite andb_false_r. walk.
  all: intros; apply always_push_env; [reflexivity | assumption].
Qed.

(** With [setEnv] off every variable but PATH keeps its value. *)
Lemma runWith_keeps_variable (w : World) (i : Inputs.t) (name : string)
    (value : option string) :
  Inputs.setEnv i = false -> name <> "PATH" ->
  inv (fun s => env s !! name = value) (runWith w i).
Proof.
  intros Hset Hname. unfold runWith, publishTools, publishQt. rewrite Hset.
  rewrite andb_false_r. walk.
  all: intros; cbn [env push];
       rewrite ?lookup_insert_ne by congruence; assumption.
Qed.

(** With [setEnv] off and no tool to put on the path, the environment
    is not touched and no path is added. *)
Lemma runWith_keeps_environment (w : World) (i : Inputs.t)
    (environment : gmap string string) :
  Inputs.setEnv i = false ->
  Inputs.addToolsToPath i && nonEmpty (Inputs.tools i) = false ->
  inv (fun s => env s = environment
                /\ always (fun e => isAddPath e = false) s)
      (runWith w i).
Proof.
  intros Hset Htools. unfold runWith, publishTools, publishQt.
  rewrite Hset, Htools. rewrite andb_false_r. walk.
  all: intros ? (Henv & Hnone); split;
       [exact Henv | apply always_push_env; [reflexivity | exact Hnone]].
Qed.

Lemma run_final (I : RunState -> Prop) (w : World) :
  inv I (run w) -> I (initial w) ->
  I (fst (run w (initial w))).
Proof.
  intros Hinv Hinit. specialize (Hinv (initial w) Hinit).
  now destruct (run w (initial w)) as [s [[]|e]].
Qed.

Lemma main_env (w : World) : env (main w) = env (fst (run w (initial w))).
Proof. unfold main. now destruct (run w (initial w)) as [s [[]|e]]. Qed.

(** X14: with [setEnv] off the process never calls
    [core.exportVariable], neither for the Qt variables nor for
    IQTA_TOOLS, whatever else is configured and whether the run
    completes or not.  The one variable of its environment that can
    still change is PATH, through [core.addPath] for the directories of
    the tools: every other variable ends with the value the process
    found, and unless [addToolsToPath] is on and tools are requested no
    path is added and the environment ends as it was found. *)
Theorem no_export_without_setEnv (w : World) (i : Inputs.t) :
  Inputs.constructor w = Ok i ->
  Inputs.setEnv i = false ->
  (forall e, In e (trace (main w)) -> isExport e = false)
  /\ (forall name, name <> "PATH" ->
        env (main w) !! name = processEnv w !! name)
  /\ (Inputs.addToolsToPath i = false \/ Inputs.tools i = [] ->
      env (main w) = processEnv w
      /\ forall e, In e (trace (main w)) -> isAddPath e = false).
Proof.
  intros Hnew Hset.
  assert (Hsame : forall i', Inputs.constructor w = Ok i' -> i' = i)
    by (intros i' Hnew'; congruence).
  split; [|split].
  - apply (always_main (fun e => isExport e = false)); [|reflexivity..].
    apply inv_run. intros i' Hnew'. rewrite (Hsame i' Hnew').
    now apply runWith_no_export.
  - intros name Hname. rewrite main_env.
    apply (run_final (fun s => env s !! name = processEnv w !! name));
      [|reflexivity].
    apply inv_run. intros i' Hnew'. rewrite (Hsame i' Hnew').
    now apply runWith_keeps_variable.
  - intros Hnone.
    assert (Htools : Inputs.addToolsToPath i && nonEmpty (Inputs.tools i)
                     = false).
    { destruct Hnone as [-> | ->]; [reflexivity | apply andb_false_r]. }
    assert (Hrun : inv (fun s => env s = processEnv w
                                 /\ always (fun e => isAddPath e = false) s)
                       (run w)).
    { apply inv_run. intros i' Hnew'. rewrite (Hsame i' Hnew').
      now apply runWith_keeps_environment. }
    destruct (run_final _ w Hrun) as (Henv & Hpaths);
      [split; [reflexivity | constructor]|].
    split; [now rewrite main_env|].
    intros e Hin.
    destruct (main_events w e Hin) as [Hev | [(err & ->) | (code & ->)]];
      [|reflexivity..].
    exact (always_In _ _ _ Hpaths Hev).
Qed.

Definition quietWorld : World :=
  runner [ ("target", "desktop"); ("wasm", "none"); ("version", "5.15.2");
           ("tools", "tools_ninja"); ("add-tools-to-path", "true") ]
         workspace "linux".

Lemma no_export_without_setEnv_witness :
  existsb isExport (trace (main quietWorld)) = false
  /\ env (main quietWorld) !! "RUNNER_WORKSPACE"
     = Some "/home/runner/work/app".
Proof.
  destruct (no_export_without_setEnv quietWorld (resolved quietWorld))
    as (Hexports & Hkept & _);
    [vm_compute; reflexivity | vm_compute; reflexivity |].
  split.
  - destruct (existsb isExport (trace (main quietWorld))) eqn:Hsome;
      [|reflexivity].
    apply existsb_exists in Hsome as (e & Hin & He).
    rewrite (Hexports e Hin) in He. discriminate He.
  - rewrite Hkept by discriminate. reflexivity.
Defined.

(** In that run PATH does change: the directories of the tools are put
    in front of it. *)
Example quiet_run_changes_PATH :
  processEnv quietWorld !! "PATH" = None
  /\ env (main quietWorld) !! "PATH" <> None.
Proof. split; vm_compute; [reflexivity | discriminate]. Qed.

Lemma inv_bind_liftR {A B} (I : RunState -> Prop) (r : result A)
    (k : A -> Run B) :
  (forall a, r = Ok a -> inv I (k a)) -> inv I (bind (liftR r) k).
Proof.
  intros Hk s Hs. unfold bind, liftR.
  destruct r as [a|e]; [now apply (Hk a) | exact Hs].
Qed.

Definition notQt5Dir (e : event) : Prop := exports "Qt5_DIR" e = false.

Lemma publishEnvironment_Qt5_DIR (w : World) (i : Inputs.t) (qtPath : string) :
  compare w (Inputs.version i) "6.0.0" LT <> Some true ->
  inv (always notQt5Dir) (publishEnvironment w i qtPath).
Proof.
  intros Hcompare. unfold publishEnvironment.
  apply inv_bind; [walk; intros; now apply always_push_env|]. intros ?.
  apply inv_bind; [walk; intros; now apply always_push_env|]. intros ?.
  apply inv_bind_liftR. intros qt5 Hqt5.
  assert (qt5 = false) as ->.
  { unfold compareVersions in Hqt5.
    destruct (compare w (Inputs.version i) "6.0.0" LT) as [[|]|];
      [congruence | now injection Hqt5 | discriminate]. }
  walk. all: intros; now apply always_push_env.
Qed.

Lemma runWith_Qt5_DIR (w : World) (i : Inputs.t) :
  compare w (Inputs.version i) "6.0.0" LT <> Some true ->
  inv (always notQt5Dir) (runWith w i).
Proof.
  intros Hcompare. unfold runWith.
  repeat (apply inv_bind; [walk; intros; now apply always_push_env|];
          intros ?).
  unfold publishQt.
  destruct (Inputs.isInstallQtBinaries i); [|apply inv_ret].
  apply inv_bind; [walk|]. intros qtPath.
  apply inv_bind; [walk; intros; now apply always_push_env|]. intros ?.
  destruct (Inputs.setEnv i); [|apply inv_ret].
  now apply publishEnvironment_Qt5_DIR.
Qed.

(** X15: Qt5_DIR is exported only for a version below 6.0.0: whenever
    the process exports it, the comparison of the version with 6.0.0
    answered "less".  For Qt 6, and for a version the comparison
    rejects, the variable is never set. *)
Theorem Qt5_DIR_only_below_6 (w : World) (i : Inputs.t) (value : string) :
  Inputs.constructor w = Ok i ->
  In (ExportVariable "Qt5_DIR" value) (trace (main w)) ->
  compare w (Inputs.version i) "6.0.0" LT = Some true.
Proof.
  intros Hnew Hin.
  destruct (compare w (Inputs.version i) "6.0.0" LT) as [[|]|] eqn:Hcompare;
    [reflexivity | exfalso | exfalso].
  all: assert (Hnever : forall e, In e (trace (main w)) -> notQt5Dir e)
         by (apply (always_main notQt5Dir); [|reflexivity..];
             apply inv_run; intros i' Hnew';
             assert (i' = i) as -> by congruence;
             apply runWith_Qt5_DIR; rewrite Hcompare; discriminate).
  all: discriminate (Hnever _ Hin).
Qed.

Definition qt5World : World :=
  runner [ ("target", "desktop"); ("wasm", "none"); ("version", "5.15.2");
           ("set-env", "true") ]
         workspace "linux".

Lemma Qt5_DIR_only_below_6_witness :
  Semver.compare "5.15.2" "6.0.0" LT = Some true.
Proof.
  apply (Qt5_DIR_only_below_6 qt5World (resolved qt5World)
           "/home/runner/work/app/Qt/[0-9]*/*/bin/qmake*/../../lib/cmake").
  - vm_compute. reflexivity.
  - vm_compute. repeat (first [left; reflexivity | right]).
Defined.

(* ===================================================================== *)
(** ** Installing comes before publishing *)
(* ===================================================================== *)

(** Ways of telling the later steps of the job where Qt is. *)
Definition isPublication (e : event) : bool :=
  match e with
  | ExportVariable _ _ | AddPath _ | SetOutput _ _ => true
  | _ => false
  end.

(** Calls to commands and to the cache service. *)
Definition isExternalCall (e : event) : bool :=
  match e with
  | Exec _ | GetExecOutput _ _ | RestoreCache _ _ | SaveCache _ _ => true
  | _ => false
  end.

Definition notPublication (e : event) : Prop := isPublication e = false.
Definition notExternalCall (e : event) : Prop := isExternalCall e = false.

(** The effects so far are calls first and publications after. *)
Definition ordered (s : RunState) : Prop :=
  exists before after,
    trace s = before ++ after
    /\ Forall notPublication before /\ Forall notExternalCall after.

Lemma always_ordered (s : RunState) : always notPublication s -> ordered s.
Proof.
  intros Hs. exists (trace s), []. rewrite app_nil_r.
  split; [reflexivity|]. split; [exact Hs | constructor].
Qed.

Lemma ordered_push (e : event) (s : RunState) (env' : gmap string string) :
  isExternalCall e = false -> ordered s ->
  ordered {| trace := trace s ++ [e]; env := env' |}.
Proof.
  intros He (before & after & Htrace & Hbefore & Hafter).
  exists before, (after ++ [e]). cbn [trace]. rewrite Htrace, <- app_assoc.
  split; [reflexivity|]. split; [exact Hbefore|].
  apply Forall_app. split; [exact Hafter | now constructor].
Qed.

Lemma runWith_ordered (w : World) (i : Inputs.t) :
  triple (always notPublication) (runWith w i) (fun _ => ordered) ordered.
Proof.
  unfold runWith.
  do 4 (eapply triple_bind with (Q := fun _ => always notPublication);
        [ apply inv_weaken; [|apply always_ordered];
          walk; intros; now apply always_push_env
        | intros ? ]).
  eapply triple_consequence with (P' := ordered) (Q' := fun _ => ordered)
                                 (E' := ordered);
    [|apply always_ordered | obvious | obvious].
  apply inv_triple. walk.
  all: intros; now apply ordered_push.
Qed.

(** X16: the process first calls commands and the cache service, then
    publishes: its effects split into a first part without any export,
    path addition or output, and a second part without any command or
    cache call.  Once the first variable or path is published nothing is
    installed, fetched or cached any more. *)
Theorem calls_before_publications (w : World) :
  exists before after,
    trace (main w) = before ++ after
    /\ Forall (fun e => isPublication e = false) before
    /\ Forall (fun e => isExternalCall e = false) after.
Proof.
  assert (Hrun : ordered (fst (run w (initial w)))).
  { unfold run, bind, liftR.
    destruct (Inputs.constructor w) as [i|e];
      [|apply always_ordered; constructor].
    pose proof (runWith_ordered w i (initial w) (always_initial _ w)) as H.
    now destruct (runWith w i (initial w)) as [s [[]|err]]. }
  unfold main. destruct (run w (initial w)) as [s [[]|err]]; cbn [fst] in Hrun.
  - destruct (ordered_push (Exit 0) s (env s) eq_refl Hrun)
      as (before & after & Htrace & Hparts).
    now exists before, after.
  - assert (Hfailed : ordered (push (SetFailed err) s))
      by now apply ordered_push.
    destruct (ordered_push (Exit 1) _ (env s) eq_refl Hfailed)
      as (before & after & Htrace & Hparts).
    exists before, after. split; [|exact Hparts].
    cbn [trace push] in *. now rewrite <- Htrace, <- app_assoc.
Qed.

(* ===================================================================== *)
(** ** The cache service *)
(* ===================================================================== *)

Definition isCacheCall (e : event) : bool :=
  match e with
  | RestoreCache _ _ | SaveCache _ _ => true
  | _ => false
  end.

Definition isSave (e : event) : bool :=
  match e with SaveCache _ _ => true | _ => false end.

Section CacheService.

Variables (w : World) (i : Inputs.t).

(** A call to the cache is made with the cache on, for the one
    directory of the configuration and under its key. *)
Definition cacheCallOk (e : event) : Prop :=
  isCacheCall e = true ->
  Inputs.cache i = true
  /\ (e = RestoreCache [Inputs.dir i] (Inputs.cacheKey w i)
      \/ e = SaveCache [Inputs.dir i] (Inputs.cacheKey w i)).

Lemma runWith_cacheCallOk : inv (always cacheCallOk) (runWith w i).
Proof.
  unfold runWith.
  apply inv_bind;
    [walk; intros; (apply always_push_env; [discriminate | assumption])|].
  intros ?. apply inv_bind.
  { unfold restoreFromCache. destruct (Inputs.cache i) eqn:Hcache; walk.
    all: intros; apply always_push_env; [|assumption].
    all: first [discriminate | intros _; unfold cacheCallOk; rewrite Hcache; auto]. }
  intros hit. apply inv_bind.
  { walk. all: intros; apply always_push_env; [discriminate | assumption]. }
  intros ?. apply inv_bind.
  { unfold saveToCache. destruct (Inputs.cache i) eqn:Hcache;
      [|rewrite andb_false_r; apply inv_ret].
    walk. all: intros; apply always_push_env; [|assumption].
    all: first [discriminate | intros _; unfold cacheCallOk; rewrite Hcache; auto]. }
  intros ?. walk.
  all: intros; apply always_push_env; [discriminate | assumption].
Qed.

Definition beforeCache (e : event) : Prop :=
  isSave e = false /\ isHitInfo e = false.

Definition notSave (e : event) : Prop := isSave e = false.

Lemma beforeCache_notSave (s : RunState) :
  always beforeCache s -> always notSave s.
Proof. apply List.Forall_impl. now intros e (H & _). Qed.

Lemma beforeCache_notHitInfo (s : RunState) :
  always beforeCache s -> always notHitInfo s.
Proof. apply List.Forall_impl. now intros e (_ & H). Qed.

Lemma restoreFromCache_save_split :
  triple (always beforeCache) (restoreFromCache w i)
    (fun hit s => if hit then always notSave s else always notHitInfo s)
    (always notSave).
Proof.
  unfold restoreFromCache.
  destruct (Inputs.cache i);
    [|apply triple_ret; apply beforeCache_notHitInfo].
  eapply triple_bind with (Q := fun _ => always beforeCache).
  { apply inv_weaken; [|apply beforeCache_notSave].
    walk. intros. apply always_push; [now split | assumption]. }
  assert (Hmiss : triple (always beforeCache)
            (info "Automatic cache miss, will cache this run" ;; ret false)%run
            (fun hit s => if hit then always notSave s
                          else always notHitInfo s)
            (always notSave)).
  { eapply triple_bind with (Q := fun _ => always notHitInfo).
    - apply triple_emit. intros s Hs.
      apply always_push; [reflexivity | now apply beforeCache_notHitInfo].
    - intros ?. now apply triple_ret. }
  intros [key|]; [destruct (JS.truthy key)|]; try exact Hmiss.
  eapply triple_bind with (Q := fun _ => always notSave).
  - apply triple_emit. intros s Hs.
    apply always_push; [reflexivity | now apply beforeCache_notSave].
  - intros ?. now apply triple_ret.
Qed.

Lemma afterHit_notSave :
  inv (always notSave)
    (saveToCache w i true ;; publishTools w i ;; publishQt w i)%run.
Proof.
  unfold saveToCache. cbn [negb andb]. walk.
  all: intros; now apply always_push_env.
Qed.

(** Whatever the outcome, a run either never saved the cache or never
    reported a hit. *)
Lemma runWith_hit_or_save :
  triple (always beforeCache) (runWith w i)
    (fun _ s => always notSave s \/ always notHitInfo s)
    (fun s => always notSave s \/ always notHitInfo s).
Proof.
  unfold runWith.
  eapply triple_bind with (Q := fun _ => always beforeCache).
  { apply inv_weaken;
      [|intros s Hs; left; now apply beforeCache_notSave].
    walk. all: intros; apply always_push_env; [now split | assumption]. }
  intros ?.
  eapply triple_bind;
    [eapply triple_consequence;
       [apply restoreFromCache_save_split | obvious | intros ? s Hs; exact Hs
        | intros s Hs; now left]|].
  intros [|]; cbn [negb].
  - eapply triple_bind with (Q := fun _ => always notSave);
      [apply triple_ret; obvious|].
    intros ?. eapply triple_consequence;
      [apply afterHit_notSave | obvious
       | intros ? s Hs; now left | intros s Hs; now left].
  - eapply triple_bind with (Q := fun _ => always notHitInfo);
      [apply inv_weaken; [apply install_notHitInfo | intros s Hs; now right]|].
    intros ?. eapply triple_consequence;
      [apply (afterInstall_notHitInfo w i false) | obvious
       | intros ? s Hs; now right | intros s Hs; now right].
Qed.

End CacheService.

(** X17: the cache service is called only with the cache enabled, always
    for the one directory of the configuration and under its cache key,
    so that what is saved is found again under the key looked up; and a
    run that reported a cache hit never saves. *)
Theorem cache_service_use (w : World) (i : Inputs.t) :
  Inputs.constructor w = Ok i ->
  (forall e, In e (trace (main w)) -> isCacheCall e = true ->
     Inputs.cache i = true
     /\ (e = RestoreCache [Inputs.dir i] (Inputs.cacheKey w i)
         \/ e = SaveCache [Inputs.dir i] (Inputs.cacheKey w i)))
  /\ (cacheHit (fst (run w (initial w))) ->
      forall e, In e (trace (main w)) -> isSave e = false).
Proof.
  intros Hnew. split.
  - apply (always_main (cacheCallOk w i)); [|discriminate..].
    apply inv_run. intros i' Hnew'. assert (i' = i) as -> by congruence.
    apply runWith_cacheCallOk.
  - intros Hhit e Hin.
    destruct (main_events w e Hin) as [Hrun | [(err & ->) | (code & ->)]];
      [|reflexivity..].
    destruct (run w (initial w)) as [s r] eqn:Hresult. cbn [fst] in *.
    pose proof (run_completed w i _ _ _ s r Hnew (runWith_hit_or_save w i)
                  (always_initial _ w) Hresult) as Hsplit.
    assert (Hcases : always notSave s \/ always notHitInfo s)
      by (destruct r; exact Hsplit).
    destruct Hcases as [Hnever | Hnever].
    + exact (always_In _ _ _ Hnever Hrun).
    + now destruct (always_not_happened _ s Hnever).
Qed.

Lemma cache_service_use_witness :
  forallb (fun e => negb (isSave e)) (trace (main cacheHitWorld)) = true.
Proof.
  destruct (cache_service_use cacheHitWorld (resolved cacheHitWorld))
    as (_ & Hhit); [vm_compute; reflexivity|].
  apply forallb_forall. intros e Hin.
  rewrite (Hhit ltac:(vm_compute; reflexivity) e Hin). reflexivity.
Defined.

(* ===================================================================== *)
(** ** The tools on the search path *)
(* ===================================================================== *)

(** What [toolsPaths] finds when the effects so far are [h]. *)
Definition foundToolsPaths (w : World) (installDir : string) (h : list event)
    : list string :=
  map (fun p => pathResolve w [p])
    (concat (map (fun p => globSync w h (installDir +:+ "/" +:+ p))
               [ "Tools/**/bin";
                 "*.app/Contents/MacOS";
                 "*.app/**/bin";
                 "Tools/*/*.app/Contents/MacOS";
                 "Tools/*/*.app/**/bin" ])
     ++ List.filter (fun d => default false (statIsDirectory w h d))
          (map (fun dir => pathJoin w [installDir; "Tools"; dir])
             binlessToolDirectories)).

Lemma filterM_dirExists (w : World) (dirs : list string) (s : RunState) :
  filterM (dirExists w) dirs s
  = (s, Ok (List.filter
              (fun d => default false (statIsDirectory w (trace s) d)) dirs)).
Proof.
  induction dirs as [|d dirs IH]; [reflexivity|].
  cbn [filterM List.filter]. unfold bind at 1. unfold dirExists at 1.
  unfold bind at 1. unfold history at 1. unfold ret at 1.
  unfold bind at 1. rewrite IH. unfold ret.
  now destruct (default false (statIsDirectory w (trace s) d)).
Qed.

Lemma toolsPaths_reads (w : World) (installDir : string) (s : RunState) :
  toolsPaths w installDir s = (s, Ok (foundToolsPaths w installDir (trace s))).
Proof.
  unfold toolsPaths. unfold bind at 1. rewrite filterM_dirExists.
  reflexivity.
Qed.

(** [process.env.PATH] after [core.addPath] of each path in turn. *)
Definition pathValue (w : World) (paths : list string) (old : option string)
    : option string :=
  fold_left
    (fun acc p => Some (p +:+ pathDelimiter w +:+ default "undefined" acc))
    paths old.

Lemma join_cons (sep x : string) (rest : list string) :
  rest <> [] -> JS.join sep (x :: rest) = x +:+ sep +:+ JS.join sep rest.
Proof. destruct rest; [congruence | reflexivity]. Qed.

Lemma join_last_two (sep p old : string) (xs : list string) :
  JS.join sep (xs ++ [p +:+ sep +:+ old]) = JS.join sep (xs ++ [p; old]).
Proof.
  induction xs as [|x xs IH]; [reflexivity|].
  rewrite <- !app_comm_cons.
  rewrite !join_cons by (intros H; now apply app_eq_nil in H as [_ H]).
  now rewrite IH.
Qed.

Lemma pathValue_join (w : World) (paths : list string) (old : option string) :
  paths <> [] ->
  pathValue w paths old
  = Some (JS.join (pathDelimiter w)
            (rev paths ++ [default "undefined" old])).
Proof.
  unfold pathValue. revert old.
  induction paths as [|p rest IH]; intros old Hne; [congruence|].
  cbn [fold_left rev]. destruct rest as [|q rest]; [reflexivity|].
  rewrite IH by discriminate.
  change (default "undefined" (Some ?x)) with x.
  rewrite join_last_two. now rewrite <- app_assoc.
Qed.

Lemma forEach_addPath (w : World) (paths : list string) (s : RunState) :
  exists s',
    forEach paths (addPath w) s = (s', Ok tt)
    /\ trace s' = trace s ++ map AddPath paths
    /\ env s' !! "PATH" = pathValue w paths (env s !! "PATH")
    /\ (forall name, name <> "PATH" -> env s' !! name = env s !! name).
Proof.
  revert s. induction paths as [|p rest IH]; intros s.
  - exists s. cbn. rewrite app_nil_r. now repeat split.
  - cbn [forEach]. unfold bind, addPath at 1.
    match goal with
    | |- context [forEach rest (addPath w) ?s1] =>
        destruct (IH s1) as (s' & -> & Htrace & Hpath & Hother)
    end.
    exists s'. split; [reflexivity|]. cbn [trace env] in *.
    split; [now rewrite Htrace, <- app_assoc|]. split.
    + now rewrite Hpath, lookup_insert_eq.
    + intros name Hname. rewrite (Hother name Hname).
      now apply lookup_insert_ne.
Qed.

(** X18: with tools requested and [add-tools-to-path] on, the tools step
    cannot fail and changes nothing before it has looked for the
    directories; a Conan or Ninja directory whose [statSync] throws
    counts as absent.  Each directory found is added to the path in the
    order found, so the search path ends up holding them in reverse
    order, the last one found first, in front of the old value. *)
Theorem tools_on_search_path (w : World) (i : Inputs.t) (s : RunState) :
  Inputs.addToolsToPath i = true ->
  Inputs.tools i <> [] ->
  let paths := foundToolsPaths w (Inputs.dir i) (trace s) in
  exists s',
    publishTools w i s = (s', Ok tt)
    /\ trace s'
       = trace s ++ map AddPath paths
         ++ (if Inputs.setEnv i
             then [ExportVariable "IQTA_TOOLS"
                     (pathResolve w [Inputs.dir i; "Tools"])]
             else [])
    /\ (paths <> [] ->
        env s' !! "PATH"
        = Some (JS.join (pathDelimiter w)
                  (rev paths ++ [default "undefined" (env s !! "PATH")]))).
Proof.
  intros Hadd Htools paths. unfold publishTools. rewrite Hadd.
  destruct (Inputs.tools i) as [|tool tools]; [congruence|].
  cbn [nonEmpty andb]. unfold bind at 1. unfold bind at 1.
  rewrite toolsPaths_reads. fold paths.
  destruct (forEach_addPath w paths s) as (s1 & -> & Htrace & Hpath & _).
  destruct (Inputs.setEnv i).
  - eexists. split; [reflexivity|]. cbn [trace env]. split.
    + now rewrite Htrace, <- app_assoc.
    + intros Hne. rewrite lookup_insert_ne by discriminate.
      rewrite Hpath. now apply pathValue_join.
  - exists s1. split; [reflexivity|]. split.
    + now rewrite app_nil_r.
    + intros Hne. rewrite Hpath. now apply pathValue_join.
Qed.

Definition toolsWorld : World :=
  runner [ ("target", "desktop"); ("wasm", "none"); ("version", "6.8.0");
           ("tools", "tools_ninja"); ("add-tools-to-path", "true") ]
         [ ("RUNNER_WORKSPACE", "/w"); ("PATH", "/usr/bin") ] "linux".

Lemma tools_on_search_path_witness :
  exists s',
    publishTools toolsWorld (resolved toolsWorld) (initial toolsWorld)
    = (s', Ok tt)
    /\ env s' !! "PATH"
       = Some ("/w/Qt/Tools/*/*.app/**/bin:/w/Qt/Tools/*/*.app/Contents/MacOS:"
               +:+ "/w/Qt/*.app/**/bin:/w/Qt/*.app/Contents/MacOS:"
               +:+ "/w/Qt/Tools/**/bin:/usr/bin").
Proof.
  destruct (tools_on_search_path toolsWorld (resolved toolsWorld)
              (initial toolsWorld))
    as (s' & Hrun & _ & Hpath);
    [vm_compute; reflexivity | vm_compute; discriminate |].
  exists s'. split; [exact Hrun|].
  rewrite Hpath by (vm_compute; discriminate). vm_compute. reflexivity.
Defined.

(* ===================================================================== *)
(** ** When [--autodesktop] is passed *)
(* ===================================================================== *)

Lemma aqtVersionAt_shape (s v : string) :
  aqtVersionAt s = Some v -> threeNumbers v.
Proof.
  unfold aqtVersionAt.
  destruct (dropPrefix "aqtinstall(aqt)" s) as [[|a r1]|]; try discriminate.
  destruct (JS.isSpace a); [|discriminate].
  destruct (literal "v" _) as [r2|]; [|discriminate].
  destruct (version3 r2) as [[v' rest]|] eqn:Hv; [|discriminate].
  cbn [option_map fst]. intros H. injection H as <-.
  exact (version3_shape _ _ _ Hv).
Qed.

Lemma allDigits_no_dot (ds : string) :
  allDigits ds = true -> hasChar "." ds = false.
Proof.
  induction ds as [|a ds IH]; [reflexivity|]. cbn [allDigits hasChar].
  intros H. apply andb_prop in H as [Ha Hds]. rewrite (IH Hds).
  destruct (Ascii.eqb_spec a ".") as [->|]; [discriminate Ha | reflexivity].
Qed.

Lemma split_clean (c : ascii) (s : string) :
  hasChar c s = false -> JS.split c s = [s].
Proof.
  induction s as [|a s IH]; [reflexivity|]. cbn [hasChar JS.split].
  intros H. apply orb_false_iff in H as [Ha Hs]. now rewrite Ha, (IH Hs).
Qed.

Lemma split_app (c : ascii) (s t : string) :
  hasChar c s = false -> JS.split c (s +:+ String c t) = s :: JS.split c t.
Proof.
  induction s as [|a s IH].
  - intros _. rewrite app_empty_l. cbn [JS.split]. now rewrite Ascii.eqb_refl.
  - cbn [hasChar]. intros H. apply orb_false_iff in H as [Ha Hs].
    rewrite app_cons. cbn [JS.split]. now rewrite Ha, (IH Hs).
Qed.

Lemma digitsValue_digits (acc : N) (ds : string) :
  allDigits ds = true -> exists n, Semver.digitsValue acc ds = Some n.
Proof.
  revert acc. induction ds as [|a ds IH]; intros acc; [now exists acc|].
  cbn [allDigits Semver.digitsValue]. intros H.
  apply andb_prop in H as [-> Hds]. now apply IH.
Qed.

Lemma component_digits (ds : string) :
  ds <> "" -> allDigits ds = true -> exists n, Semver.component ds = Some n.
Proof.
  intros Hne Hds. unfold Semver.component.
  apply truthy_true in Hne. rewrite Hne. now apply digitsValue_digits.
Qed.

(** The major number of a version. *)
Definition majorOf (v : string) : option N :=
  match Semver.parse v with
  | Some (major, _, _) => Some major
  | None => None
  end.

Lemma threeNumbers_major (v : string) :
  threeNumbers v ->
  exists major,
    majorOf v = Some major
    /\ Semver.compare v "3.0.0" GE = Some (3 <=? major)%N
    /\ (JS.startsWith "3.2." v = true -> major = 3%N).
Proof.
  intros (major & minor & patch & -> & (Hmajor & Hdmajor) & (Hminor & Hdminor)
          & (Hpatch & Hdpatch)).
  destruct (component_digits major Hmajor Hdmajor) as (a & Ha).
  destruct (component_digits minor Hminor Hdminor) as (b & Hb).
  destruct (component_digits patch Hpatch Hdpatch) as (c & Hc).
  assert (Hparse : Semver.parse (major +:+ "." +:+ minor +:+ "." +:+ patch)
                   = Some (a, b, c)).
  { unfold Semver.parse.
    change ("." +:+ minor +:+ "." +:+ patch)
      with (String "." (minor +:+ String "." patch)).
    rewrite split_app by now apply allDigits_no_dot.
    rewrite split_app by now apply allDigits_no_dot.
    rewrite split_clean by now apply allDigits_no_dot.
    cbn [Semver.components]. now rewrite Ha, Hb, Hc. }
  exists a. unfold majorOf, Semver.compare. rewrite Hparse.
  split; [reflexivity|]. split.
  - change (Semver.parse "3.0.0") with (Some (3, 0, 0)%N).
    f_equal. unfold Semver.cmp.
    destruct (N.compare_spec a 3) as [->|Hlt|Hgt].
    + destruct (N.compare_spec b 0) as [->|Hlt|Hgt]; [|lia|reflexivity].
      destruct (N.compare_spec c 0) as [->|Hlt|Hgt]; [reflexivity|lia|reflexivity].
    + cbn [Semver.holds]. symmetry. apply N.leb_gt. exact Hlt.
    + cbn [Semver.holds]. symmetry. apply N.leb_le. lia.
  - destruct major as [|x [|y major]]; [congruence| |].
    + rewrite app_cons, app_empty_l. cbn [JS.startsWith].
      destruct (Ascii.eqb_spec "3" x) as [<-|]; [|discriminate].
      intros _. vm_compute in Ha. now injection Ha.
    + rewrite !app_cons. cbn [JS.startsWith].
      cbn [allDigits] in Hdmajor.
      apply andb_prop in Hdmajor as [_ Hy]. apply andb_prop in Hy as [Hy _].
      destruct (Ascii.eqb_spec "." y) as [<-|];
        [discriminate Hy | now rewrite andb_false_r].
Qed.

(** X19: when the comparison orders versions of three numbers by their
    numbers (nothing is asked of it on any other string), asking aqt for
    its version never makes the comparison throw, and [--autodesktop] is
    supported exactly when the version reported has a major number of at
    least 3: the clause for versions starting with "3.2." changes
    nothing. *)
Theorem autodesktop_needs_major_3 (w : World) (s : RunState)
    (out err : string) :
  (forall v, threeNumbers v ->
     compare w v "3.0.0" GE = Semver.compare v "3.0.0" GE) ->
  execOutput w (trace s) (pythonCommand w "aqt" ["version"]) []
  = Some (out, err) ->
  exists supported,
    snd (isAutodesktopSupported w s) = Ok supported
    /\ (supported = true <->
        exists v major,
          search aqtVersionAt (out +:+ err) = Some v
          /\ majorOf v = Some major /\ (3 <= major)%N).
Proof.
  intros Hcompare Hout.
  unfold isAutodesktopSupported, getPythonOutput, getExecOutput, call.
  unfold bind at 1. unfold bind at 1. rewrite Hout. unfold ret at 1.
  cbn [fst snd].
  destruct (search aqtVersionAt (out +:+ err)) as [v|] eqn:Hmatch.
  - apply search_Some in Hmatch as (t & Ht).
    apply aqtVersionAt_shape in Ht as Hshape.
    destruct (threeNumbers_major v Hshape) as (major & Hmajor & Hge & Hfork).
    unfold bind, liftR, compareVersions. rewrite (Hcompare v Hshape), Hge.
    exists ((3 <=? major)%N || JS.startsWith "3.2." v).
    split; [reflexivity|]. split.
    + intros H. exists v, major. split; [reflexivity|].
      split; [exact Hmajor|].
      apply orb_true_iff in H as [H | H];
        [now apply N.leb_le | rewrite (Hfork H); lia].
    + intros (v' & major' & Hv' & Hmajor' & Hle).
      injection Hv' as <-. rewrite Hmajor in Hmajor'.
      injection Hmajor' as <-. apply orb_true_iff. left. now apply N.leb_le.
  - exists false. split; [reflexivity|]. split; [discriminate|].
    intros (v & major & Hv & _). discriminate Hv.
Qed.

Lemma autodesktop_needs_major_3_witness :
  snd (isAutodesktopSupported toolsWorld (initial toolsWorld)) = Ok true.
Proof.
  destruct (autodesktop_needs_major_3 toolsWorld (initial toolsWorld)
              "aqtinstall(aqt) v3.2.1 on Python 3.12" "")
    as (supported & -> & Hiff); [reflexivity | reflexivity |].
  f_equal. apply Hiff. exists "3.2.1", 3%N.
  split; [vm_compute; reflexivity|]. split; [vm_compute; reflexivity | lia].
Defined.

(* ===================================================================== *)
(** ** Rejected inputs, and the directory of the installation *)
(* ===================================================================== *)

(** X20: when the inputs are rejected nothing is run, looked up, cached
    or published: the process reports the error of the construction and
    exits with status 1, and the environment is the one it started
    with. *)
Theorem rejected_inputs_run_nothing (w : World) (e : error) :
  Inputs.constructor w = Throw e ->
  main w = {| trace := [SetFailed e; Exit 1]; env := processEnv w |}.
Proof.
  intros Hnew. unfold main, run, bind, liftR. now rewrite Hnew.
Qed.

Lemma rejected_inputs_run_nothing_witness :
  exists msg,
    main badTargetWorld
    = {| trace := [SetFailed (TypeError msg); Exit 1];
         env := processEnv badTargetWorld |}.
Proof.
  eexists. apply (rejected_inputs_run_nothing badTargetWorld).
  vm_compute. reflexivity.
Defined.

(** X21: the installation directory of a configuration is always
    [path.resolve(base, "Qt")] for a non-empty base, which is the [dir]
    input when that is not empty and the variable RUNNER_WORKSPACE
    otherwise.  With an empty [dir] input and RUNNER_WORKSPACE unset or
    empty, no configuration is built. *)
Theorem install_directory (w : World) :
  (forall i, Inputs.constructor w = Ok i ->
     exists base,
       base <> ""
       /\ Inputs.dir i = pathResolve w [base; "Qt"]
       /\ (getInput w "dir" = base
           \/ (getInput w "dir" = ""
               /\ processEnv w !! "RUNNER_WORKSPACE" = Some base)))
  /\ (getInput w "dir" = "" ->
      processEnv w !! "RUNNER_WORKSPACE" = None
      \/ processEnv w !! "RUNNER_WORKSPACE" = Some "" ->
      exists e, Inputs.constructor w = Throw e).
Proof.
  assert (Hdir : forall dir, Inputs.resolveDir w = Ok dir ->
            exists base,
              base <> "" /\ dir = pathResolve w [base; "Qt"]
              /\ (getInput w "dir" = base
                  \/ (getInput w "dir" = ""
                      /\ processEnv w !! "RUNNER_WORKSPACE" = Some base))).
  { intros dir. unfold Inputs.resolveDir, Inputs.dirInput.
    destruct (getInput w "dir") as [|a d] eqn:Hraw; cbn [JS.truthy].
    - destruct (processEnv w !! "RUNNER_WORKSPACE") as [[|a base]|];
        cbn [JS.truthy]; try discriminate.
      intros H. injection H as <-. exists (String a base).
      split; [discriminate|]. split; [reflexivity | now right].
    - intros H. injection H as <-. exists (String a d).
      split; [discriminate|]. split; [reflexivity | now left]. }
  split.
  - intros i Hnew.
    destruct (constructor_Ok_inv w i Hnew)
      as (host & target & wasm & arch & dir & _ & _ & _ & _ & Hd & ->).
    exact (Hdir dir Hd).
  - intros Hraw Hworkspace.
    destruct (Inputs.constructor w) as [i|e] eqn:Hnew; [|now exists e].
    destruct (constructor_Ok_inv w i Hnew)
      as (host & target & wasm & arch & dir & _ & _ & _ & _ & Hd & _).
    destruct (Hdir dir Hd) as (base & Hbase & _ & [Hgiven | (_ & Hvar)]).
    + congruence.
    + destruct Hworkspace as [Hnone | Hempty]; congruence.
Qed.

Definition noWorkspaceWorld : World :=
  runner [ ("target", "desktop"); ("wasm", "none"); ("version", "6.8.0") ]
         [] "linux".

Lemma install_directory_witness :
  exists e, Inputs.constructor noWorkspaceWorld = Throw e.
Proof.
  destruct (install_directory noWorkspaceWorld) as (_ & Hfails).
  apply Hfails; [reflexivity | left; reflexivity].
Defined.
